(** * Expense-Agent: statement / spreadsheet reconciliation (src/app.py)

    A shallow embedding of the functions of [app.py] (the validation of
    the uploads, the extraction-and-reconciliation functions and the
    request handler that composes them) and the proofs of their
    properties.

    Conventions of the embedding.
    - A Python [str] is a list of Unicode code points ([text := list N]);
      offsets are code-point indices, as in Python.
    - Python's [float] is IEEE binary64: Rocq's primitive [float].
    - The regular expressions of the source are terms of a small regex
      syntax, run by a backtracking matcher with Python's priorities
      (leftmost match, greedy and lazy repetition).
    - [\s], [str.split] and [str.strip] use Python's Unicode white space,
      [\d] the decimal digits of Unicode, [\w] its letters and digits and
      [str.upper] its upper-casing: the tables are those of Unicode 14.0,
      which Python 3.11 has. [[0-9]], [[a-z]] and [[A-Z]] are the ASCII
      ranges. [str.lower] is modelled on its ASCII range (it is applied to
      a file extension that is compared with ASCII words), and IGNORECASE
      on the ASCII letters with the further characters that Python folds
      onto [i], [k] and [s].
    - The files, the PDF library and the workbook reader stay outside: the
      functions that use them take what they read as an argument. *)

From Stdlib Require Import String Ascii.
From Stdlib Require Import List ZArith NArith Lia Bool Floats Sorted.
Import ListNotations.
Local Open Scope list_scope.

Set Implicit Arguments.

(** ** Text *)

Definition char := N.
Bind Scope N_scope with char.
Definition text := list char.

(** A Python string literal. *)
Definition str (s : string) : text :=
  List.map N_of_ascii (list_ascii_of_string s).

(** *** Character classes *)

Definition in_range (lo hi c : N) : bool := (lo <=? c)%N && (c <=? hi)%N.

(** Python's Unicode white space: [str.isspace], [str.split()],
    [str.strip()] and the regex class [\s]. *)
Definition is_space (c : char) : bool :=
  in_range 9 13 c || in_range 28 32 c || (c =? 133)%N || (c =? 160)%N
  || (c =? 5760)%N || in_range 8192 8202 c || (c =? 8232)%N || (c =? 8233)%N
  || (c =? 8239)%N || (c =? 8287)%N || (c =? 12288)%N.

(** [c] lies in one of the ranges of the table [l]. *)
Definition in_ranges (l : list (N * N)) (c : char) : bool :=
  existsb (fun r => in_range (fst r) (snd r) c) l.

(** [[0-9]] *)
Definition is_digit (c : char) : bool := in_range 48 57 c.

(** The decimal digits of Unicode (category Nd), by blocks: each block
    holds the digits 0 to 9 in order, once or several times in a row. *)
Definition DECIMAL_BLOCKS : list (N * N) :=
  [(48, 57); (1632, 1641); (1776, 1785); (1984, 1993); (2406, 2415); (2534,
   2543); (2662, 2671); (2790, 2799); (2918, 2927); (3046, 3055); (3174,
   3183); (3302, 3311); (3430, 3439); (3558, 3567); (3664, 3673); (3792,
   3801); (3872, 3881); (4160, 4169); (4240, 4249); (6112, 6121); (6160,
   6169); (6470, 6479); (6608, 6617); (6784, 6793); (6800, 6809); (6992,
   7001); (7088, 7097); (7232, 7241); (7248, 7257); (42528, 42537); (43216,
   43225); (43264, 43273); (43472, 43481); (43504, 43513); (43600, 43609);
   (44016, 44025); (65296, 65305); (66720, 66729); (68912, 68921); (69734,
   69743); (69872, 69881); (69942, 69951); (70096, 70105); (70384, 70393);
   (70736, 70745); (70864, 70873); (71248, 71257); (71360, 71369); (71472,
   71481); (71904, 71913); (72016, 72025); (72784, 72793); (73040, 73049);
   (73120, 73129); (92768, 92777); (92864, 92873); (93008, 93017); (120782,
   120831); (123200, 123209); (123632, 123641); (125264, 125273); (130032,
   130041)]%N.

(** [\d], and [str.isdecimal]. *)
Definition is_decimal (c : char) : bool := in_ranges DECIMAL_BLOCKS c.

(** The value of a decimal digit, as [int] reads it. *)
Definition decimal_value (c : char) : Z :=
  match find (fun r => in_range (fst r) (snd r) c) DECIMAL_BLOCKS with
  | Some (lo, _) => Z.of_N ((c - lo) mod 10)
  | None => 0%Z
  end.

(** The letters and digits of Unicode ([str.isalnum]) and the underscore. *)
Definition WORD_RANGES : list (N * N) :=
  [(48, 57); (65, 90); (95, 95); (97, 122); (170, 170); (178, 179); (181,
   181); (185, 186); (188, 190); (192, 214); (216, 246); (248, 705); (710,
   721); (736, 740); (748, 748); (750, 750); (880, 884); (886, 887); (890,
   893); (895, 895); (902, 902); (904, 906); (908, 908); (910, 929); (931,
   1013); (1015, 1153); (1162, 1327); (1329, 1366); (1369, 1369); (1376,
   1416); (1488, 1514); (1519, 1522); (1568, 1610); (1632, 1641); (1646,
   1647); (1649, 1747); (1749, 1749); (1765, 1766); (1774, 1788); (1791,
   1791); (1808, 1808); (1810, 1839); (1869, 1957); (1969, 1969); (1984,
   2026); (2036, 2037); (2042, 2042); (2048, 2069); (2074, 2074); (2084,
   2084); (2088, 2088); (2112, 2136); (2144, 2154); (2160, 2183); (2185,
   2190); (2208, 2249); (2308, 2361); (2365, 2365); (2384, 2384); (2392,
   2401); (2406, 2415); (2417, 2432); (2437, 2444); (2447, 2448); (2451,
   2472); (2474, 2480); (2482, 2482); (2486, 2489); (2493, 2493); (2510,
   2510); (2524, 2525); (2527, 2529); (2534, 2545); (2548, 2553); (2556,
   2556); (2565, 2570); (2575, 2576); (2579, 2600); (2602, 2608); (2610,
   2611); (2613, 2614); (2616, 2617); (2649, 2652); (2654, 2654); (2662,
   2671); (2674, 2676); (2693, 2701); (2703, 2705); (2707, 2728); (2730,
   2736); (2738, 2739); (2741, 2745); (2749, 2749); (2768, 2768); (2784,
   2785); (2790, 2799); (2809, 2809); (2821, 2828); (2831, 2832); (2835,
   2856); (2858, 2864); (2866, 2867); (2869, 2873); (2877, 2877); (2908,
   2909); (2911, 2913); (2918, 2927); (2929, 2935); (2947, 2947); (2949,
   2954); (2958, 2960); (2962, 2965); (2969, 2970); (2972, 2972); (2974,
   2975); (2979, 2980); (2984, 2986); (2990, 3001); (3024, 3024); (3046,
   3058); (3077, 3084); (3086, 3088); (3090, 3112); (3114, 3129); (3133,
   3133); (3160, 3162); (3165, 3165); (3168, 3169); (3174, 3183); (3192,
   3198); (3200, 3200); (3205, 3212); (3214, 3216); (3218, 3240); (3242,
   3251); (3253, 3257); (3261, 3261); (3293, 3294); (3296, 3297); (3302,
   3311); (3313, 3314); (3332, 3340); (3342, 3344); (3346, 3386); (3389,
   3389); (3406, 3406); (3412, 3414); (3416, 3425); (3430, 3448); (3450,
   3455); (3461, 3478); (3482, 3505); (3507, 3515); (3517, 3517); (3520,
   3526); (3558, 3567); (3585, 3632); (3634, 3635); (3648, 3654); (3664,
   3673); (3713, 3714); (3716, 3716); (3718, 3722); (3724, 3747); (3749,
   3749); (3751, 3760); (3762, 3763); (3773, 3773); (3776, 3780); (3782,
   3782); (3792, 3801); (3804, 3807); (3840, 3840); (3872, 3891); (3904,
   3911); (3913, 3948); (3976, 3980); (4096, 4138); (4159, 4169); (4176,
   4181); (4186, 4189); (4193, 4193); (4197, 4198); (4206, 4208); (4213,
   4225); (4238, 4238); (4240, 4249); (4256, 4293); (4295, 4295); (4301,
   4301); (4304, 4346); (4348, 4680); (4682, 4685); (4688, 4694); (4696,
   4696); (4698, 4701); (4704, 4744); (4746, 4749); (4752, 4784); (4786,
   4789); (4792, 4798); (4800, 4800); (4802, 4805); (4808, 4822); (4824,
   4880); (4882, 4885); (4888, 4954); (4969, 4988); (4992, 5007); (5024,
   5109); (5112, 5117); (5121, 5740); (5743, 5759); (5761, 5786); (5792,
   5866); (5870, 5880); (5888, 5905); (5919, 5937); (5952, 5969); (5984,
   5996); (5998, 6000); (6016, 6067); (6103, 6103); (6108, 6108); (6112,
   6121); (6128, 6137); (6160, 6169); (6176, 6264); (6272, 6276); (6279,
   6312); (6314, 6314); (6320, 6389); (6400, 6430); (6470, 6509); (6512,
   6516); (6528, 6571); (6576, 6601); (6608, 6618); (6656, 6678); (6688,
   6740); (6784, 6793); (6800, 6809); (6823, 6823); (6917, 6963); (6981,
   6988); (6992, 7001); (7043, 7072); (7086, 7141); (7168, 7203); (7232,
   7241); (7245, 7293); (7296, 7304); (7312, 7354); (7357, 7359); (7401,
   7404); (7406, 7411); (7413, 7414); (7418, 7418); (7424, 7615); (7680,
   7957); (7960, 7965); (7968, 8005); (8008, 8013); (8016, 8023); (8025,
   8025); (8027, 8027); (8029, 8029); (8031, 8061); (8064, 8116); (8118,
   8124); (8126, 8126); (8130, 8132); (8134, 8140); (8144, 8147); (8150,
   8155); (8160, 8172); (8178, 8180); (8182, 8188); (8304, 8305); (8308,
   8313); (8319, 8329); (8336, 8348); (8450, 8450); (8455, 8455); (8458,
   8467); (8469, 8469); (8473, 8477); (8484, 8484); (8486, 8486); (8488,
   8488); (8490, 8493); (8495, 8505); (8508, 8511); (8517, 8521); (8526,
   8526); (8528, 8585); (9312, 9371); (9450, 9471); (10102, 10131); (11264,
   11492); (11499, 11502); (11506, 11507); (11517, 11517); (11520, 11557);
   (11559, 11559); (11565, 11565); (11568, 11623); (11631, 11631); (11648,
   11670); (11680, 11686); (11688, 11694); (11696, 11702); (11704, 11710);
   (11712, 11718); (11720, 11726); (11728, 11734); (11736, 11742); (11823,
   11823); (12293, 12295); (12321, 12329); (12337, 12341); (12344, 12348);
   (12353, 12438); (12445, 12447); (12449, 12538); (12540, 12543); (12549,
   12591); (12593, 12686); (12690, 12693); (12704, 12735); (12784, 12799);
   (12832, 12841); (12872, 12879); (12881, 12895); (12928, 12937); (12977,
   12991); (13312, 19903); (19968, 42124); (42192, 42237); (42240, 42508);
   (42512, 42539); (42560, 42606); (42623, 42653); (42656, 42735); (42775,
   42783); (42786, 42888); (42891, 42954); (42960, 42961); (42963, 42963);
   (42965, 42969); (42994, 43009); (43011, 43013); (43015, 43018); (43020,
   43042); (43056, 43061); (43072, 43123); (43138, 43187); (43216, 43225);
   (43250, 43255); (43259, 43259); (43261, 43262); (43264, 43301); (43312,
   43334); (43360, 43388); (43396, 43442); (43471, 43481); (43488, 43492);
   (43494, 43518); (43520, 43560); (43584, 43586); (43588, 43595); (43600,
   43609); (43616, 43638); (43642, 43642); (43646, 43695); (43697, 43697);
   (43701, 43702); (43705, 43709); (43712, 43712); (43714, 43714); (43739,
   43741); (43744, 43754); (43762, 43764); (43777, 43782); (43785, 43790);
   (43793, 43798); (43808, 43814); (43816, 43822); (43824, 43866); (43868,
   43881); (43888, 44002); (44016, 44025); (44032, 55203); (55216, 55238);
   (55243, 55291); (63744, 64109); (64112, 64217); (64256, 64262); (64275,
   64279); (64285, 64285); (64287, 64296); (64298, 64310); (64312, 64316);
   (64318, 64318); (64320, 64321); (64323, 64324); (64326, 64433); (64467,
   64829); (64848, 64911); (64914, 64967); (65008, 65019); (65136, 65140);
   (65142, 65276); (65296, 65305); (65313, 65338); (65345, 65370); (65382,
   65470); (65474, 65479); (65482, 65487); (65490, 65495); (65498, 65500);
   (65536, 65547); (65549, 65574); (65576, 65594); (65596, 65597); (65599,
   65613); (65616, 65629); (65664, 65786); (65799, 65843); (65856, 65912);
   (65930, 65931); (66176, 66204); (66208, 66256); (66273, 66299); (66304,
   66339); (66349, 66378); (66384, 66421); (66432, 66461); (66464, 66499);
   (66504, 66511); (66513, 66517); (66560, 66717); (66720, 66729); (66736,
   66771); (66776, 66811); (66816, 66855); (66864, 66915); (66928, 66938);
   (66940, 66954); (66956, 66962); (66964, 66965); (66967, 66977); (66979,
   66993); (66995, 67001); (67003, 67004); (67072, 67382); (67392, 67413);
   (67424, 67431); (67456, 67461); (67463, 67504); (67506, 67514); (67584,
   67589); (67592, 67592); (67594, 67637); (67639, 67640); (67644, 67644);
   (67647, 67669); (67672, 67702); (67705, 67742); (67751, 67759); (67808,
   67826); (67828, 67829); (67835, 67867); (67872, 67897); (67968, 68023);
   (68028, 68047); (68050, 68096); (68112, 68115); (68117, 68119); (68121,
   68149); (68160, 68168); (68192, 68222); (68224, 68255); (68288, 68295);
   (68297, 68324); (68331, 68335); (68352, 68405); (68416, 68437); (68440,
   68466); (68472, 68497); (68521, 68527); (68608, 68680); (68736, 68786);
   (68800, 68850); (68858, 68899); (68912, 68921); (69216, 69246); (69248,
   69289); (69296, 69297); (69376, 69415); (69424, 69445); (69457, 69460);
   (69488, 69505); (69552, 69579); (69600, 69622); (69635, 69687); (69714,
   69743); (69745, 69746); (69749, 69749); (69763, 69807); (69840, 69864);
   (69872, 69881); (69891, 69926); (69942, 69951); (69956, 69956); (69959,
   69959); (69968, 70002); (70006, 70006); (70019, 70066); (70081, 70084);
   (70096, 70106); (70108, 70108); (70113, 70132); (70144, 70161); (70163,
   70187); (70272, 70278); (70280, 70280); (70282, 70285); (70287, 70301);
   (70303, 70312); (70320, 70366); (70384, 70393); (70405, 70412); (70415,
   70416); (70419, 70440); (70442, 70448); (70450, 70451); (70453, 70457);
   (70461, 70461); (70480, 70480); (70493, 70497); (70656, 70708); (70727,
   70730); (70736, 70745); (70751, 70753); (70784, 70831); (70852, 70853);
   (70855, 70855); (70864, 70873); (71040, 71086); (71128, 71131); (71168,
   71215); (71236, 71236); (71248, 71257); (71296, 71338); (71352, 71352);
   (71360, 71369); (71424, 71450); (71472, 71483); (71488, 71494); (71680,
   71723); (71840, 71922); (71935, 71942); (71945, 71945); (71948, 71955);
   (71957, 71958); (71960, 71983); (71999, 71999); (72001, 72001); (72016,
   72025); (72096, 72103); (72106, 72144); (72161, 72161); (72163, 72163);
   (72192, 72192); (72203, 72242); (72250, 72250); (72272, 72272); (72284,
   72329); (72349, 72349); (72368, 72440); (72704, 72712); (72714, 72750);
   (72768, 72768); (72784, 72812); (72818, 72847); (72960, 72966); (72968,
   72969); (72971, 73008); (73030, 73030); (73040, 73049); (73056, 73061);
   (73063, 73064); (73066, 73097); (73112, 73112); (73120, 73129); (73440,
   73458); (73648, 73648); (73664, 73684); (73728, 74649); (74752, 74862);
   (74880, 75075); (77712, 77808); (77824, 78894); (82944, 83526); (92160,
   92728); (92736, 92766); (92768, 92777); (92784, 92862); (92864, 92873);
   (92880, 92909); (92928, 92975); (92992, 92995); (93008, 93017); (93019,
   93025); (93027, 93047); (93053, 93071); (93760, 93846); (93952, 94026);
   (94032, 94032); (94099, 94111); (94176, 94177); (94179, 94179); (94208,
   100343); (100352, 101589); (101632, 101640); (110576, 110579); (110581,
   110587); (110589, 110590); (110592, 110882); (110928, 110930); (110948,
   110951); (110960, 111355); (113664, 113770); (113776, 113788); (113792,
   113800); (113808, 113817); (119520, 119539); (119648, 119672); (119808,
   119892); (119894, 119964); (119966, 119967); (119970, 119970); (119973,
   119974); (119977, 119980); (119982, 119993); (119995, 119995); (119997,
   120003); (120005, 120069); (120071, 120074); (120077, 120084); (120086,
   120092); (120094, 120121); (120123, 120126); (120128, 120132); (120134,
   120134); (120138, 120144); (120146, 120485); (120488, 120512); (120514,
   120538); (120540, 120570); (120572, 120596); (120598, 120628); (120630,
   120654); (120656, 120686); (120688, 120712); (120714, 120744); (120746,
   120770); (120772, 120779); (120782, 120831); (122624, 122654); (123136,
   123180); (123191, 123197); (123200, 123209); (123214, 123214); (123536,
   123565); (123584, 123627); (123632, 123641); (124896, 124902); (124904,
   124907); (124909, 124910); (124912, 124926); (124928, 125124); (125127,
   125135); (125184, 125251); (125259, 125259); (125264, 125273); (126065,
   126123); (126125, 126127); (126129, 126132); (126209, 126253); (126255,
   126269); (126464, 126467); (126469, 126495); (126497, 126498); (126500,
   126500); (126503, 126503); (126505, 126514); (126516, 126519); (126521,
   126521); (126523, 126523); (126530, 126530); (126535, 126535); (126537,
   126537); (126539, 126539); (126541, 126543); (126545, 126546); (126548,
   126548); (126551, 126551); (126553, 126553); (126555, 126555); (126557,
   126557); (126559, 126559); (126561, 126562); (126564, 126564); (126567,
   126570); (126572, 126578); (126580, 126583); (126585, 126588); (126590,
   126590); (126592, 126601); (126603, 126619); (126625, 126627); (126629,
   126633); (126635, 126651); (127232, 127244); (130032, 130041); (131072,
   173791); (173824, 177976); (177984, 178205); (178208, 183969); (183984,
   191456); (194560, 195101); (196608, 201546)]%N.

(** [[A-Z]] *)
Definition is_upper (c : char) : bool := in_range 65 90 c.

Definition is_lower (c : char) : bool := in_range 97 122 c.

Definition lower_char (c : char) : char :=
  if is_upper c then (c + 32)%N else c.

(** The characters that [str.upper] changes into one character: the
    characters from [lo] to [hi], every [step]-th of them, are moved by
    [delta]. *)
Definition UPPER_SHIFTS : list (N * N * N * Z) :=
  [(97%N, 122%N, 1%N, (-32)%Z); (181%N, 181%N, 1%N, 743%Z); (224%N, 246%N,
   1%N, (-32)%Z); (248%N, 254%N, 1%N, (-32)%Z); (255%N, 255%N, 1%N, 121%Z);
   (257%N, 303%N, 2%N, (-1)%Z); (305%N, 305%N, 1%N, (-232)%Z); (307%N,
   311%N, 2%N, (-1)%Z); (314%N, 328%N, 2%N, (-1)%Z); (331%N, 375%N, 2%N,
   (-1)%Z); (378%N, 382%N, 2%N, (-1)%Z); (383%N, 383%N, 1%N, (-300)%Z);
   (384%N, 384%N, 1%N, 195%Z); (387%N, 389%N, 2%N, (-1)%Z); (392%N, 392%N,
   1%N, (-1)%Z); (396%N, 396%N, 1%N, (-1)%Z); (402%N, 402%N, 1%N, (-1)%Z);
   (405%N, 405%N, 1%N, 97%Z); (409%N, 409%N, 1%N, (-1)%Z); (410%N, 410%N,
   1%N, 163%Z); (414%N, 414%N, 1%N, 130%Z); (417%N, 421%N, 2%N, (-1)%Z);
   (424%N, 424%N, 1%N, (-1)%Z); (429%N, 429%N, 1%N, (-1)%Z); (432%N, 432%N,
   1%N, (-1)%Z); (436%N, 438%N, 2%N, (-1)%Z); (441%N, 441%N, 1%N, (-1)%Z);
   (445%N, 445%N, 1%N, (-1)%Z); (447%N, 447%N, 1%N, 56%Z); (453%N, 453%N,
   1%N, (-1)%Z); (454%N, 454%N, 1%N, (-2)%Z); (456%N, 456%N, 1%N, (-1)%Z);
   (457%N, 457%N, 1%N, (-2)%Z); (459%N, 459%N, 1%N, (-1)%Z); (460%N, 460%N,
   1%N, (-2)%Z); (462%N, 476%N, 2%N, (-1)%Z); (477%N, 477%N, 1%N, (-79)%Z);
   (479%N, 495%N, 2%N, (-1)%Z); (498%N, 498%N, 1%N, (-1)%Z); (499%N, 499%N,
   1%N, (-2)%Z); (501%N, 501%N, 1%N, (-1)%Z); (505%N, 543%N, 2%N, (-1)%Z);
   (547%N, 563%N, 2%N, (-1)%Z); (572%N, 572%N, 1%N, (-1)%Z); (575%N, 576%N,
   1%N, 10815%Z); (578%N, 578%N, 1%N, (-1)%Z); (583%N, 591%N, 2%N, (-1)%Z);
   (592%N, 592%N, 1%N, 10783%Z); (593%N, 593%N, 1%N, 10780%Z); (594%N,
   594%N, 1%N, 10782%Z); (595%N, 595%N, 1%N, (-210)%Z); (596%N, 596%N, 1%N,
   (-206)%Z); (598%N, 599%N, 1%N, (-205)%Z); (601%N, 601%N, 1%N, (-202)%Z);
   (603%N, 603%N, 1%N, (-203)%Z); (604%N, 604%N, 1%N, 42319%Z); (608%N,
   608%N, 1%N, (-205)%Z); (609%N, 609%N, 1%N, 42315%Z); (611%N, 611%N, 1%N,
   (-207)%Z); (613%N, 613%N, 1%N, 42280%Z); (614%N, 614%N, 1%N, 42308%Z);
   (616%N, 616%N, 1%N, (-209)%Z); (617%N, 617%N, 1%N, (-211)%Z); (618%N,
   618%N, 1%N, 42308%Z); (619%N, 619%N, 1%N, 10743%Z); (620%N, 620%N, 1%N,
   42305%Z); (623%N, 623%N, 1%N, (-211)%Z); (625%N, 625%N, 1%N, 10749%Z);
   (626%N, 626%N, 1%N, (-213)%Z); (629%N, 629%N, 1%N, (-214)%Z); (637%N,
   637%N, 1%N, 10727%Z); (640%N, 640%N, 1%N, (-218)%Z); (642%N, 642%N, 1%N,
   42307%Z); (643%N, 643%N, 1%N, (-218)%Z); (647%N, 647%N, 1%N, 42282%Z);
   (648%N, 648%N, 1%N, (-218)%Z); (649%N, 649%N, 1%N, (-69)%Z); (650%N,
   651%N, 1%N, (-217)%Z); (652%N, 652%N, 1%N, (-71)%Z); (658%N, 658%N, 1%N,
   (-219)%Z); (669%N, 669%N, 1%N, 42261%Z); (670%N, 670%N, 1%N, 42258%Z);
   (837%N, 837%N, 1%N, 84%Z); (881%N, 883%N, 2%N, (-1)%Z); (887%N, 887%N,
   1%N, (-1)%Z); (891%N, 893%N, 1%N, 130%Z); (940%N, 940%N, 1%N, (-38)%Z);
   (941%N, 943%N, 1%N, (-37)%Z); (945%N, 961%N, 1%N, (-32)%Z); (962%N,
   962%N, 1%N, (-31)%Z); (963%N, 971%N, 1%N, (-32)%Z); (972%N, 972%N, 1%N,
   (-64)%Z); (973%N, 974%N, 1%N, (-63)%Z); (976%N, 976%N, 1%N, (-62)%Z);
   (977%N, 977%N, 1%N, (-57)%Z); (981%N, 981%N, 1%N, (-47)%Z); (982%N,
   982%N, 1%N, (-54)%Z); (983%N, 983%N, 1%N, (-8)%Z); (985%N, 1007%N, 2%N,
   (-1)%Z); (1008%N, 1008%N, 1%N, (-86)%Z); (1009%N, 1009%N, 1%N, (-80)%Z);
   (1010%N, 1010%N, 1%N, 7%Z); (1011%N, 1011%N, 1%N, (-116)%Z); (1013%N,
   1013%N, 1%N, (-96)%Z); (1016%N, 1016%N, 1%N, (-1)%Z); (1019%N, 1019%N,
   1%N, (-1)%Z); (1072%N, 1103%N, 1%N, (-32)%Z); (1104%N, 1119%N, 1%N,
   (-80)%Z); (1121%N, 1153%N, 2%N, (-1)%Z); (1163%N, 1215%N, 2%N, (-1)%Z);
   (1218%N, 1230%N, 2%N, (-1)%Z); (1231%N, 1231%N, 1%N, (-15)%Z); (1233%N,
   1327%N, 2%N, (-1)%Z); (1377%N, 1414%N, 1%N, (-48)%Z); (4304%N, 4346%N,
   1%N, 3008%Z); (4349%N, 4351%N, 1%N, 3008%Z); (5112%N, 5117%N, 1%N,
   (-8)%Z); (7296%N, 7296%N, 1%N, (-6254)%Z); (7297%N, 7297%N, 1%N,
   (-6253)%Z); (7298%N, 7298%N, 1%N, (-6244)%Z); (7299%N, 7300%N, 1%N,
   (-6242)%Z); (7301%N, 7301%N, 1%N, (-6243)%Z); (7302%N, 7302%N, 1%N,
   (-6236)%Z); (7303%N, 7303%N, 1%N, (-6181)%Z); (7304%N, 7304%N, 1%N,
   35266%Z); (7545%N, 7545%N, 1%N, 35332%Z); (7549%N, 7549%N, 1%N, 3814%Z);
   (7566%N, 7566%N, 1%N, 35384%Z); (7681%N, 7829%N, 2%N, (-1)%Z); (7835%N,
   7835%N, 1%N, (-59)%Z); (7841%N, 7935%N, 2%N, (-1)%Z); (7936%N, 7943%N,
   1%N, 8%Z); (7952%N, 7957%N, 1%N, 8%Z); (7968%N, 7975%N, 1%N, 8%Z);
   (7984%N, 7991%N, 1%N, 8%Z); (8000%N, 8005%N, 1%N, 8%Z); (8017%N, 8023%N,
   2%N, 8%Z); (8032%N, 8039%N, 1%N, 8%Z); (8048%N, 8049%N, 1%N, 74%Z);
   (8050%N, 8053%N, 1%N, 86%Z); (8054%N, 8055%N, 1%N, 100%Z); (8056%N,
   8057%N, 1%N, 128%Z); (8058%N, 8059%N, 1%N, 112%Z); (8060%N, 8061%N, 1%N,
   126%Z); (8112%N, 8113%N, 1%N, 8%Z); (8126%N, 8126%N, 1%N, (-7205)%Z);
   (8144%N, 8145%N, 1%N, 8%Z); (8160%N, 8161%N, 1%N, 8%Z); (8165%N, 8165%N,
   1%N, 7%Z); (8526%N, 8526%N, 1%N, (-28)%Z); (8560%N, 8575%N, 1%N,
   (-16)%Z); (8580%N, 8580%N, 1%N, (-1)%Z); (9424%N, 9449%N, 1%N, (-26)%Z);
   (11312%N, 11359%N, 1%N, (-48)%Z); (11361%N, 11361%N, 1%N, (-1)%Z);
   (11365%N, 11365%N, 1%N, (-10795)%Z); (11366%N, 11366%N, 1%N, (-10792)%Z);
   (11368%N, 11372%N, 2%N, (-1)%Z); (11379%N, 11379%N, 1%N, (-1)%Z);
   (11382%N, 11382%N, 1%N, (-1)%Z); (11393%N, 11491%N, 2%N, (-1)%Z);
   (11500%N, 11502%N, 2%N, (-1)%Z); (11507%N, 11507%N, 1%N, (-1)%Z);
   (11520%N, 11557%N, 1%N, (-7264)%Z); (11559%N, 11559%N, 1%N, (-7264)%Z);
   (11565%N, 11565%N, 1%N, (-7264)%Z); (42561%N, 42605%N, 2%N, (-1)%Z);
   (42625%N, 42651%N, 2%N, (-1)%Z); (42787%N, 42799%N, 2%N, (-1)%Z);
   (42803%N, 42863%N, 2%N, (-1)%Z); (42874%N, 42876%N, 2%N, (-1)%Z);
   (42879%N, 42887%N, 2%N, (-1)%Z); (42892%N, 42892%N, 1%N, (-1)%Z);
   (42897%N, 42899%N, 2%N, (-1)%Z); (42900%N, 42900%N, 1%N, 48%Z); (42903%N,
   42921%N, 2%N, (-1)%Z); (42933%N, 42947%N, 2%N, (-1)%Z); (42952%N,
   42954%N, 2%N, (-1)%Z); (42961%N, 42961%N, 1%N, (-1)%Z); (42967%N,
   42969%N, 2%N, (-1)%Z); (42998%N, 42998%N, 1%N, (-1)%Z); (43859%N,
   43859%N, 1%N, (-928)%Z); (43888%N, 43967%N, 1%N, (-38864)%Z); (65345%N,
   65370%N, 1%N, (-32)%Z); (66600%N, 66639%N, 1%N, (-40)%Z); (66776%N,
   66811%N, 1%N, (-40)%Z); (66967%N, 67003%N, 2%N, (-39)%Z); (66968%N,
   66976%N, 2%N, (-39)%Z); (66980%N, 66992%N, 2%N, (-39)%Z); (66996%N,
   67000%N, 2%N, (-39)%Z); (67004%N, 67004%N, 1%N, (-39)%Z); (68800%N,
   68850%N, 1%N, (-64)%Z); (71872%N, 71903%N, 1%N, (-32)%Z); (93792%N,
   93823%N, 1%N, (-32)%Z); (125218%N, 125251%N, 1%N, (-34)%Z)].

(** The characters that [str.upper] changes into several characters. *)
Definition UPPER_SPECIAL : list (N * list N) :=
  [(223, [83; 83]); (329, [700; 78]); (496, [74; 780]); (912, [921; 776;
   769]); (944, [933; 776; 769]); (1415, [1333; 1362]); (7830, [72; 817]);
   (7831, [84; 776]); (7832, [87; 778]); (7833, [89; 778]); (7834, [65;
   702]); (8016, [933; 787]); (8018, [933; 787; 768]); (8020, [933; 787;
   769]); (8022, [933; 787; 834]); (8064, [7944; 921]); (8065, [7945; 921]);
   (8066, [7946; 921]); (8067, [7947; 921]); (8068, [7948; 921]); (8069,
   [7949; 921]); (8070, [7950; 921]); (8071, [7951; 921]); (8072, [7944;
   921]); (8073, [7945; 921]); (8074, [7946; 921]); (8075, [7947; 921]);
   (8076, [7948; 921]); (8077, [7949; 921]); (8078, [7950; 921]); (8079,
   [7951; 921]); (8080, [7976; 921]); (8081, [7977; 921]); (8082, [7978;
   921]); (8083, [7979; 921]); (8084, [7980; 921]); (8085, [7981; 921]);
   (8086, [7982; 921]); (8087, [7983; 921]); (8088, [7976; 921]); (8089,
   [7977; 921]); (8090, [7978; 921]); (8091, [7979; 921]); (8092, [7980;
   921]); (8093, [7981; 921]); (8094, [7982; 921]); (8095, [7983; 921]);
   (8096, [8040; 921]); (8097, [8041; 921]); (8098, [8042; 921]); (8099,
   [8043; 921]); (8100, [8044; 921]); (8101, [8045; 921]); (8102, [8046;
   921]); (8103, [8047; 921]); (8104, [8040; 921]); (8105, [8041; 921]);
   (8106, [8042; 921]); (8107, [8043; 921]); (8108, [8044; 921]); (8109,
   [8045; 921]); (8110, [8046; 921]); (8111, [8047; 921]); (8114, [8122;
   921]); (8115, [913; 921]); (8116, [902; 921]); (8118, [913; 834]); (8119,
   [913; 834; 921]); (8124, [913; 921]); (8130, [8138; 921]); (8131, [919;
   921]); (8132, [905; 921]); (8134, [919; 834]); (8135, [919; 834; 921]);
   (8140, [919; 921]); (8146, [921; 776; 768]); (8147, [921; 776; 769]);
   (8150, [921; 834]); (8151, [921; 776; 834]); (8162, [933; 776; 768]);
   (8163, [933; 776; 769]); (8164, [929; 787]); (8166, [933; 834]); (8167,
   [933; 776; 834]); (8178, [8186; 921]); (8179, [937; 921]); (8180, [911;
   921]); (8182, [937; 834]); (8183, [937; 834; 921]); (8188, [937; 921]);
   (64256, [70; 70]); (64257, [70; 73]); (64258, [70; 76]); (64259, [70; 70;
   73]); (64260, [70; 70; 76]); (64261, [83; 84]); (64262, [83; 84]);
   (64275, [1348; 1350]); (64276, [1348; 1333]); (64277, [1348; 1339]);
   (64278, [1358; 1350]); (64279, [1348; 1341])]%N.

(** [c.upper()] *)
Definition upper_char (c : char) : text :=
  match find (fun e : N * list N => (fst e =? c)%N) UPPER_SPECIAL with
  | Some (_, u) => u
  | None =>
      match find (fun e : N * N * N * Z =>
                    let '(lo, hi, step, _) := e in
                    in_range lo hi c && ((c - lo) mod step =? 0)%N)
                 UPPER_SHIFTS with
      | Some (_, _, _, delta) => [Z.to_N (Z.of_N c + delta)]
      | None => [c]
      end
  end.

(** [s.upper()] *)
Definition upper (s : text) : text := flat_map upper_char s.

(** *** String operations *)

Definition text_eqb (a b : text) : bool :=
  if list_eq_dec N.eq_dec a b then true else false.

(** [s.startswith(p)] *)
Fixpoint startswith (s p : text) : bool :=
  match p, s with
  | [], _ => true
  | _ :: _, [] => false
  | a :: p', b :: s' => (a =? b)%N && startswith s' p'
  end.

(** [p in s] for strings: [p] occurs in [s] as a contiguous substring. *)
Fixpoint contains (s p : text) : bool :=
  startswith s p ||
  match s with
  | [] => false
  | _ :: s' => contains s' p
  end.

(** [s.lstrip()] *)
Fixpoint lstrip (s : text) : text :=
  match s with
  | c :: s' => if is_space c then lstrip s' else s
  | [] => []
  end.

(** [s.strip()] *)
Definition strip (s : text) : text := rev (lstrip (rev (lstrip s))).

(** [s.split()]: the maximal runs of non-space characters; [cur] is the
    run being read, reversed. *)
Fixpoint split_ws_aux (s : text) (cur : text) : list text :=
  match s with
  | [] => match cur with [] => [] | _ => [rev cur] end
  | c :: s' =>
      if is_space c
      then match cur with
           | [] => split_ws_aux s' []
           | _ => rev cur :: split_ws_aux s' []
           end
      else split_ws_aux s' (c :: cur)
  end.

Definition split_ws (s : text) : list text := split_ws_aux s [].

(** [' '.join(l)] *)
Fixpoint join_space (l : list text) : text :=
  match l with
  | [] => []
  | [w] => w
  | w :: l' => w ++ 32%N :: join_space l'
  end.

(** [s.replace(',', '')] *)
Definition remove_commas (s : text) : text :=
  filter (fun c => negb (c =? 44)%N) s.

(** *** Slices *)

(** An index of a slice, as Python normalises it for a sequence of length
    [len]: negative indices count from the end, and all are clamped. *)
Definition slice_index (len i : Z) : Z :=
  if (i <? 0)%Z then Z.max 0 (len + i) else Z.min i len.

(** [s[a:b]]; [b = None] is [s[a:]]. *)
Definition slice (s : text) (a : Z) (b : option Z) : text :=
  let len := Z.of_nat (length s) in
  let a' := slice_index len a in
  let b' := match b with Some b => slice_index len b | None => len end in
  firstn (Z.to_nat (b' - a')) (skipn (Z.to_nat a') s).

(** [s[a:b]] for offsets that are natural numbers. *)
Definition slice_nat (s : text) (a b : nat) : text :=
  firstn (b - a) (skipn a s).

(** *** [set] *)

(** [set(l)] for a list of strings: each distinct string once. The source
    only counts and sums over its sets, so their iteration order is
    immaterial. *)
Definition set_of (l : list text) : list text :=
  nodup (list_eq_dec N.eq_dec) l.

Definition mem (x : text) (l : list text) : bool :=
  existsb (text_eqb x) l.

(** ** Regular expressions *)

(** The fragment of Python's [re] syntax that the source uses. A
    repetition is always over a character class. *)
Inductive regex :=
| REps
| RSet (p : char -> bool)
| RBol
| RRep (greedy : bool) (lo : nat) (hi : option nat) (p : char -> bool)
| RCat (r1 r2 : regex)
| RGroup (r : regex).

(** A literal character. *)
Definition RChar (c : char) : regex := RSet (N.eqb c).

(** A literal string. *)
Fixpoint RLit (s : text) : regex :=
  match s with
  | [] => REps
  | c :: s' => RCat (RChar c) (RLit s')
  end.

(** A literal character under [re.IGNORECASE]: either case of an ASCII
    letter, and the non-ASCII characters that Python folds onto [i], [k]
    and [s]. *)
Definition ieq (c x : char) : bool :=
  (lower_char x =? lower_char c)%N
  || ((lower_char c =? 105)%N && ((x =? 304)%N || (x =? 305)%N))
  || ((lower_char c =? 107)%N && (x =? 8490)%N)
  || ((lower_char c =? 115)%N && (x =? 383)%N).

Fixpoint RLitI (s : text) : regex :=
  match s with
  | [] => REps
  | c :: s' => RCat (RSet (ieq c)) (RLitI s')
  end.

Definition hi_allows (hi : option nat) : bool :=
  match hi with Some 0 => false | _ => true end.

Section Matcher.
Variable R : Type.

(** The continuation of a match: the character before the current
    position, the rest of the input, the current offset. *)
Definition cont := option char -> text -> nat -> option R.

(** [p{lo,hi}] (greedy) or [p{lo,hi}?] (lazy), then [k], backtracking over
    the number of repetitions. *)
Fixpoint rrep (greedy : bool) (p : char -> bool) (lo : nat) (hi : option nat)
    (prev : option char) (s : text) (pos : nat) (k : cont) {struct s}
    : option R :=
  let more :=
    match s with
    | c :: s' =>
        if p c && hi_allows hi
        then rrep greedy p (pred lo) (option_map pred hi) (Some c) s' (S pos) k
        else None
    | [] => None
    end in
  match lo with
  | S _ => more
  | 0 =>
      if greedy
      then match more with Some x => Some x | None => k prev s pos end
      else match k prev s pos with Some x => Some x | None => more end
  end.

(** The continuation also carries the span of group 1, once it is closed. *)
Definition gcont := option char -> text -> nat -> option (nat * nat) -> option R.

Fixpoint rmatch (r : regex) (prev : option char) (s : text) (pos : nat)
    (g : option (nat * nat)) (k : gcont) : option R :=
  match r with
  | REps => k prev s pos g
  | RSet p =>
      match s with
      | c :: s' => if p c then k (Some c) s' (S pos) g else None
      | [] => None
      end
  | RBol =>
      match prev with
      | None => k prev s pos g
      | Some c => if (c =? 10)%N then k prev s pos g else None
      end
  | RRep greedy lo hi p =>
      rrep greedy p lo hi prev s pos (fun prev' s' pos' => k prev' s' pos' g)
  | RCat r1 r2 =>
      rmatch r1 prev s pos g (fun prev' s' pos' g' => rmatch r2 prev' s' pos' g' k)
  | RGroup r1 =>
      rmatch r1 prev s pos g (fun prev' s' pos' _ => k prev' s' pos' (Some (pos, pos')))
  end.

End Matcher.

(** A match object: [m.start()], [m.end()] and the span of group 1. *)
Record rmatch_obj := mkMatch {
  m_start : nat;
  m_end : nat;
  m_group : option (nat * nat)
}.

(** [pattern.match] at offset [pos], where [s] is the input from [pos] on
    and [prev] the character before it. *)
Definition match_at (r : regex) (prev : option char) (s : text) (pos : nat)
    : option rmatch_obj :=
  rmatch r prev s pos None
    (fun _ _ e g => Some {| m_start := pos; m_end := e; m_group := g |}).

(** The leftmost match at or after [pos]: [pattern.search]. *)
Fixpoint search_from (r : regex) (prev : option char) (s : text) (pos : nat)
    : option rmatch_obj :=
  match match_at r prev s pos with
  | Some m => Some m
  | None =>
      match s with
      | [] => None
      | c :: s' => search_from r (Some c) s' (S pos)
      end
  end.

(** [re.search(r, s)] *)
Definition re_search (r : regex) (s : text) : option rmatch_obj :=
  search_from r None s 0.

(** The character before offset [n] of [s], when [n] is not 0. *)
Definition char_before (prev : option char) (s : text) (n : nat) : option char :=
  match n with
  | 0 => prev
  | S n' => nth_error s n'
  end.

(** The successive non-overlapping matches from [pos] on. The patterns of
    the source match no empty string; the scan resumes at the end of each
    match, and one character further after an empty one. *)
Fixpoint finditer_from (fuel : nat) (r : regex) (prev : option char)
    (s : text) (pos : nat) : list rmatch_obj :=
  match fuel with
  | 0 => []
  | S fuel' =>
      match search_from r prev s pos with
      | None => []
      | Some m =>
          let n := Nat.max (m_end m) (S (m_start m)) - pos in
          m :: finditer_from fuel' r (char_before prev s n) (skipn n s) (pos + n)
      end
  end.

(** [list(re.finditer(r, s))] *)
Definition re_finditer (r : regex) (s : text) : list rmatch_obj :=
  finditer_from (S (length s)) r None s 0.

(** [m.group(1)] *)
Definition group1 (s : text) (m : rmatch_obj) : text :=
  match m_group m with
  | Some (a, b) => slice_nat s a b
  | None => []
  end.

(** The pieces of [s] between the matches [ms], from offset [from] on. *)
Fixpoint pieces (s : text) (from : nat) (ms : list rmatch_obj) : list text :=
  match ms with
  | [] => [slice_nat s from (length s)]
  | m :: ms' => slice_nat s from (m_start m) :: pieces s (m_end m) ms'
  end.

(** [re.split(r, s)] for a pattern without groups. *)
Definition re_split (r : regex) (s : text) : list text :=
  pieces s 0 (re_finditer r s).

(** ** Records of the data model *)

(** A statement transaction: the dict [{'date', 'merchant', 'amount'}] built
    by [extract_transactions_for_name]. *)
Record Transaction := mkTransaction {
  txn_date : text;
  txn_merchant : text;
  txn_amount : float
}.

(** A spreadsheet record: the dict [{'date', 'amount'}] built by
    [read_excel_transactions]. *)
Record TableRecord := mkTableRecord {
  rec_date : text;
  rec_amount : float
}.

(** ** Reconciler: [match_transactions] *)

(** [amt - 0.50 <= t['amount'] <= amt + 0.50], in binary64 arithmetic. *)
Definition within_tolerance (amt t : float) : bool :=
  (PrimFloat.leb (PrimFloat.sub amt 0.5%float) t)
  && (PrimFloat.leb t (PrimFloat.add amt 0.5%float)).

(** [next((i for i, x in enumerate(l) if p x), None)] *)
Fixpoint first_index {A} (p : A -> bool) (l : list A) : option nat :=
  match l with
  | [] => None
  | x :: l' => if p x then Some 0
               else option_map S (first_index p l')
  end.

(** [l.pop(idx)] for an index in range: the list without its [idx]-th item. *)
Fixpoint pop {A} (idx : nat) (l : list A) : list A :=
  match l, idx with
  | [], _ => []
  | _ :: l', 0 => l'
  | x :: l', S i => x :: pop i l'
  end.

(** The three local variables of the loop. *)
Record match_state := mkMatchState {
  available : list float;
  matched : nat;
  missing : list Transaction
}.

Definition match_init (excel_txns : list TableRecord) : match_state :=
  {| available := List.map rec_amount excel_txns; matched := 0; missing := [] |}.

(** One iteration of [for t in pdf_txns]. *)
Definition match_step (st : match_state) (t : Transaction) : match_state :=
  match first_index (fun amt => within_tolerance amt (txn_amount t))
                    (available st) with
  | Some idx =>
      {| available := pop idx (available st);
         matched := S (matched st);
         missing := missing st |}
  | None =>
      {| available := available st;
         matched := matched st;
         missing := missing st ++ [t] |}
  end.

Definition match_loop (pdf_txns : list Transaction) (st : match_state) : match_state :=
  fold_left match_step pdf_txns st.

Definition match_transactions (pdf_txns : list Transaction)
    (excel_txns : list TableRecord) : nat * list Transaction :=
  let st := match_loop pdf_txns (match_init excel_txns) in
  (matched st, missing st).

(** *** Ghost instrumentation: the pool with the original index of each
    amount, and the list of indices consumed so far. *)

Fixpoint enumerate_from {A} (i : nat) (l : list A) : list (nat * A) :=
  match l with
  | [] => []
  | x :: l' => (i, x) :: enumerate_from (S i) l'
  end.

Record gstate := mkGState {
  g_pool : list (nat * float);
  g_consumed : list nat;
  g_missing : list Transaction
}.

Definition g_init (excel_txns : list TableRecord) : gstate :=
  {| g_pool := enumerate_from 0 (List.map rec_amount excel_txns);
     g_consumed := []; g_missing := [] |}.

Definition g_step (st : gstate) (t : Transaction) : gstate :=
  match first_index (fun p => within_tolerance (snd p) (txn_amount t))
                    (g_pool st) with
  | Some idx =>
      {| g_pool := pop idx (g_pool st);
         g_consumed := g_consumed st ++ List.map fst (firstn 1 (skipn idx (g_pool st)));
         g_missing := g_missing st |}
  | None =>
      {| g_pool := g_pool st;
         g_consumed := g_consumed st;
         g_missing := g_missing st ++ [t] |}
  end.

Definition g_loop (pdf_txns : list Transaction) (st : gstate) : gstate :=
  fold_left g_step pdf_txns st.

(** The concrete state a ghost state stands for. *)
Definition erase (st : gstate) : match_state :=
  {| available := List.map snd (g_pool st);
     matched := length (g_consumed st);
     missing := g_missing st |}.

(** ** Calendar dates: [datetime.date] *)

Local Open Scope Z_scope.

Record date := mkDate { year : Z; month : Z; day : Z }.

Definition is_leap (y : Z) : bool :=
  (y mod 4 =? 0) && (negb (y mod 100 =? 0) || (y mod 400 =? 0)).

Definition days_before_year (y : Z) : Z :=
  let y := y - 1 in
  y * 365 + y / 4 - y / 100 + y / 400.

Definition DAYS_IN_MONTH : list Z :=
  [-1; 31; 28; 31; 30; 31; 30; 31; 31; 30; 31; 30; 31].

Definition DAYS_BEFORE_MONTH : list Z :=
  [-1; 0; 31; 59; 90; 120; 151; 181; 212; 243; 273; 304; 334].

Definition days_in_month (y m : Z) : Z :=
  if (m =? 2) && is_leap y then 29
  else nth (Z.to_nat m) DAYS_IN_MONTH 0.

Definition days_before_month (y m : Z) : Z :=
  nth (Z.to_nat m) DAYS_BEFORE_MONTH 0
  + (if (2 <? m) && is_leap y then 1 else 0).

(** [d.toordinal()] *)
Definition ymd2ord (d : date) : Z :=
  days_before_year (year d) + days_before_month (year d) (month d) + day d.

Definition DI400Y : Z := Eval cbv in days_before_year 401.
Definition DI100Y : Z := Eval cbv in days_before_year 101.
Definition DI4Y : Z := Eval cbv in days_before_year 5.

(** [date.fromordinal(n)] *)
Definition ord2ymd (n : Z) : date :=
  let n := n - 1 in
  let n400 := n / DI400Y in
  let n := n mod DI400Y in
  let y := n400 * 400 + 1 in
  let n100 := n / DI100Y in
  let n := n mod DI100Y in
  let n4 := n / DI4Y in
  let n := n mod DI4Y in
  let n1 := n / 365 in
  let n := n mod 365 in
  let y := y + n100 * 100 + n4 * 4 + n1 in
  if (n1 =? 4) || (n100 =? 4) then mkDate (y - 1) 12 31
  else
    let leapyear := (n1 =? 3) && (negb (n4 =? 24) || (n100 =? 3)) in
    let m := Z.shiftr (n + 50) 5 in
    let preceding :=
      nth (Z.to_nat m) DAYS_BEFORE_MONTH 0
      + (if (2 <? m) && leapyear then 1 else 0) in
    if n <? preceding
    then
      let m := m - 1 in
      let preceding :=
        preceding - (nth (Z.to_nat m) DAYS_IN_MONTH 0
                     + (if (m =? 2) && leapyear then 1 else 0)) in
      mkDate y m (n - preceding + 1)
    else mkDate y m (n - preceding + 1).

(** [d - timedelta(days=n)], for a result within the range of [date]. *)
Definition date_minus_days (d : date) (n : Z) : date :=
  ord2ymd (ymd2ord d - n).

(** [int(s)] for a string of ASCII digits. *)
Definition int_of_digits (s : text) : Z :=
  fold_left (fun acc c => 10 * acc + (Z.of_N c - 48)) s 0.

(** [int(s)] for a string of decimal digits. *)
Definition int_of_decimals (s : text) : Z :=
  fold_left (fun acc c => 10 * acc + decimal_value c) s 0.

(** The directive [%m] on two digits: [strptime] reads it with the
    expression [1[0-2]|0[1-9]|[1-9]], whose last alternative takes one
    character only. *)
Definition month_directive (s : text) : bool :=
  match s with
  | [a; b] =>
      ((a =? 49)%N && in_range 48 50 b) || ((a =? 48)%N && in_range 49 57 b)
  | _ => false
  end.

(** The directive [%d] on two digits: [3[0-1]|[1-2]\d|0[1-9]|[1-9]| [1-9]],
    whose last two alternatives take no two digits. *)
Definition day_directive (s : text) : bool :=
  match s with
  | [a; b] =>
      ((a =? 51)%N && in_range 48 49 b) || (in_range 49 50 a && is_decimal b)
      || ((a =? 48)%N && in_range 49 57 b)
  | _ => false
  end.

(** [datetime.strptime(s, "%m/%d/%y").date()] for a string [s] that
    [\d{2}/\d{2}/\d{2}] has matched (two decimal digits, three times):
    [None] when [strptime] raises [ValueError], because the month or the
    day is not as its directive wants it (the directive [%y] is [\d\d]),
    or because the month has no such day. A two-digit year up to 68 is in
    the 2000s, from 69 on in the 1900s. *)
Definition strptime_mdy (s : text) : option date :=
  let mm := slice_nat s 0 2 in
  let dd := slice_nat s 3 5 in
  let m := int_of_decimals mm in
  let d := int_of_decimals dd in
  let yy := int_of_decimals (slice_nat s 6 8) in
  let y := if yy <=? 68 then 2000 + yy else 1900 + yy in
  if month_directive mm && day_directive dd && (d <=? days_in_month y m)
  then Some (mkDate y m d)
  else None.

(** ** PeriodExtractor: [parse_statement_period] *)

(** [\d{2}/\d{2}/\d{2}] *)
Definition date_re : regex :=
  RCat (RRep true 2 (Some 2%nat) is_decimal)
    (RCat (RChar 47)
       (RCat (RRep true 2 (Some 2%nat) is_decimal)
          (RCat (RChar 47) (RRep true 2 (Some 2%nat) is_decimal)))).

(** [Closing Date\s*(\d{2}/\d{2}/\d{2})] *)
Definition closing_date_re : regex :=
  RCat (RLit (str "Closing Date"))
    (RCat (RRep true 0 None is_space) (RGroup date_re)).

(** The two ways in which [parse_statement_period] raises [ValueError]: its
    own [raise] when the search finds nothing, and the one of [strptime]. *)
Inductive period_error :=
| ClosingDateNotFound
| InvalidDate (s : text).

Definition parse_statement_period (pdf_text : text)
    : period_error + (date * date) :=
  match re_search closing_date_re pdf_text with
  | None => inl ClosingDateNotFound
  | Some m =>
      match strptime_mdy (group1 pdf_text m) with
      | None => inl (InvalidDate (group1 pdf_text m))
      | Some e => inr (date_minus_days e 30, e)
      end
  end.

(** ** SectionLocator: [find_cardholder_sections] *)

(** [[A-Z ]] *)
Definition is_upper_or_blank (c : char) : bool := is_upper c || (c =? 32)%N.

(** [([A-Z][A-Z ]{1,80}?)\s+Card Ending] *)
Definition section_re : regex :=
  RCat (RGroup (RCat (RSet is_upper) (RRep false 1 (Some 80%nat) is_upper_or_blank)))
    (RCat (RRep true 1 None is_space) (RLit (str "Card Ending"))).

(** [sorted(l, key=lambda x: x[1])]: a stable sort by offset (of items
    with the same offset, the one that came first stays first). *)
Fixpoint insert_by_offset {A} (x : A * Z) (l : list (A * Z)) : list (A * Z) :=
  match l with
  | [] => [x]
  | y :: l' => if snd x <=? snd y then x :: l else y :: insert_by_offset x l'
  end.

Definition sorted_by_offset {A} (l : list (A * Z)) : list (A * Z) :=
  fold_right insert_by_offset [] l.

Definition find_cardholder_sections (pdf_text : text) : list (text * Z) :=
  sorted_by_offset
    (List.map (fun m => (strip (group1 pdf_text m), Z.of_nat (m_start m)))
       (re_finditer section_re pdf_text)).

(** ** NameResolver: [select_target_section_name] *)

Local Open Scope nat_scope.

(** An entry of [available_norm]. *)
Record norm_item := mkItem {
  original : text;
  normalized : text;
  item_pos : Z
}.

(** The first loop: [inl name] when it returns the exactly matching
    [name], otherwise [inr available_norm]. *)
Fixpoint normalize_available (target_norm : text) (available : list (text * Z))
    : text + list norm_item :=
  match available with
  | [] => inr []
  | (name, pos) :: rest =>
      let name_norm := upper (strip name) in
      if text_eqb name_norm target_norm then inl name
      else
        match normalize_available target_norm rest with
        | inl found => inl found
        | inr items => inr (mkItem name name_norm pos :: items)
        end
  end.

(** [len(a.intersection(b))] *)
Definition common_tokens (a b : list text) : nat :=
  length (filter (fun t => mem t b) a).

(** [t_token.startswith(n_token) or n_token.startswith(t_token)] *)
Definition prefix_related (t_token n_token : text) : bool :=
  startswith t_token n_token || startswith n_token t_token.

(** The two nested [for] loops over the token sets, adding 2 to [score]
    for each related pair. *)
Definition prefix_loop (target_tokens name_tokens : list text) (score : nat) : nat :=
  fold_left
    (fun score t_token =>
       fold_left
         (fun score n_token =>
            if prefix_related t_token n_token then score + 2 else score)
         name_tokens score)
    target_tokens score.

(** The score of one section name. *)
Definition score_of (target_norm : text) (target_tokens : list text)
    (name_norm : text) : nat :=
  let name_tokens := set_of (split_ws name_norm) in
  let score := 0 in
  let score := score + common_tokens target_tokens name_tokens * 10 in
  let score :=
    if contains name_norm target_norm || contains target_norm name_norm
    then score + 5 else score in
  prefix_loop target_tokens name_tokens score.

(** The second loop: the list [candidates]. *)
Fixpoint score_candidates (target_norm : text) (target_tokens : list text)
    (items : list norm_item) : list (nat * text) :=
  match items with
  | [] => []
  | item :: rest =>
      let score := score_of target_norm target_tokens (normalized item) in
      if 0 <? score
      then (score, original item) :: score_candidates target_norm target_tokens rest
      else score_candidates target_norm target_tokens rest
  end.

(** [max(l, key=lambda x: x[0])] on [best :: l]: the first element with the
    greatest score. *)
Fixpoint max_by_score (best : nat * text) (l : list (nat * text)) : nat * text :=
  match l with
  | [] => best
  | c :: l' => if fst best <? fst c then max_by_score c l' else max_by_score best l'
  end.

Definition select_target_section_name (target : text)
    (available : list (text * Z)) : option text :=
  let target_norm := upper target in
  let target_tokens := set_of (split_ws target_norm) in
  match normalize_available target_norm available with
  | inl name => Some name
  | inr available_norm =>
      match score_candidates target_norm target_tokens available_norm with
      | c :: candidates => Some (snd (max_by_score c candidates))
      | [] =>
          match available with
          | (name, _) :: _ => Some name
          | [] => None
          end
      end
  end.

(** ** TransactionExtractor: [extract_transactions_for_name] *)

(** [float(s)] for a numeral [s] made of digits, a point and two digits:
    the binary64 number nearest to [c / 100], where [c] is the number that
    the digits of [s] write. The quotient is taken with enough bits and a
    sticky bit, then rounded once. *)
Definition float_of_cents (c : Z) : float :=
  if (c <=? 0)%Z then 0%float
  else
    let k := Z.max 0 (62 - Z.log2 c) in
    let n := Z.shiftl c k in
    let q := (n / 100)%Z in
    let sticky := if (n mod 100 =? 0)%Z then 0%Z else 1%Z in
    FloatOps.SF2Prim
      (SpecFloat.binary_normalize FloatOps.prec FloatOps.emax
         (2 * q + sticky) (- k - 1) false).

Definition float_of_numeral (s : text) : float :=
  float_of_cents (int_of_digits (filter is_digit s)).

(** [next((pos for name, pos in sections if name == target_name), None)] *)
Fixpoint lookup_pos (target_name : text) (sections : list (text * Z)) : option Z :=
  match sections with
  | [] => None
  | (name, pos) :: rest =>
      if text_eqb name target_name then Some pos else lookup_pos target_name rest
  end.

(** [sorted(l)] for a list of integers. *)
Fixpoint insert_Z (x : Z) (l : list Z) : list Z :=
  match l with
  | [] => [x]
  | y :: l' => if (x <=? y)%Z then x :: l else y :: insert_Z x l'
  end.

Definition sorted_Z (l : list Z) : list Z := fold_right insert_Z [] l.

(** [min(l)] on [x :: l]. *)
Definition min_list (x : Z) (l : list Z) : Z := fold_left Z.min l x.

Definition summary_keywords : list text :=
  [str "FEES"; str "INTEREST CHARGED"; str "ACCOUNT SUMMARY";
   str "PAYMENT INFORMATION"; str "LATE FEE"; str "TOTAL CREDIT";
   str "TOTAL DEBIT"; str "ABOUT TRAILING INTEREST"].

(** [r"^\s*" + re.escape(keyword)] under [re.IGNORECASE | re.MULTILINE] *)
Definition keyword_re (keyword : text) : regex :=
  RCat RBol (RCat (RRep true 0 None is_space) (RLitI keyword)).

(** One iteration of [for keyword in summary_keywords]. *)
Definition summary_step (text_after_target : text) (target_pos : Z)
    (summary_pos : Z) (keyword : text) : Z :=
  match re_search (keyword_re keyword) text_after_target with
  | Some m =>
      let actual_pos := (target_pos + Z.of_nat (m_start m))%Z in
      if (summary_pos =? -1)%Z || (actual_pos <? summary_pos)%Z
      then actual_pos else summary_pos
  | None => summary_pos
  end.

(** The value of [summary_pos] after the loop. *)
Definition find_summary_pos (pdf_text : text) (target_pos : Z) : Z :=
  fold_left (summary_step (slice pdf_text target_pos None) target_pos)
    summary_keywords (-1)%Z.

(** [next((p for p in positions if p > target_pos), None)] *)
Definition find_next_cardholder_pos (sections : list (text * Z)) (target_pos : Z)
    : option Z :=
  find (fun p => (target_pos <? p)%Z) (sorted_Z (List.map snd sections)).

Definition option_to_list {A} (o : option A) : list A :=
  match o with Some x => [x] | None => [] end.

(** [next_pos]: the end of the section that starts at [target_pos]. *)
Definition section_end (pdf_text : text) (sections : list (text * Z))
    (target_pos : Z) : Z :=
  let next_cardholder_pos := find_next_cardholder_pos sections target_pos in
  let summary_pos := find_summary_pos pdf_text target_pos in
  let end_positions :=
    filter (fun pos => (target_pos <? pos)%Z)
      (option_to_list next_cardholder_pos ++ [summary_pos]) in
  match end_positions with
  | p :: ps => min_list p ps
  | [] => Z.of_nat (length pdf_text)
  end.

(** The delimiter glyphs and the vertical bar. *)
Definition is_delimiter (c : char) : bool :=
  existsb (N.eqb c)
    [9674; 11047; 11045; 9670; 9671; 10731; 11046; 11049; 124; 10731]%N.

Definition delimiter_re : regex := RRep true 1 None is_delimiter.

(** [(\d{2}/\d{2}/\d{2})] *)
Definition date_group_re : regex := RGroup date_re.

(** [[0-9,]] *)
Definition is_digit_or_comma (c : char) : bool := is_digit c || (c =? 44)%N.

(** [\$([0-9,]+\.[0-9]{2})] *)
Definition amount_re : regex :=
  RCat (RChar 36)
    (RGroup (RCat (RRep true 1 None is_digit_or_comma)
               (RCat (RChar 46) (RRep true 2 (Some 2) is_digit)))).

(** [l[-1]] when [l] is not empty. *)
Definition last_opt {A} (l : list A) : option A :=
  match rev l with x :: _ => Some x | [] => None end.

(** The body of [for chunk in re.split(...)]: the transaction appended for
    [chunk], if any. *)
Definition chunk_transaction (chunk : text) : option Transaction :=
  let ch := join_space (split_ws chunk) in
  let m_date := re_search date_group_re ch in
  let m_amt := re_finditer amount_re ch in
  match m_date, last_opt m_amt with
  | Some md, Some ma =>
      let merchant := strip (slice_nat ch (m_end md) (m_start ma)) in
      if negb (startswith (upper merchant) (str "CARD ENDING"))
      then Some {| txn_date := group1 ch md;
                   txn_merchant := merchant;
                   txn_amount := float_of_numeral (remove_commas (group1 ch ma)) |}
      else None
  | _, _ => None
  end.

Definition extract_transactions_for_name (pdf_text target_name : text)
    (sections : list (text * Z)) : list Transaction :=
  match lookup_pos target_name sections with
  | None => []
  | Some target_pos =>
      if (target_pos =? 0)%Z then []
      else
        let next_pos := section_end pdf_text sections target_pos in
        let section_text := slice pdf_text target_pos (Some next_pos) in
        flat_map (fun chunk => option_to_list (chunk_transaction chunk))
          (re_split delimiter_re section_text)
  end.

(** ** Dates as text *)

(** [f"{n:02d}"] for [0 <= n <= 99], as [strftime] writes a month, a day
    or a year without its century. *)
Definition two_digits (n : Z) : text :=
  [Z.to_N (48 + n / 10); Z.to_N (48 + n mod 10)]%Z.

(** [d.strftime('%m/%d/%y')] *)
Definition strftime_mdy (d : date) : text :=
  two_digits (month d) ++ [47%N] ++ two_digits (day d) ++ [47%N]
  ++ two_digits (year d mod 100)%Z.

(** ** Substitution: [re.sub] *)

(** A pattern as the scan of [re.sub] uses it: after the character [prev],
    the length of the match of the pattern at the start of [s], if it
    matches there. *)
Definition matcher := option char -> text -> option nat.

(** The matcher of a regular expression. *)
Definition regex_matcher (r : regex) : matcher :=
  fun prev s => option_map m_end (match_at r prev s 0).

(** [re.sub(pattern, repl, s)] for a pattern that matches no empty string,
    as the patterns of the source do. The scan goes from left to right:
    where the pattern matches, [repl] of the matched text is written and
    the scan resumes after the match ([skip] counts the characters of the
    match still to pass); elsewhere the character is copied. *)
Fixpoint sub_from (m : matcher) (repl : text -> text) (prev : option char)
    (s : text) (skip : nat) : text :=
  match s with
  | [] => []
  | c :: s' =>
      match skip with
      | S k => sub_from m repl (Some c) s' k
      | 0 =>
          match m prev s with
          | Some (S k) => repl (firstn (S k) s) ++ sub_from m repl (Some c) s' k
          | _ => c :: sub_from m repl (Some c) s' 0
          end
      end
  end.

Definition re_sub (m : matcher) (repl : text -> text) (s : text) : text :=
  sub_from m repl None s 0.

(** ** Text of the statement: [read_pdf_text] *)

(** [[\t\r\u00a0]] *)
Definition is_tab_cr_nbsp (c : char) : bool :=
  (c =? 9)%N || (c =? 13)%N || (c =? 160)%N.

(** The value that [read_pdf_text] returns, for the text [decoded] that
    the PDF library (or, when it fails, the reading of the raw bytes)
    gives: [re.sub(r" +", " ", re.sub(r"[\t\r\u00a0]+", " ", text))]. *)
Definition read_pdf_text (decoded : text) : text :=
  re_sub (regex_matcher (RRep true 1 None (N.eqb 32))) (fun _ => str " ")
    (re_sub (regex_matcher (RRep true 1 None is_tab_cr_nbsp)) (fun _ => str " ")
       decoded).

(** ** Upload validation: [allowed_file] *)

(** [s.lower()], on the ASCII range. The source compares the result with
    the ASCII words [pdf], [xlsx] and [xls]: outside the ASCII range only
    U+0130 and U+212A have an ASCII letter in their lower case, [i] and
    [k], which these words do not hold, so the comparison is that of the
    source. *)
Definition lower (s : text) : text := List.map lower_char s.

(** [s.rsplit(sep, 1)] when [sep in s]: the text before the last [sep] and
    the text after it; [None] when [sep] does not occur in [s]. *)
Fixpoint rsplit1 (sep : char) (s : text) : option (text * text) :=
  match s with
  | [] => None
  | c :: s' =>
      match rsplit1 sep s' with
      | Some (before, after) => Some (c :: before, after)
      | None => if (c =? sep)%N then Some ([], s') else None
      end
  end.

(** [app.config['ALLOWED_EXTENSIONS_PDF']] and
    [app.config['ALLOWED_EXTENSIONS_EXCEL']] *)
Definition ALLOWED_EXTENSIONS_PDF : list text := [str "pdf"].
Definition ALLOWED_EXTENSIONS_EXCEL : list text := [str "xlsx"; str "xls"].

(** ['.' in filename and filename.rsplit('.', 1)[1].lower() in allowed] *)
Definition extension_in (filename : text) (allowed : list text) : bool :=
  match rsplit1 46 filename with
  | Some (_, extension) => mem (lower extension) allowed
  | None => false
  end.

Definition allowed_file (filename file_type : text) : bool :=
  if text_eqb file_type (str "pdf")
  then extension_in filename ALLOWED_EXTENSIONS_PDF
  else if text_eqb file_type (str "excel")
  then extension_in filename ALLOWED_EXTENSIONS_EXCEL
  else false.

(** ** Name of the cardholder: [derive_name_from_excel_filename] *)

(** [^] without MULTILINE: the pattern matches at the start of the text
    only. *)
Definition at_start (m : matcher) : matcher :=
  fun prev s => match prev with None => m prev s | Some _ => None end.

(** [$] without MULTILINE: the end of the text, or the newline that ends
    it. *)
Definition at_end (s : text) : bool :=
  match s with
  | [] => true
  | [c] => (c =? 10)%N
  | _ => false
  end.

(** [(r1|r2)] and then [k]: the first alternative is tried first. *)
Definition ralt {R} (r1 r2 : regex) (prev : option char) (s : text) (pos : nat)
    (g : option (nat * nat)) (k : gcont R) : option R :=
  match rmatch r1 prev s pos g k with
  | Some x => Some x
  | None => rmatch r2 prev s pos g k
  end.

(** [\w] *)
Definition is_word (c : char) : bool := in_ranges WORD_RANGES c.

(** [\b]: of the characters before and after the position, one is a word
    character and the other is not (or is missing). *)
Definition word_boundary (prev : option char) (s : text) : bool :=
  xorb (match prev with Some c => is_word c | None => false end)
       (match s with c :: _ => is_word c | [] => false end).

(** [\d{8}_\d{6}_] *)
Definition timestamp_re : regex :=
  RCat (RRep true 8 (Some 8) is_decimal)
    (RCat (RChar 95) (RCat (RRep true 6 (Some 6) is_decimal) (RChar 95))).

(** [\.(xlsx|xls)$] under IGNORECASE *)
Definition extension_matcher : matcher :=
  fun prev s =>
    rmatch (RLitI (str ".")) prev s 0 None
      (fun prev1 s1 pos1 g1 =>
         ralt (RLitI (str "xlsx")) (RLitI (str "xls")) prev1 s1 pos1 g1
           (fun _ s2 pos2 _ => if at_end s2 then Some pos2 else None)).

(** [(?i)\s*\b(Expenses|Report)\b\s*] *)
Definition keyword_matcher : matcher :=
  fun prev s =>
    rmatch (RRep true 0 None is_space) prev s 0 None
      (fun prev1 s1 pos1 g1 =>
         if word_boundary prev1 s1
         then
           ralt (RLitI (str "Expenses")) (RLitI (str "Report")) prev1 s1 pos1 g1
             (fun prev2 s2 pos2 g2 =>
                if word_boundary prev2 s2
                then rmatch (RRep true 0 None is_space) prev2 s2 pos2 g2
                       (fun _ _ pos3 _ => Some pos3)
                else None)
         else None).

(** [([a-z])([A-Z])] *)
Definition camel_re : regex := RCat (RSet is_lower) (RSet is_upper).

(** The replacement [r"\1 \2"] for a match of [camel_re]: its two
    characters with a space between them. *)
Definition camel_repl (w : text) : text := firstn 1 w ++ str " " ++ skipn 1 w.

(** [s.replace(a, b)] for single characters [a] and [b]. *)
Definition replace_char (a b : char) (s : text) : text :=
  List.map (fun c => if (c =? a)%N then b else c) s.

(** [[a-zA-Z0-9\s]] *)
Definition is_alnum_or_space (c : char) : bool :=
  is_lower c || is_upper c || is_digit c || is_space c.

Definition derive_name_from_excel_filename (filename : text) : text :=
  let name := re_sub (at_start (regex_matcher timestamp_re)) (fun _ => []) filename in
  let name := re_sub extension_matcher (fun _ => []) name in
  let name := re_sub keyword_matcher (fun _ => []) name in
  let name := re_sub (regex_matcher camel_re) camel_repl name in
  let name := replace_char 45 32 (replace_char 95 32 name) in
  let name :=
    re_sub (regex_matcher (RSet (fun c => negb (is_alnum_or_space c))))
      (fun _ => []) name in
  join_space (split_ws name).

(** ** The request handler: [compare] *)

(** The exceptions that the processing of the two files raises, each
    shown on the error page: the two of [parse_statement_period], "No
    cardholders found in PDF" and "Could not match ... to any
    cardholder". *)
Inductive compare_error :=
| PeriodError (e : period_error)
| NoCardholdersFound
| NameNotMatched (person_name : text).

(** The dict [results], without its three totals (sums of floats, shown
    with two decimals). *)
Record results := mkResults {
  cardholder : text;
  period_start : text;
  period_end : text;
  pdf_count : nat;
  excel_count : nat;
  matched_count : nat;
  missing_count : nat;
  missing_transactions : list Transaction
}.

(** What [compare] answers: a message flashed on the index page, to which
    the request is sent back; the error page; the results page. *)
Inductive response :=
| Flashed (message : text)
| ErrorPage (e : compare_error)
| ResultsPage (r : results).

(** [compare]. The request holds the file names [pdf_filename] and
    [excel_filename] ([None] for a file that the request lacks). Of the
    files themselves the function sees [decoded], the text that the PDF
    library gives for the statement, and [read_excel_transactions], the
    records that the workbook holds for a period. The names under which the
    files are saved, and their removal, have no part in the answer. *)
Definition compare (pdf_filename excel_filename : option text) (decoded : text)
    (read_excel_transactions : date -> date -> list TableRecord) : response :=
  match pdf_filename, excel_filename with
  | Some pdf_filename, Some excel_filename =>
      if text_eqb pdf_filename [] || text_eqb excel_filename []
      then Flashed (str "Please select both files!")
      else if negb (allowed_file pdf_filename (str "pdf"))
      then Flashed (str "PDF file must be a .pdf file!")
      else if negb (allowed_file excel_filename (str "excel"))
      then Flashed (str "Excel file must be .xlsx or .xls!")
      else
        let person_name := derive_name_from_excel_filename excel_filename in
        let pdf_text := read_pdf_text decoded in
        match parse_statement_period pdf_text with
        | inl e => ErrorPage (PeriodError e)
        | inr (start_date, end_date) =>
            let sections := find_cardholder_sections pdf_text in
            match sections with
            | [] => ErrorPage NoCardholdersFound
            | _ :: _ =>
                match select_target_section_name person_name sections with
                | None => ErrorPage (NameNotMatched person_name)
                | Some selected =>
                    if text_eqb selected []
                    then ErrorPage (NameNotMatched person_name)
                    else
                      let pdf_txns :=
                        extract_transactions_for_name pdf_text selected sections in
                      let excel_txns := read_excel_transactions start_date end_date in
                      let (matched, missing) := match_transactions pdf_txns excel_txns in
                      ResultsPage
                        {| cardholder := selected;
                           period_start := strftime_mdy start_date;
                           period_end := strftime_mdy end_date;
                           pdf_count := length pdf_txns;
                           excel_count := length excel_txns;
                           matched_count := matched;
                           missing_count := length missing;
                           missing_transactions := missing |}
                end
            end
        end
  | _, _ => Flashed (str "Both PDF and Excel files are required!")
  end.

(** ** Specification vocabulary *)

(** The band of the reconciler read on amounts written in hundredths, in
    exact arithmetic: [a - 0.50 <= t <= a + 0.50]. *)
Definition within_tolerance_cents (a t : Z) : bool :=
  ((a - 50 <=? t) && (t <=? a + 50))%Z.

(** [subseq l1 l2]: [l1] is [l2] with some items left out, in the same order. *)
Inductive subseq {A : Type} : list A -> list A -> Prop :=
| subseq_nil : subseq [] []
| subseq_skip : forall x l1 l2, subseq l1 l2 -> subseq l1 (x :: l2)
| subseq_keep : forall x l1 l2, subseq l1 l2 -> subseq (x :: l1) (x :: l2).

(** The ghost pool that is left of the tabular amounts [amounts] once the
    positions [consumed] are taken out. *)
Definition remaining (amounts : list float) (consumed : list nat)
    : list (nat * float) :=
  filter (fun p => negb (existsb (Nat.eqb (fst p)) consumed))
    (enumerate_from 0 amounts).

(** The case and white-space normalisation that the resolver applies to a
    section name: [name.strip().upper()]. *)
Definition normalize_name (s : text) : text := upper (strip s).

(** The number of pairs, one token of [ts] and one of [ns], of which one is
    a prefix of the other. *)
Definition related_pairs (ts ns : list text) : nat :=
  length (filter (fun p => prefix_related (fst p) (snd p)) (list_prod ts ns)).

(** *** What a regular expression matches *)

(** The character before the position reached after reading [w], when
    [prev] was the one before [w]. *)
Fixpoint last_char (prev : option char) (w : text) : option char :=
  match w with
  | [] => prev
  | c :: w' => last_char (Some c) w'
  end.

(** [^] under MULTILINE: at the start of the input or after a newline. *)
Definition at_bol (prev : option char) : bool :=
  match prev with
  | None => true
  | Some c => (c =? 10)%N
  end.

Definition below_hi (hi : option nat) (n : nat) : Prop :=
  match hi with
  | Some h => n <= h
  | None => True
  end.

(** [matches r prev pos w g g']: the expression [r] matches the word [w]
    read at offset [pos] after the character [prev]; the span of group 1
    is [g] before and [g'] after. *)
Inductive matches : regex -> option char -> nat -> text ->
                    option (nat * nat) -> option (nat * nat) -> Prop :=
| matches_eps : forall prev pos g, matches REps prev pos [] g g
| matches_set : forall p c prev pos g,
    p c = true -> matches (RSet p) prev pos [c] g g
| matches_bol : forall prev pos g,
    at_bol prev = true -> matches RBol prev pos [] g g
| matches_rep : forall greedy lo hi p prev pos w g,
    forallb p w = true -> lo <= length w -> below_hi hi (length w) ->
    matches (RRep greedy lo hi p) prev pos w g g
| matches_cat : forall r1 r2 prev pos w1 w2 g g1 g2,
    matches r1 prev pos w1 g g1 ->
    matches r2 (last_char prev w1) (pos + length w1) w2 g1 g2 ->
    matches (RCat r1 r2) prev pos (w1 ++ w2) g g2
| matches_group : forall r prev pos w g g1,
    matches r prev pos w g g1 ->
    matches (RGroup r) prev pos w g (Some (pos, pos + length w)).

(** [r] matches at offset [i] of the whole input [s], over the word [w]. *)
Definition matches_at (r : regex) (s : text) (i : nat) (w : text)
    (g : option (nat * nat)) : Prop :=
  exists rest, skipn i s = w ++ rest /\ i <= length s
               /\ matches r (char_before None s i) i w None g.

(** *** Anchors of the statement text *)

(** A string of the shape [dd/dd/dd] in ASCII digits, as [strftime] writes
    a two-digit month/day/year date. *)
Definition is_date_shape (d : text) : bool :=
  match d with
  | [a; b; s1; c; e; s2; f; h] =>
      is_digit a && is_digit b && (s1 =? 47)%N
      && is_digit c && is_digit e && (s2 =? 47)%N
      && is_digit f && is_digit h
  | _ => false
  end.

(** A string that [\d{2}/\d{2}/\d{2}] matches: two decimal digits, a
    slash, two decimal digits, a slash, two decimal digits; the digits are
    those of any script. *)
Definition is_date_text (d : text) : bool :=
  match d with
  | [a; b; s1; c; e; s2; f; h] =>
      is_decimal a && is_decimal b && (s1 =? 47)%N
      && is_decimal c && is_decimal e && (s2 =? 47)%N
      && is_decimal f && is_decimal h
  | _ => false
  end.

(** The ASCII digit of the same value as a decimal digit; any other
    character is left as it is. *)
Definition ascii_digit (c : char) : char :=
  if is_decimal c then Z.to_N (48 + decimal_value c) else c.

(** The text [s] with its decimal digits written in ASCII. *)
Definition ascii_digits (s : text) : text := List.map ascii_digit s.

(** At offset [i] of [t]: "Closing Date", white space if any, and the
    date-shaped string [d] in ASCII digits. *)
Definition closing_anchor_at (t : text) (i : nat) (d : text) : Prop :=
  exists ws rest,
    skipn i t = str "Closing Date" ++ ws ++ d ++ rest
    /\ forallb is_space ws = true
    /\ is_date_shape d = true.

(** At offset [i] of [t]: "Closing Date", white space if any, and the
    string [d] of two decimal digits, three times: what
    [Closing Date\s*(\d{2}/\d{2}/\d{2})] matches, with its group. *)
Definition closing_date_at (t : text) (i : nat) (d : text) : Prop :=
  exists ws rest,
    skipn i t = str "Closing Date" ++ ws ++ d ++ rest
    /\ forallb is_space ws = true
    /\ is_date_text d = true.

(** A date of the calendar. *)
Definition valid_date (d : date) : bool :=
  ((1 <=? month d) && (month d <=? 12) && (1 <=? day d)
   && (day d <=? days_in_month (year d) (month d)))%Z.

(** The period that ends on [e] starts on a date of the calendar, 30 days
    before [e]. *)
Definition period_check (e : date) : bool :=
  let s := date_minus_days e 30 in
  ((ymd2ord e - ymd2ord s =? 30)%Z && valid_date s).

(** A name as [section_re] captures it: an upper-case letter and then 1 to
    80 upper-case letters or blanks. *)
Definition is_name_token (raw : text) : bool :=
  match raw with
  | c :: rest =>
      is_upper c && forallb is_upper_or_blank rest
      && (1 <=? length rest) && (length rest <=? 80)
  | [] => false
  end.

(** At offset [i] of [t]: the name token [raw], white space [ws] (one
    character at least) and "Card Ending". *)
Definition section_anchor_at (t : text) (i : nat) (raw ws : text) : Prop :=
  exists rest,
    skipn i t = raw ++ ws ++ str "Card Ending" ++ rest
    /\ is_name_token raw = true
    /\ ws <> [] /\ forallb is_space ws = true.

(** At offset [i] of [t]: the string [d] of two decimal digits, three
    times, that [(\d{2}/\d{2}/\d{2})] matches. *)
Definition date_at (t : text) (i : nat) (d : text) : Prop :=
  exists rest, skipn i t = d ++ rest /\ is_date_text d = true.

(** A numeral as [amount_re] captures it: digits and commas (one at
    least), a point and two digits. *)
Definition is_amount_numeral (n : text) : Prop :=
  exists ds a b,
    n = ds ++ [46%N; a; b]
    /\ ds <> [] /\ forallb is_digit_or_comma ds = true
    /\ is_digit a = true /\ is_digit b = true.

(** At offset [j] of [t]: a dollar sign and the numeral [n]. *)
Definition amount_at (t : text) (j : nat) (n : text) : Prop :=
  exists rest, skipn j t = 36%N :: n ++ rest /\ is_amount_numeral n.

(** The word [k] is the keyword [kw], whatever the case. *)
Fixpoint ieq_text (kw k : text) : bool :=
  match kw, k with
  | [], [] => true
  | c :: kw', x :: k' => ieq c x && ieq_text kw' k'
  | _, _ => false
  end.

(** At offset [p] of [s] begins a line that starts, after white space if
    any, with the summary keyword [kw]. *)
Definition keyword_line_at (kw : text) (s : text) (p : nat) : Prop :=
  at_bol (char_before None s p) = true
  /\ p <= length s
  /\ exists ws k rest,
       skipn p s = ws ++ k ++ rest
       /\ forallb is_space ws = true /\ ieq_text kw k = true.

Definition marker_line_at (s : text) (p : nat) : Prop :=
  exists kw, In kw summary_keywords /\ keyword_line_at kw s p.

(** The word [w] occurs in [s]. *)
Definition occurs (w s : text) : Prop :=
  exists pre post, s = pre ++ w ++ post.

(** No character of [w] is white space. *)
Definition no_space (w : text) : bool :=
  forallb (fun c => negb (is_space c)) w.

(** [r] matches no empty word. *)
Definition never_empty (r : regex) : Prop :=
  forall prev pos w g g', matches r prev pos w g g' -> w <> [].

(** [located t pos l]: [l] lists the sections of [t] from offset [pos]
    on. The first is at the leftmost offset, at or after [pos], where the
    text reads a name token, white space and "Card Ending"; the next ones
    are located from the end of that phrase on, so that no two of them
    overlap. *)
Inductive located (t : text) : nat -> list (text * Z) -> Prop :=
| located_none : forall pos,
    (forall i raw ws, pos <= i -> ~ section_anchor_at t i raw ws) ->
    located t pos []
| located_next : forall pos i raw ws l,
    pos <= i ->
    section_anchor_at t i raw ws ->
    (forall j raw' ws', pos <= j -> j < i -> ~ section_anchor_at t j raw' ws') ->
    located t (i + length (raw ++ ws ++ str "Card Ending")) l ->
    located t pos ((strip raw, Z.of_nat i) :: l).

(** [chunked p s chunks]: [chunks] lists the pieces of [s] between its
    maximal runs of characters of the class [p], in order. A run at the
    start or at the end of [s] has an empty piece before or after it. *)
Inductive chunked (p : char -> bool) : text -> list text -> Prop :=
| chunked_last : forall c,
    forallb (fun x => negb (p x)) c = true ->
    chunked p c [c]
| chunked_next : forall c d s chunks,
    forallb (fun x => negb (p x)) c = true ->
    d <> [] -> forallb p d = true ->
    (forall x s', s = x :: s' -> p x = false) ->
    chunked p s chunks ->
    chunked p (c ++ d ++ s) (c :: chunks).

(** [scan r t pos ms]: [ms] lists the successive matches of [r] in [t]
    from offset [pos] on; each is the leftmost match that starts at or after
    the end of the one before. *)
Inductive scan (r : regex) (t : text) : nat -> list rmatch_obj -> Prop :=
| scan_done : forall pos,
    (forall j w g, pos <= j -> ~ matches_at r t j w g) ->
    scan r t pos []
| scan_match : forall pos m w ms,
    matches_at r t (m_start m) w (m_group m) ->
    pos <= m_start m ->
    m_end m = m_start m + length w ->
    (forall j w' g, pos <= j -> j < m_start m -> ~ matches_at r t j w' g) ->
    scan r t (m_end m) ms ->
    scan r t pos (m :: ms).

(** The invariant of the ghost loop over the tabular amounts [amounts]. *)
Definition ghost_inv (amounts : list float) (st : gstate) : Prop :=
  g_pool st = remaining amounts (g_consumed st)
  /\ NoDup (g_consumed st)
  /\ Forall (fun i => i < length amounts) (g_consumed st).

(** The pair that [find_cardholder_sections] makes of a match. *)
Definition section_of (t : text) (m : rmatch_obj) : text * Z :=
  (strip (group1 t m), Z.of_nat (m_start m)).

(** What [summary_pos] holds once the keywords [done] are processed: -1
    when none of them starts a line of the text after the target, else the
    offset of the first line that one of them starts. *)
Definition summary_inv (text_after_target : text) (target_pos : Z)
    (done : list text) (summary_pos : Z) : Prop :=
  (summary_pos = (-1)%Z
   /\ forall kw p, In kw done -> ~ keyword_line_at kw text_after_target p)
  \/ (exists p0 kw0,
        summary_pos = (target_pos + Z.of_nat p0)%Z
        /\ In kw0 done /\ keyword_line_at kw0 text_after_target p0
        /\ forall kw p, In kw done -> p < p0 ->
             ~ keyword_line_at kw text_after_target p).

(** *** Blank runs *)

(** The characters that [read_pdf_text] normalises: the space, the tab,
    the carriage return and the no-break space. *)
Definition is_blank (c : char) : bool := (c =? 32)%N || is_tab_cr_nbsp c.

(** [squeeze p in_run s]: the text [s] with every maximal run of
    characters of the class [p] replaced by one space; [in_run] tells that
    the character before [s] was of the class, its space already written. *)
Fixpoint squeeze (p : char -> bool) (in_run : bool) (s : text) : text :=
  match s with
  | [] => []
  | c :: s' =>
      if p c
      then if in_run then squeeze p true s' else 32%N :: squeeze p true s'
      else c :: squeeze p false s'
  end.

(** A text without tab, carriage return or no-break space and without two
    spaces in a row; [after_space] tells that the character before [s] was
    a space. *)
Fixpoint is_collapsed (after_space : bool) (s : text) : bool :=
  match s with
  | [] => true
  | c :: s' =>
      negb (is_tab_cr_nbsp c) && negb (after_space && (c =? 32)%N)
      && is_collapsed (c =? 32)%N s'
  end.

(** The length of the run of characters of the class [p] that [s] starts
    with. *)
Fixpoint run_length (p : char -> bool) (s : text) : nat :=
  match s with
  | c :: s' => if p c then S (run_length p s') else 0
  | [] => 0
  end.

(** *** Names derived from file names *)

(** [[a-zA-Z0-9]] *)
Definition is_alnum (c : char) : bool := is_lower c || is_upper c || is_digit c.

(** A word of letters and digits, not empty. *)
Definition is_alnum_word (w : text) : bool :=
  negb (text_eqb w []) && forallb is_alnum w.

(** A timestamp prefix, as [compare] puts one before the names of the
    files that it saves: eight decimal digits, an underscore, six decimal
    digits, an underscore, which [\d{8}_\d{6}_] matches. *)
Definition is_timestamp_prefix (p : text) : bool :=
  (length p =? 16)
  && forallb is_decimal (firstn 8 p)
  && text_eqb (firstn 1 (skipn 8 p)) (str "_")
  && forallb is_decimal (firstn 6 (skipn 9 p))
  && text_eqb (skipn 15 p) (str "_").

(** *** Requests *)

(** The two uploads pass the checks of [compare]: both are in the
    request, both have a name, and each name has an extension of its
    type. *)
Definition uploads_valid (pdf_filename excel_filename : option text) : bool :=
  match pdf_filename, excel_filename with
  | Some p, Some x =>
      negb (text_eqb p []) && negb (text_eqb x [])
      && allowed_file p (str "pdf") && allowed_file x (str "excel")
  | _, _ => false
  end.

(** *** A sample request *)

(** The text of a statement as the PDF library gives it: a closing date,
    the section of JANET SMITH with two transactions and a line of fees,
    the section of CARLOS DIAZ. *)
Definition sample_decoded : text :=
  str "ACME BANK" ++ [9%N] ++ str "Statement" ++ [13; 10]%N
  ++ str "Closing Date 03/15/24" ++ [10%N]
  ++ str "JANET SMITH Card Ending 1234" ++ [10%N]
  ++ [9674%N] ++ str " 02/20/24 BOOK STORE $25.00" ++ [10%N]
  ++ [9674%N] ++ str " 03/01/24 CAFE $4.50" ++ [10%N]
  ++ str "FEES" ++ [10%N]
  ++ [9674%N] ++ str " 03/02/24 LATE FEE $35.00" ++ [10%N]
  ++ str "CARLOS DIAZ Card Ending 9999" ++ [10%N]
  ++ [9674%N] ++ str " 02/21/24 TAXI $18.20" ++ [10%N].

(** A workbook with one record in any period. *)
Definition sample_workbook (start_date end_date : date) : list TableRecord :=
  [mkTableRecord (str "02/20/24") 25.25].

(** The results for the sample. *)
Definition sample_results : results :=
  {| cardholder := str "JANET SMITH";
     period_start := str "02/14/24";
     period_end := str "03/15/24";
     pdf_count := 2;
     excel_count := 1;
     matched_count := 1;
     missing_count := 1;
     missing_transactions :=
       [mkTransaction (str "03/01/24") (str "CAFE") 4.5] |}.

(** * Properties *)

(** ** Reconciler *)

Section ReconcilerFacts.

Lemma subseq_refl {A} (l : list A) : subseq l l.
Proof. induction l; constructor; assumption. Qed.

Lemma subseq_trans {A} (l1 l2 l3 : list A) :
  subseq l1 l2 -> subseq l2 l3 -> subseq l1 l3.
Proof.
  intros H12 H23. revert l1 H12.
  induction H23; intros l0 H12.
  - assumption.
  - constructor. apply IHsubseq. assumption.
  - inversion H12; subst.
    + constructor. apply IHsubseq. assumption.
    + apply subseq_keep. apply IHsubseq. assumption.
Qed.

Lemma pop_subseq {A} (idx : nat) (l : list A) : subseq (pop idx l) l.
Proof.
  revert idx. induction l as [|x l IH]; intros [|i]; simpl.
  - constructor.
  - constructor.
  - constructor. apply subseq_refl.
  - apply subseq_keep. apply IH.
Qed.

(** What [first_index] finds: the first item that satisfies [p]. *)
Lemma first_index_Some {A} (p : A -> bool) (l : list A) (idx : nat) :
  first_index p l = Some idx ->
  exists pre a post,
    l = pre ++ a :: post /\ length pre = idx /\
    forallb (fun x => negb (p x)) pre = true /\ p a = true /\
    pop idx l = pre ++ post.
Proof.
  revert idx. induction l as [|x l IH]; intros idx; simpl.
  - discriminate.
  - destruct (p x) eqn:Hx.
    + intros [= <-]. exists [], x, l. repeat split; auto.
    + destruct (first_index p l) as [i|] eqn:Hi; simpl; [|discriminate].
      intros [= <-].
      destruct (IH i eq_refl) as (pre & a & post & -> & Hlen & Hpre & Ha & Hpop).
      exists (x :: pre), a, post. simpl. rewrite Hx, Hpre, Hpop, Hlen.
      repeat split; auto.
Qed.

Lemma first_index_None {A} (p : A -> bool) (l : list A) :
  first_index p l = None <-> forall x, In x l -> p x = false.
Proof.
  induction l as [|x l IH]; simpl.
  - split; [intros _ y [] | reflexivity].
  - destruct (p x) eqn:Hx.
    + split; [discriminate|]. intros H. specialize (H x (or_introl eq_refl)).
      congruence.
    + destruct (first_index p l) as [i|]; simpl.
      * split; [discriminate|]. intros H.
        assert (Hn : forall y, In y l -> p y = false) by (intros y Hy; apply H; now right).
        apply IH in Hn. discriminate.
      * split; [|reflexivity]. intros _ y [<-|Hy]; [assumption|].
        now apply (proj1 IH).
Qed.

(** When the first match of a list is known, [first_index] returns it. *)
Lemma first_index_split {A} (p : A -> bool) (pre : list A) (a : A) (post : list A) :
  (forall b, In b pre -> p b = false) -> p a = true ->
  first_index p (pre ++ a :: post) = Some (length pre).
Proof.
  intros Hpre Ha. induction pre as [|x pre IH]; simpl.
  - now rewrite Ha.
  - rewrite (Hpre x (or_introl eq_refl)), IH; [reflexivity|].
    intros b Hb. apply Hpre. now right.
Qed.

Lemma pop_split {A} (pre : list A) (a : A) (post : list A) :
  pop (length pre) (pre ++ a :: post) = pre ++ post.
Proof. induction pre as [|x pre IH]; simpl; [reflexivity | now rewrite IH]. Qed.

Lemma match_loop_app (l1 l2 : list Transaction) (st : match_state) :
  match_loop (l1 ++ l2) st = match_loop l2 (match_loop l1 st).
Proof. apply fold_left_app. Qed.

Lemma match_step_available (st : match_state) (t : Transaction) :
  subseq (available (match_step st t)) (available st).
Proof.
  unfold match_step.
  destruct (first_index _ (available st)); simpl;
    [apply pop_subseq | apply subseq_refl].
Qed.

Lemma match_loop_available (pdf_txns : list Transaction) (st : match_state) :
  subseq (available (match_loop pdf_txns st)) (available st).
Proof.
  revert st. induction pdf_txns as [|t l IH]; intros st; simpl.
  - apply subseq_refl.
  - eapply subseq_trans; [apply IH | apply match_step_available].
Qed.

Lemma match_step_count (st : match_state) (t : Transaction) :
  matched (match_step st t) + length (missing (match_step st t))
  = S (matched st + length (missing st)).
Proof.
  unfold match_step.
  destruct (first_index _ (available st)); simpl.
  - reflexivity.
  - rewrite length_app. simpl. lia.
Qed.

Lemma match_loop_count (pdf_txns : list Transaction) (st : match_state) :
  matched (match_loop pdf_txns st) + length (missing (match_loop pdf_txns st))
  = length pdf_txns + (matched st + length (missing st)).
Proof.
  revert st. induction pdf_txns as [|t l IH]; intros st; simpl.
  - reflexivity.
  - unfold match_loop in IH. rewrite IH, match_step_count. lia.
Qed.

End ReconcilerFacts.

Section GhostPool.

Lemma first_index_map {A B} (f : A -> B) (p : B -> bool) (l : list A) :
  first_index (fun x => p (f x)) l = first_index p (List.map f l).
Proof.
  induction l as [|x l IH]; simpl; [reflexivity|].
  destruct (p (f x)); [reflexivity | now rewrite IH].
Qed.

Lemma pop_map {A B} (f : A -> B) (idx : nat) (l : list A) :
  List.map f (pop idx l) = pop idx (List.map f l).
Proof.
  revert idx. induction l as [|x l IH]; intros [|i]; simpl; try reflexivity.
  now rewrite IH.
Qed.

Lemma skipn_split {A} (pre : list A) (a : A) (post : list A) :
  skipn (length pre) (pre ++ a :: post) = a :: post.
Proof. induction pre; simpl; auto. Qed.

Lemma enumerate_from_bounds {A} (l : list A) (i : nat) (p : nat * A) :
  In p (enumerate_from i l) -> i <= fst p < i + length l.
Proof.
  revert i. induction l as [|x l IH]; intros i; simpl.
  - intros [].
  - intros [<-|Hp]; simpl; [lia|]. apply IH in Hp. lia.
Qed.

Lemma enumerate_from_NoDup {A} (l : list A) (i : nat) :
  NoDup (List.map fst (enumerate_from i l)).
Proof.
  revert i. induction l as [|x l IH]; intros i; simpl; constructor.
  - intros Hin. apply in_map_iff in Hin. destruct Hin as (p & Hp & Hin).
    apply enumerate_from_bounds in Hin. lia.
  - apply IH.
Qed.

Lemma enumerate_from_snd {A} (l : list A) (i : nat) :
  List.map snd (enumerate_from i l) = l.
Proof. revert i. induction l; intros i; simpl; [|rewrite IHl]; reflexivity. Qed.

Lemma NoDup_map_filter {A B} (f : A -> B) (q : A -> bool) (l : list A) :
  NoDup (List.map f l) -> NoDup (List.map f (filter q l)).
Proof.
  induction l as [|x l IH]; simpl; intros H; [constructor|].
  inversion H as [|? ? Hnin Hnd]; subst.
  destruct (q x); simpl; [constructor|]; auto.
  intros Hin. apply Hnin. apply in_map_iff in Hin.
  destruct Hin as (y & Hy & Hin). apply in_map_iff. exists y. split; auto.
  apply filter_In in Hin. tauto.
Qed.

Lemma filter_out_unique {A} (pre : list (nat * A)) (a : nat * A) (post : list (nat * A)) :
  NoDup (List.map fst (pre ++ a :: post)) ->
  filter (fun p => negb (Nat.eqb (fst p) (fst a))) (pre ++ a :: post) = pre ++ post.
Proof.
  intros Hnd.
  assert (Hother : forall p, In p (pre ++ post) -> Nat.eqb (fst p) (fst a) = false).
  { intros p Hp. apply Nat.eqb_neq. intros Heq.
    rewrite map_app in Hnd. simpl in Hnd. apply NoDup_remove_2 in Hnd.
    apply Hnd. rewrite <- Heq, <- map_app. now apply in_map. }
  rewrite filter_app. simpl. rewrite Nat.eqb_refl. simpl.
  rewrite <- filter_app. apply forallb_filter_id. apply forallb_forall.
  intros p Hp. now rewrite (Hother p Hp).
Qed.

Lemma remaining_snoc (amounts : list float) (consumed : list nat) (i : nat) :
  remaining amounts (consumed ++ [i])
  = filter (fun p => negb (Nat.eqb (fst p) i)) (remaining amounts consumed).
Proof.
  unfold remaining. induction (enumerate_from 0 amounts) as [|p l IH]; simpl.
  - reflexivity.
  - rewrite existsb_app. simpl. rewrite orb_false_r.
    destruct (existsb (Nat.eqb (fst p)) consumed); simpl.
    + apply IH.
    + destruct (Nat.eqb (fst p) i); simpl; [apply IH | now rewrite IH].
Qed.

Lemma ghost_inv_init (excel_txns : list TableRecord) :
  ghost_inv (List.map rec_amount excel_txns) (g_init excel_txns).
Proof.
  unfold ghost_inv, g_init, remaining. simpl. repeat split.
  - symmetry. apply forallb_filter_id. apply forallb_forall. reflexivity.
  - constructor.
  - constructor.
Qed.

Lemma ghost_inv_step (amounts : list float) (st : gstate) (t : Transaction) :
  ghost_inv amounts st -> ghost_inv amounts (g_step st t).
Proof.
  intros (Hpool & Hnd & Hlt). unfold g_step.
  destruct (first_index _ (g_pool st)) as [idx|] eqn:Hidx;
    [|repeat split; assumption].
  apply first_index_Some in Hidx.
  destruct Hidx as (pre & a & post & Hsplit & Hlen & _ & _ & Hpop).
  assert (Hin : In a (remaining amounts (g_consumed st))).
  { rewrite <- Hpool, Hsplit. apply in_elt. }
  unfold remaining in Hin. apply filter_In in Hin. destruct Hin as [Hin Hfresh].
  unfold ghost_inv. simpl.
  rewrite Hpop, Hsplit, <- Hlen, skipn_split. simpl.
  repeat split.
  - rewrite remaining_snoc, <- Hpool, Hsplit. symmetry.
    apply filter_out_unique. rewrite <- Hsplit, Hpool.
    apply NoDup_map_filter, enumerate_from_NoDup.
  - apply NoDup_app; [assumption | repeat constructor; intros [] |].
    intros x Hx [<-|[]].
    apply negb_true_iff in Hfresh.
    assert (Hex : existsb (Nat.eqb (fst a)) (g_consumed st) = true).
    { apply existsb_exists. exists (fst a). split; [assumption | apply Nat.eqb_refl]. }
    congruence.
  - apply Forall_app. split; [assumption|]. repeat constructor.
    apply enumerate_from_bounds in Hin. lia.
Qed.

Lemma ghost_inv_loop (amounts : list float) (pdf_txns : list Transaction) (st : gstate) :
  ghost_inv amounts st -> ghost_inv amounts (g_loop pdf_txns st).
Proof.
  revert st. induction pdf_txns as [|t l IH]; intros st H; simpl; [assumption|].
  apply IH. now apply ghost_inv_step.
Qed.

(** The ghost loop is the loop of the source with its pool annotated. *)
Lemma erase_step (st : gstate) (t : Transaction) :
  erase (g_step st t) = match_step (erase st) t.
Proof.
  unfold g_step, match_step, erase. simpl.
  rewrite <- first_index_map.
  destruct (first_index _ (g_pool st)) as [idx|] eqn:Hidx; simpl.
  - apply first_index_Some in Hidx.
    destruct Hidx as (pre & a & post & Hsplit & Hlen & _ & _ & _).
    rewrite pop_map, length_app, Hsplit, <- Hlen, skipn_split. simpl.
    f_equal. lia.
  - reflexivity.
Qed.

Lemma erase_loop (pdf_txns : list Transaction) (st : gstate) :
  erase (g_loop pdf_txns st) = match_loop pdf_txns (erase st).
Proof.
  revert st. induction pdf_txns as [|t l IH]; intros st; simpl; [reflexivity|].
  unfold g_loop in IH. rewrite IH, erase_step. reflexivity.
Qed.

Lemma erase_init (excel_txns : list TableRecord) :
  erase (g_init excel_txns) = match_init excel_txns.
Proof.
  unfold erase, g_init, match_init. simpl. now rewrite enumerate_from_snd.
Qed.

End GhostPool.

Set Warnings "-inexact-float".

(** C1, as the code has it. The reconciler takes the statement
    transactions in order. For the transaction [t] that follows the ones
    already processed, it consumes the first amount [a] of the remaining
    pool (the tabular amounts not yet consumed, in their original order)
    for which the test [a - 0.50 <= t.amount <= a + 0.50] holds, and
    increments [matched]; when the test holds for no remaining amount, [t]
    is appended to [missing]. The test is computed in binary64 arithmetic:
    both sums are rounded, and the band is inclusive at its computed ends,
    so that tabular 10.00 matches statement 10.50 but not 10.51. *)
Theorem match_transactions_first_fit :
  forall (processed rest : list Transaction) (t : Transaction)
         (excel_txns : list TableRecord),
    let st := match_loop processed (match_init excel_txns) in
    match_loop (processed ++ t :: rest) (match_init excel_txns)
      = match_loop rest (match_step st t)
    /\ subseq (available st) (List.map rec_amount excel_txns)
    /\ (forall a x, within_tolerance a x = true <->
          PrimFloat.leb (a - 0.5) x = true /\ PrimFloat.leb x (a + 0.5) = true)
    /\ (forall pre a post,
          available st = pre ++ a :: post ->
          (forall b, In b pre -> within_tolerance b (txn_amount t) = false) ->
          within_tolerance a (txn_amount t) = true ->
          match_step st t
            = {| available := pre ++ post;
                 matched := S (matched st);
                 missing := missing st |})
    /\ ((forall b, In b (available st) -> within_tolerance b (txn_amount t) = false) ->
          match_step st t
            = {| available := available st;
                 matched := matched st;
                 missing := missing st ++ [t] |})
    /\ within_tolerance 10 10.5 = true
    /\ within_tolerance 10 10.51 = false.
Proof.
  intros processed rest t excel_txns st.
  split; [|split; [|split; [|split; [|split; [|split]]]]].
  - rewrite match_loop_app. reflexivity.
  - apply (match_loop_available processed (match_init excel_txns)).
  - intros a x. unfold within_tolerance. apply andb_true_iff.
  - intros pre a post Hsplit Hpre Ha. unfold match_step.
    rewrite Hsplit, (first_index_split _ pre a post Hpre Ha), pop_split.
    reflexivity.
  - intros Hnone. unfold match_step.
    rewrite (proj2 (first_index_None _ (available st)) Hnone). reflexivity.
  - reflexivity.
  - reflexivity.
Qed.

(** A run of C1: against the tabular amounts 3.00, 10.00, 10.20, the
    statement amount 10.50 consumes 10.00 (the first one within the band)
    and the next statement amount 10.71 is then missing. *)
Lemma match_transactions_first_fit_witness :
  let t1 := mkTransaction (str "01/02/24") (str "SHOP") 10.5 in
  let t2 := mkTransaction (str "01/03/24") (str "CAFE") 10.71 in
  let excel := [mkTableRecord (str "01/02/24") 3;
                mkTableRecord (str "01/02/24") 10;
                mkTableRecord (str "01/05/24") 10.2] in
  match_step (match_loop [] (match_init excel)) t1
    = {| available := [3; 10.2]%float; matched := 1; missing := [] |}
  /\ match_step (match_loop [t1] (match_init excel)) t2
    = {| available := [3; 10.2]%float; matched := 1; missing := [t2] |}.
Proof.
  intros t1 t2 excel. split.
  - destruct (match_transactions_first_fit [] [] t1 excel)
      as (_ & _ & _ & Hhit & _).
    apply (Hhit [3%float] 10%float [10.2%float]).
    + reflexivity.
    + intros b [<-|[]]. reflexivity.
    + reflexivity.
  - destruct (match_transactions_first_fit [t1] [] t2 excel)
      as (_ & _ & _ & _ & Hmiss & _).
    apply Hmiss.
    intros b [<-|[<-|[]]]; reflexivity.
Defined.

(** C1, as stated, fails on amounts whose binary64 values are inexact: the
    tabular amount 15.62 and the statement amount 16.12 are 0.50 apart, but
    15.62 + 0.5 rounds to 16.119999999999997, below the double of 16.12, and
    the transaction is reported missing. *)
Lemma within_tolerance_rounding_counterexample :
  let t := mkTransaction (str "01/02/24") (str "SHOP")
             (float_of_numeral (str "16.12")) in
  let r := mkTableRecord (str "01/02/24") (float_of_cents 1562) in
  within_tolerance_cents 1562 1612 = true
  /\ rec_amount r = 15.62%float /\ txn_amount t = 16.12%float
  /\ within_tolerance (rec_amount r) (txn_amount t) = false
  /\ match_transactions [t] [r] = (0, [t]).
Proof.
  intros t r. repeat split; vm_compute; reflexivity.
Qed.

(** C2. For every pair of inputs, [matched] plus the length of [missing] is
    the number of statement transactions, and no tabular record is consumed
    twice: the positions consumed (one per matched transaction) are pairwise
    distinct positions of the tabular list, and the pool that is left is the
    tabular amounts at the other positions. *)
Theorem match_transactions_counts_single_use :
  forall (pdf_txns : list Transaction) (excel_txns : list TableRecord),
    let st := match_loop pdf_txns (match_init excel_txns) in
    match_transactions pdf_txns excel_txns = (matched st, missing st)
    /\ fst (match_transactions pdf_txns excel_txns)
       + length (snd (match_transactions pdf_txns excel_txns))
       = length pdf_txns
    /\ exists consumed : list nat,
         length consumed = matched st
         /\ NoDup consumed
         /\ Forall (fun i => i < length excel_txns) consumed
         /\ available st
            = List.map snd (remaining (List.map rec_amount excel_txns) consumed).
Proof.
  intros pdf_txns excel_txns st. split; [reflexivity|]. split.
  - unfold match_transactions. simpl.
    rewrite match_loop_count. simpl. lia.
  - pose proof (ghost_inv_loop pdf_txns (ghost_inv_init excel_txns))
      as (Hpool & Hnd & Hlt).
    pose proof (erase_loop pdf_txns (g_init excel_txns)) as Herase.
    rewrite erase_init in Herase. fold st in Herase.
    exists (g_consumed (g_loop pdf_txns (g_init excel_txns))).
    rewrite <- Herase. simpl. repeat split.
    + assumption.
    + rewrite length_map in Hlt. assumption.
    + now rewrite Hpool.
Qed.

(** ** NameResolver *)

Section NameResolverFacts.

Lemma text_eqb_eq (a b : text) : text_eqb a b = true <-> a = b.
Proof.
  unfold text_eqb. destruct (list_eq_dec N.eq_dec a b); split; congruence.
Qed.

Lemma text_eqb_neq (a b : text) : text_eqb a b = false <-> a <> b.
Proof.
  unfold text_eqb. destruct (list_eq_dec N.eq_dec a b); split; congruence.
Qed.

(** The first loop returns the first section name whose normal form is the
    upper-cased target. *)
Lemma normalize_available_inl (target_norm : text) (available : list (text * Z))
    (name : text) :
  normalize_available target_norm available = inl name <->
  exists pre pos post,
    available = pre ++ (name, pos) :: post
    /\ normalize_name name = target_norm
    /\ forall q, In q pre -> normalize_name (fst q) <> target_norm.
Proof.
  revert name. induction available as [|[n p] rest IH]; intros name; simpl.
  - split; [discriminate|]. intros (pre & pos & post & H & _).
    destruct pre; discriminate.
  - fold (normalize_name n).
    destruct (text_eqb (normalize_name n) target_norm) eqn:Heq.
    + apply text_eqb_eq in Heq. split.
      * intros [= <-]. exists [], p, rest. repeat split; auto; try (now intros q []).
      * intros (pre & pos & post & H & Hn & Hpre).
        destruct pre as [|q pre]; simpl in H.
        -- congruence.
        -- injection H as <- _. exfalso.
           apply (Hpre (n, p) (or_introl eq_refl)). assumption.
    + apply text_eqb_neq in Heq.
      destruct (normalize_available target_norm rest) as [found|items] eqn:Hrest.
      * split.
        -- intros [= <-]. destruct (proj1 (IH found) eq_refl)
             as (pre & pos & post & -> & Hn & Hpre).
           exists ((n, p) :: pre), pos, post. repeat split; auto.
           intros q [<-|Hq]; [assumption | now apply Hpre].
        -- intros (pre & pos & post & H & Hn & Hpre).
           destruct pre as [|q pre]; simpl in H.
           ++ congruence.
           ++ injection H as <- ->. apply (proj2 (IH name)).
              exists pre, pos, post. repeat split; auto.
              intros q Hq. apply Hpre. now right.
      * split; [discriminate|].
        intros (pre & pos & post & H & Hn & Hpre).
        destruct pre as [|q pre]; simpl in H.
        -- congruence.
        -- injection H as <- ->.
           assert (Hx : inr items = inl name :> text + list norm_item).
           { apply (proj2 (IH name)). exists pre, pos, post. repeat split; auto.
             intros q Hq. apply Hpre. now right. }
           discriminate.
Qed.

(** Without an exact match, [available_norm] lists every section. *)
Lemma normalize_available_inr (target_norm : text) (available : list (text * Z))
    (items : list norm_item) :
  normalize_available target_norm available = inr items ->
  List.map original items = List.map fst available
  /\ List.map normalized items = List.map (fun q => normalize_name (fst q)) available
  /\ forall q, In q available -> normalize_name (fst q) <> target_norm.
Proof.
  revert items. induction available as [|[n p] rest IH]; intros items; simpl.
  - intros [= <-]. repeat split; try (now intros q []).
  - fold (normalize_name n).
    destruct (text_eqb (normalize_name n) target_norm) eqn:Heq; [discriminate|].
    apply text_eqb_neq in Heq.
    destruct (normalize_available target_norm rest) as [found|items'];
      [discriminate|].
    intros [= <-]. destruct (IH items' eq_refl) as (Ho & Hn & Hne).
    simpl. rewrite Ho, Hn. repeat split.
    intros q [<-|Hq]; [assumption | now apply Hne].
Qed.

Lemma In_split_first {A} (P : A -> Prop) (dec : forall x, {P x} + {~ P x})
    (l : list A) (x : A) :
  In x l -> P x ->
  exists pre y post, l = pre ++ y :: post /\ P y /\ forall z, In z pre -> ~ P z.
Proof.
  induction l as [|a l IH]; intros Hin HP; [destruct Hin|].
  destruct (dec a) as [Ha|Ha].
  - exists [], a, l. repeat split; auto.
  - destruct Hin as [->|Hin]; [contradiction|].
    destruct (IH Hin HP) as (pre & y & post & -> & Hy & Hpre).
    exists (a :: pre), y, post. repeat split; auto.
    intros z [<-|Hz]; [assumption | now apply Hpre].
Qed.

(** *** Scores *)

Lemma inner_loop_sum (t_token : text) (name_tokens : list text) (score : nat) :
  fold_left
    (fun score n_token =>
       if prefix_related t_token n_token then score + 2 else score)
    name_tokens score
  = score + 2 * length (filter (prefix_related t_token) name_tokens).
Proof.
  revert score. induction name_tokens as [|n l IH]; intros score; simpl.
  - lia.
  - rewrite IH. destruct (prefix_related t_token n); simpl; lia.
Qed.

Lemma related_pairs_cons (t : text) (ts ns : list text) :
  related_pairs (t :: ts) ns
  = length (filter (prefix_related t) ns) + related_pairs ts ns.
Proof.
  unfold related_pairs. simpl. rewrite filter_app, length_app. f_equal.
  induction ns as [|n l IH]; simpl; [reflexivity|].
  destruct (prefix_related t n); simpl; now rewrite IH.
Qed.

Lemma prefix_loop_sum (target_tokens name_tokens : list text) (score : nat) :
  prefix_loop target_tokens name_tokens score
  = score + 2 * related_pairs target_tokens name_tokens.
Proof.
  unfold prefix_loop. revert score.
  induction target_tokens as [|t l IH]; intros score; simpl.
  - unfold related_pairs. simpl. lia.
  - rewrite IH, inner_loop_sum, related_pairs_cons. lia.
Qed.

Lemma score_of_sum (target_norm : text) (target_tokens : list text) (name_norm : text) :
  score_of target_norm target_tokens name_norm
  = common_tokens target_tokens (set_of (split_ws name_norm)) * 10
    + (if contains name_norm target_norm || contains target_norm name_norm
       then 5 else 0)
    + 2 * related_pairs target_tokens (set_of (split_ws name_norm)).
Proof.
  unfold score_of. rewrite prefix_loop_sum.
  destruct (contains name_norm target_norm || contains target_norm name_norm); lia.
Qed.

Lemma startswith_refl (s : text) : startswith s s = true.
Proof. induction s; simpl; [|rewrite N.eqb_refl]; auto. Qed.

Lemma contains_refl (s : text) : contains s s = true.
Proof. destruct s; simpl; [reflexivity|]. now rewrite N.eqb_refl, startswith_refl. Qed.

Lemma score_of_exact (target_norm : text) (target_tokens : list text) :
  5 <= score_of target_norm target_tokens target_norm.
Proof. rewrite score_of_sum, contains_refl. simpl. lia. Qed.

(** *** Candidates *)

Lemma score_candidates_In (target_norm : text) (target_tokens : list text)
    (items : list norm_item) (c : nat * text) :
  In c (score_candidates target_norm target_tokens items) ->
  In (snd c) (List.map original items).
Proof.
  induction items as [|item rest IH]; simpl; [intros []|].
  destruct (0 <? score_of target_norm target_tokens (normalized item)).
  - intros [<-|Hc]; [now left | right; now apply IH].
  - intros Hc. right. now apply IH.
Qed.

Lemma score_candidates_nil (target_norm : text) (target_tokens : list text)
    (items : list norm_item) :
  (forall n, In n (List.map normalized items) ->
             score_of target_norm target_tokens n = 0) ->
  score_candidates target_norm target_tokens items = [].
Proof.
  induction items as [|item rest IH]; simpl; intros H; [reflexivity|].
  rewrite (H (normalized item) (or_introl eq_refl)). simpl.
  apply IH. intros n Hn. apply H. now right.
Qed.

Lemma max_by_score_In (best : nat * text) (l : list (nat * text)) :
  In (max_by_score best l) (best :: l).
Proof.
  revert best. induction l as [|c l IH]; intros best; simpl; [now left|].
  destruct (fst best <? fst c).
  - right. apply IH.
  - destruct (IH best) as [H|H]; [left | right; right]; assumption.
Qed.

End NameResolverFacts.




Lemma set_of_NoDup (l : list text) : NoDup (set_of l).
Proof. apply NoDup_nodup. Qed.

Lemma set_of_In (l : list text) (x : text) : In x (set_of l) <-> In x l.
Proof. apply nodup_In. Qed.

(** C4, as the code has it. The score is ten times the number of common
    tokens, plus 5 for a substring, plus 2 for every pair of one token of
    the target and one of the candidate of which one is a prefix of the
    other. The pairs are taken over the token sets: a token written several
    times in a name counts once, and a token counts once for each token of
    the other name that it is related to. *)
Theorem score_counts_pairs_of_distinct_tokens :
  forall target_norm name_norm : text,
    let target_tokens := set_of (split_ws target_norm) in
    let name_tokens := set_of (split_ws name_norm) in
    score_of target_norm target_tokens name_norm
      = common_tokens target_tokens name_tokens * 10
        + (if contains name_norm target_norm || contains target_norm name_norm
           then 5 else 0)
        + 2 * related_pairs target_tokens name_tokens
    /\ NoDup target_tokens /\ NoDup name_tokens
    /\ (forall x, In x target_tokens <-> In x (split_ws target_norm))
    /\ (forall x, In x name_tokens <-> In x (split_ws name_norm)).
Proof.
  intros target_norm name_norm target_tokens name_tokens.
  split; [apply score_of_sum|].
  split; [apply set_of_NoDup|]. split; [apply set_of_NoDup|].
  split; intros x; apply set_of_In.
Qed.

(** C4, as stated, fails on a repeated token: against the target [J] the
    name [J J] has two pairs of related tokens when its tokens are counted
    as written, which would add 4, but the score adds 2. *)
Lemma score_repeated_token_counterexample :
  let target_norm := str "J" in
  let name_norm := str "J J" in
  let target_tokens := set_of (split_ws target_norm) in
  related_pairs (split_ws target_norm) (split_ws name_norm) = 2
  /\ score_of target_norm target_tokens name_norm = 10 + 5 + 2
  /\ score_of target_norm target_tokens name_norm
     <> common_tokens target_tokens (set_of (split_ws name_norm)) * 10 + 5
        + 2 * related_pairs (split_ws target_norm) (split_ws name_norm).
Proof.
  split; [reflexivity|]. split; [reflexivity|].
  vm_compute. discriminate.
Qed.

(** C5. The resolver returns nothing exactly when the section list is
    empty; for a list that is not empty it returns the name of one of its
    sections, and the name of the first section when every section scores
    zero. *)
Theorem select_absent_iff_no_sections :
  forall (target : text) (available : list (text * Z)),
    (select_target_section_name target available = None <-> available = [])
    /\ (available <> [] ->
        exists name, select_target_section_name target available = Some name
                     /\ In name (List.map fst available))
    /\ (forall name pos rest,
          available = (name, pos) :: rest ->
          (forall q, In q available ->
             score_of (upper target) (set_of (split_ws (upper target)))
               (normalize_name (fst q)) = 0) ->
          select_target_section_name target available = Some name).
Proof.
  intros target available.
  assert (Hsome : available <> [] ->
            exists name, select_target_section_name target available = Some name
                         /\ In name (List.map fst available)).
  { intros Hne. unfold select_target_section_name.
    destruct (normalize_available (upper target) available) as [found|items] eqn:Hnorm.
    - exists found. split; [reflexivity|].
      apply normalize_available_inl in Hnorm.
      destruct Hnorm as (pre & pos & post & -> & _).
      rewrite map_app. apply in_or_app. right. now left.
    - apply normalize_available_inr in Hnorm. destruct Hnorm as (Horig & _).
      destruct (score_candidates _ _ items) as [|c candidates] eqn:Hcand.
      + destruct available as [|[n p] rest]; [contradiction|].
        exists n. split; [reflexivity | now left].
      + exists (snd (max_by_score c candidates)). split; [reflexivity|].
        rewrite <- Horig.
        apply (score_candidates_In (upper target)
                 (set_of (split_ws (upper target))) items).
        rewrite Hcand. apply max_by_score_In. }
  split; [|split].
  - split.
    + intros Hnone. destruct available as [|q rest]; [reflexivity|].
      destruct Hsome as (name & Hsel & _); [discriminate | congruence].
    + intros ->. reflexivity.
  - exact Hsome.
  - intros name pos rest Havail Hzero. unfold select_target_section_name.
    destruct (normalize_available (upper target) available) as [found|items] eqn:Hnorm.
    + apply normalize_available_inl in Hnorm.
      destruct Hnorm as (pre & p & post & Hsplit & Hn & _).
      assert (Hin : In (found, p) available).
      { rewrite Hsplit. apply in_elt. }
      specialize (Hzero _ Hin). simpl in Hzero. rewrite Hn in Hzero.
      pose proof (score_of_exact (upper target) (set_of (split_ws (upper target)))).
      lia.
    + apply normalize_available_inr in Hnorm. destruct Hnorm as (_ & Hnormed & _).
      rewrite score_candidates_nil.
      * rewrite Havail. reflexivity.
      * intros n Hn. rewrite Hnormed in Hn. apply in_map_iff in Hn.
        destruct Hn as (q & <- & Hq). now apply Hzero.
Qed.

(** No section is related to the target [ZED]: the first one is returned. *)
Lemma select_absent_iff_no_sections_witness :
  select_target_section_name (str "ZED") [(str "ALICE", 10%Z); (str "BOB", 20%Z)]
  = Some (str "ALICE")
  /\ exists name,
       select_target_section_name (str "ZED") [(str "ALICE", 10%Z); (str "BOB", 20%Z)]
       = Some name
       /\ In name (List.map fst [(str "ALICE", 10%Z); (str "BOB", 20%Z)]).
Proof.
  destruct (select_absent_iff_no_sections (str "ZED")
              [(str "ALICE", 10%Z); (str "BOB", 20%Z)])
    as (_ & Hsome & Hfirst).
  split.
  - apply (Hfirst (str "ALICE") 10%Z [(str "BOB", 20%Z)] eq_refl).
    intros q [<-|[<-|[]]]; reflexivity.
  - apply Hsome. discriminate.
Defined.

(** ** The matcher finds what the expressions match *)

Section MatcherFacts.

Lemma last_char_app (prev : option char) (w1 w2 : text) :
  last_char prev (w1 ++ w2) = last_char (last_char prev w1) w2.
Proof. revert prev. induction w1; intros prev; simpl; auto. Qed.

Lemma below_hi_pred (hi : option nat) (n : nat) :
  below_hi hi (S n) <-> hi_allows hi = true /\ below_hi (option_map pred hi) n.
Proof.
  destruct hi as [[|h]|]; simpl; split; try tauto; try lia;
    try (intros [H _]; discriminate);
    try (intros H; split; [reflexivity | lia]).
Qed.

Variable R : Type.

(** Every result of a repetition comes from a number of repetitions within
    the bounds. *)
Lemma rrep_sound (greedy : bool) (p : char -> bool) (k : cont R) (x : R) :
  forall (s : text) (lo : nat) (hi : option nat) (prev : option char) (pos : nat),
    rrep greedy p lo hi prev s pos k = Some x ->
    exists w rest,
      s = w ++ rest /\ forallb p w = true /\ lo <= length w
      /\ below_hi hi (length w)
      /\ k (last_char prev w) rest (pos + length w) = Some x.
Proof.
  induction s as [|c s IH]; intros lo hi prev pos H.
  - simpl in H. destruct lo; [|discriminate].
    exists [], []. simpl. rewrite Nat.add_0_r.
    repeat split; auto.
    + destruct hi; simpl; [lia | exact I].
    + destruct greedy; [assumption|].
      destruct (k prev [] pos); [assumption | discriminate].
  - assert (Hmore :
      (if p c && hi_allows hi
       then rrep greedy p (pred lo) (option_map pred hi) (Some c) s (S pos) k
       else None) = Some x ->
      exists w rest,
        c :: s = w ++ rest /\ forallb p w = true /\ lo <= length w
        /\ below_hi hi (length w)
        /\ k (last_char prev w) rest (pos + length w) = Some x).
    { destruct (p c) eqn:Hp; [|discriminate].
      destruct (hi_allows hi) eqn:Hhi; [|discriminate]. simpl.
      intros Hrec. apply IH in Hrec.
      destruct Hrec as (w & rest & -> & Hall & Hlo & Hbound & Hk).
      exists (c :: w), rest. simpl. rewrite Hp, Hall.
      repeat split; auto.
      - lia.
      - apply below_hi_pred. auto.
      - now rewrite Nat.add_succ_r. }
    assert (Hstop : lo = 0 -> k prev (c :: s) pos = Some x ->
      exists w rest,
        c :: s = w ++ rest /\ forallb p w = true /\ lo <= length w
        /\ below_hi hi (length w)
        /\ k (last_char prev w) rest (pos + length w) = Some x).
    { intros -> Hk. exists [], (c :: s). simpl. rewrite Nat.add_0_r.
      repeat split; auto. destruct hi; simpl; [lia | exact I]. }
    simpl in H. destruct lo as [|lo].
    + destruct greedy.
      * destruct (if p c && hi_allows hi then _ else None) as [y|] eqn:Hm.
        -- apply Hmore. assumption.
        -- apply Hstop; auto.
      * destruct (k prev (c :: s) pos) as [y|] eqn:Hk.
        -- apply Hstop; auto.
        -- apply Hmore. assumption.
    + apply Hmore. assumption.
Qed.

(** A repetition within the bounds after which the continuation succeeds
    makes the matcher succeed. *)
Lemma rrep_complete (greedy : bool) (p : char -> bool) (k : cont R) (x : R) :
  forall (w rest : text) (lo : nat) (hi : option nat) (prev : option char) (pos : nat),
    forallb p w = true -> lo <= length w -> below_hi hi (length w) ->
    k (last_char prev w) rest (pos + length w) = Some x ->
    exists y, rrep greedy p lo hi prev (w ++ rest) pos k = Some y.
Proof.
  induction w as [|c w IH]; intros rest lo hi prev pos Hall Hlo Hbound Hk.
  - simpl in *. rewrite Nat.add_0_r in Hk.
    assert (lo = 0) as -> by lia.
    destruct rest as [|c rest]; simpl.
    + destruct greedy; rewrite Hk; eauto.
    + destruct greedy.
      * destruct (if p c && hi_allows hi then _ else None); eauto.
      * rewrite Hk. eauto.
  - simpl in Hall. apply andb_true_iff in Hall. destruct Hall as [Hp Hall].
    simpl in Hbound. apply below_hi_pred in Hbound. destruct Hbound as [Hhi Hbound].
    simpl in Hk. rewrite Nat.add_succ_r in Hk.
    destruct (IH rest (pred lo) (option_map pred hi) (Some c) (S pos))
      as (y & Hy); auto.
    { simpl in Hlo. lia. }
    simpl. rewrite Hp, Hhi. simpl. rewrite Hy.
    destruct lo as [|lo]; [|eauto].
    destruct greedy; [eauto|].
    destruct (k prev (c :: w ++ rest) pos); eauto.
Qed.

Lemma rmatch_sound (r : regex) :
  forall (prev : option char) (s : text) (pos : nat) (g : option (nat * nat))
         (k : gcont R) (x : R),
    rmatch r prev s pos g k = Some x ->
    exists w rest g',
      s = w ++ rest /\ matches r prev pos w g g'
      /\ k (last_char prev w) rest (pos + length w) g' = Some x.
Proof.
  induction r as [|p| |greedy lo hi p|r1 IH1 r2 IH2|r IH];
    intros prev s pos g k x H; simpl in H.
  - exists [], s, g. simpl. rewrite Nat.add_0_r.
    repeat split; [constructor | assumption].
  - destruct s as [|c s]; [discriminate|].
    destruct (p c) eqn:Hp; [|discriminate].
    exists [c], s, g. simpl. rewrite Nat.add_1_r.
    repeat split; [now constructor | assumption].
  - assert (Hbol : at_bol prev = true /\ k prev s pos g = Some x).
    { destruct prev as [c|]; simpl; [|auto].
      destruct (c =? 10)%N; [auto | discriminate]. }
    destruct Hbol as [Hbol Hk].
    exists [], s, g. simpl. rewrite Nat.add_0_r.
    repeat split; [now constructor | assumption].
  - apply rrep_sound in H.
    destruct H as (w & rest & -> & Hall & Hlo & Hhi & Hk).
    exists w, rest, g. repeat split; [now constructor | assumption].
  - apply IH1 in H. destruct H as (w1 & rest1 & g1 & -> & Hm1 & H).
    apply IH2 in H. destruct H as (w2 & rest & g2 & -> & Hm2 & Hk).
    exists (w1 ++ w2), rest, g2.
    rewrite last_char_app, length_app, Nat.add_assoc, app_assoc.
    repeat split; [econstructor; eassumption | assumption].
  - apply IH in H. destruct H as (w & rest & g1 & -> & Hm & Hk).
    exists w, rest, (Some (pos, pos + length w)).
    repeat split; [econstructor; eassumption | assumption].
Qed.

Lemma rmatch_complete (r : regex) (prev : option char) (pos : nat) (w : text)
    (g g' : option (nat * nat)) :
  matches r prev pos w g g' ->
  forall (rest : text) (k : gcont R) (x : R),
    k (last_char prev w) rest (pos + length w) g' = Some x ->
    exists y, rmatch r prev (w ++ rest) pos g k = Some y.
Proof.
  induction 1 as [prev pos g|p c prev pos g Hp|prev pos g Hbol
                 |greedy lo hi p prev pos w g Hall Hlo Hhi
                 |r1 r2 prev pos w1 w2 g g1 g2 Hm1 IH1 Hm2 IH2
                 |r prev pos w g g1 Hm IH];
    intros rest k x Hk; simpl in *.
  - rewrite Nat.add_0_r in Hk. eauto.
  - rewrite Hp. rewrite Nat.add_1_r in Hk. eauto.
  - rewrite Nat.add_0_r in Hk.
    destruct prev as [c|]; simpl in Hbol; [rewrite Hbol|]; eauto.
  - eapply rrep_complete; eauto.
  - rewrite last_char_app, length_app, Nat.add_assoc in Hk.
    destruct (IH2 rest k x Hk) as (y & Hy).
    rewrite <- app_assoc.
    apply (IH1 (w2 ++ rest)
             (fun prev' s' pos' g' => rmatch r2 prev' s' pos' g' k) y).
    assumption.
  - apply (IH rest (fun prev' s' pos' _ => k prev' s' pos' (Some (pos, pos'))) x).
    assumption.
Qed.

End MatcherFacts.

Section SearchFacts.

(** [match_at] succeeds exactly where the expression matches. *)
Lemma match_at_Some (r : regex) (prev : option char) (s : text) (pos : nat)
    (m : rmatch_obj) :
  match_at r prev s pos = Some m ->
  exists w rest,
    s = w ++ rest /\ matches r prev pos w None (m_group m)
    /\ m_start m = pos /\ m_end m = pos + length w.
Proof.
  unfold match_at. intros H. apply rmatch_sound in H.
  destruct H as (w & rest & g' & -> & Hm & [= <-]).
  exists w, rest. simpl. auto.
Qed.

Lemma match_at_None (r : regex) (prev : option char) (s : text) (pos : nat) :
  match_at r prev s pos = None ->
  forall w rest g, s = w ++ rest -> ~ matches r prev pos w None g.
Proof.
  unfold match_at. intros H w rest g -> Hm.
  destruct (rmatch_complete Hm rest
              (fun _ _ e g => Some {| m_start := pos; m_end := e; m_group := g |})
              eq_refl) as (y & Hy).
  congruence.
Qed.

Lemma char_before_S (prev : option char) (c : char) (s : text) (j : nat) :
  char_before (Some c) s j = char_before prev (c :: s) (S j).
Proof. destruct j; reflexivity. Qed.

(** [search_from] returns the leftmost match. *)
Lemma search_from_Some (r : regex) :
  forall (s : text) (prev : option char) (pos : nat) (m : rmatch_obj),
    search_from r prev s pos = Some m ->
    exists j w rest,
      skipn j s = w ++ rest /\ j <= length s
      /\ matches r (char_before prev s j) (pos + j) w None (m_group m)
      /\ m_start m = pos + j /\ m_end m = pos + j + length w
      /\ forall j', j' < j ->
           forall w' rest' g, skipn j' s = w' ++ rest' ->
             ~ matches r (char_before prev s j') (pos + j') w' None g.
Proof.
  induction s as [|c s IH]; intros prev pos m H; simpl in H.
  - destruct (match_at r prev [] pos) as [m'|] eqn:Hat; [|discriminate].
    injection H as ->. apply match_at_Some in Hat.
    destruct Hat as (w & rest & Hs & Hm & Hst & Hen).
    exists 0, w, rest. simpl. rewrite Nat.add_0_r.
    repeat split; auto; try lia.
  - destruct (match_at r prev (c :: s) pos) as [m'|] eqn:Hat.
    + injection H as ->. apply match_at_Some in Hat.
      destruct Hat as (w & rest & Hs & Hm & Hst & Hen).
      exists 0, w, rest. simpl. rewrite Nat.add_0_r.
      repeat split; auto; try lia.
    + apply IH in H.
      destruct H as (j & w & rest & Hs & Hj & Hm & Hst & Hen & Hleft).
      exists (S j), w, rest. rewrite <- char_before_S.
      rewrite Nat.add_succ_r. simpl.
      repeat split; auto; try lia.
      intros [|j'] Hj' w' rest' g Hs'.
      * simpl in Hs'. rewrite Nat.add_0_r. simpl.
        eapply match_at_None with (rest := rest'); eassumption.
      * rewrite <- char_before_S. rewrite Nat.add_succ_r.
        simpl in Hs'. apply (Hleft j' ltac:(lia) w' rest' g Hs').
Qed.

Lemma search_from_None (r : regex) :
  forall (s : text) (prev : option char) (pos : nat),
    search_from r prev s pos = None ->
    forall j w rest g, j <= length s -> skipn j s = w ++ rest ->
      ~ matches r (char_before prev s j) (pos + j) w None g.
Proof.
  induction s as [|c s IH]; intros prev pos H j w rest g Hj Hs; simpl in H.
  - destruct (match_at r prev [] pos) eqn:Hat; [discriminate|].
    simpl in Hj. assert (j = 0) as -> by lia.
    rewrite Nat.add_0_r. simpl in *.
    eapply match_at_None with (rest := rest); eassumption.
  - destruct (match_at r prev (c :: s) pos) eqn:Hat; [discriminate|].
    destruct j as [|j].
    + rewrite Nat.add_0_r. simpl in *.
      eapply match_at_None with (rest := rest); eassumption.
    + rewrite <- char_before_S. rewrite Nat.add_succ_r. simpl in Hs, Hj.
      apply (IH (Some c) (S pos) H j w rest g); [lia | assumption].
Qed.

(** [re.search]: the leftmost offset at which the expression matches. *)
Lemma re_search_Some (r : regex) (s : text) (m : rmatch_obj) :
  re_search r s = Some m ->
  exists w,
    matches_at r s (m_start m) w (m_group m)
    /\ m_end m = m_start m + length w
    /\ forall j w' g, j < m_start m -> ~ matches_at r s j w' g.
Proof.
  unfold re_search. intros H. apply search_from_Some in H.
  destruct H as (j & w & rest & Hs & Hj & Hm & Hst & Hen & Hleft).
  simpl in Hst, Hen. subst j. exists w. repeat split.
  - exists rest. auto.
  - lia.
  - intros j w' g Hlt (rest' & Hs' & _ & Hm').
    apply (Hleft j Hlt w' rest' g Hs'). assumption.
Qed.

Lemma re_search_None (r : regex) (s : text) :
  re_search r s = None -> forall j w g, ~ matches_at r s j w g.
Proof.
  unfold re_search. intros H j w g (rest & Hs & Hj & Hm).
  apply (@search_from_None r s None 0 H j w rest g Hj Hs). assumption.
Qed.

End SearchFacts.

(** ** Characters *)

Section CharFacts.

Lemma in_range_iff (lo hi c : N) :
  in_range lo hi c = true <-> (lo <= c <= hi)%N.
Proof.
  unfold in_range. rewrite andb_true_iff, !N.leb_le. reflexivity.
Qed.

Lemma in_range_single (a c : N) : in_range a a c = (c =? a)%N.
Proof.
  destruct (c =? a)%N eqn:H.
  - apply N.eqb_eq in H. apply in_range_iff. lia.
  - apply N.eqb_neq in H. apply not_true_iff_false. intros Hr.
    apply in_range_iff in Hr. lia.
Qed.

Lemma in_ranges_iff (l : list (N * N)) (c : char) :
  in_ranges l c = true <-> exists r, In r l /\ (fst r <= c <= snd r)%N.
Proof.
  unfold in_ranges. rewrite existsb_exists. split.
  - intros (r & Hin & Hr). exists r. split; [assumption|]. now apply in_range_iff.
  - intros (r & Hin & Hr). exists r. split; [assumption|]. now apply in_range_iff.
Qed.

(** Two tables of ranges of which no range of the first meets a range of
    the second have no character in common. *)
Lemma in_ranges_disjoint (l1 l2 : list (N * N)) :
  forallb (fun r1 =>
             forallb (fun r2 => (snd r1 <? fst r2)%N || (snd r2 <? fst r1)%N) l2)
    l1 = true ->
  forall c, in_ranges l1 c = true -> in_ranges l2 c = false.
Proof.
  intros Hall c H1. apply not_true_iff_false. intros H2.
  apply in_ranges_iff in H1. destruct H1 as (r1 & Hin1 & Hr1).
  apply in_ranges_iff in H2. destruct H2 as (r2 & Hin2 & Hr2).
  rewrite forallb_forall in Hall. specialize (Hall r1 Hin1).
  rewrite forallb_forall in Hall. specialize (Hall r2 Hin2).
  apply orb_true_iff in Hall. rewrite !N.ltb_lt in Hall. lia.
Qed.

(** The white space, as a table of ranges. *)
Lemma is_space_ranges (c : char) :
  is_space c
  = in_ranges [(9, 13); (28, 32); (133, 133); (160, 160); (5760, 5760);
               (8192, 8202); (8232, 8232); (8233, 8233); (8239, 8239);
               (8287, 8287); (12288, 12288)]%N c.
Proof.
  unfold is_space, in_ranges. cbn [existsb fst snd].
  rewrite !in_range_single, orb_false_r, !orb_assoc. reflexivity.
Qed.

(** No decimal digit is white space. *)
Lemma is_decimal_not_space (c : char) : is_decimal c = true -> is_space c = false.
Proof.
  intros H. rewrite is_space_ranges.
  revert c H. apply in_ranges_disjoint. vm_compute. reflexivity.
Qed.

Lemma decimal_value_range (c : char) : (0 <= decimal_value c <= 9)%Z.
Proof.
  unfold decimal_value.
  destruct (find _ DECIMAL_BLOCKS) as [[lo hi]|]; [|lia].
  pose proof (N.mod_upper_bound (c - lo) 10 ltac:(lia)) as H.
  set (x := ((c - lo) mod 10)%N) in *. clearbody x. lia.
Qed.

Lemma find_first {A} (f : A -> bool) (x : A) (l : list A) :
  f x = true -> find f (x :: l) = Some x.
Proof. intros H. simpl. now rewrite H. Qed.

(** The ASCII digits are decimal digits, with their usual values. *)
Lemma is_digit_decimal (c : char) :
  is_digit c = true ->
  is_decimal c = true /\ decimal_value c = (Z.of_N c - 48)%Z.
Proof.
  intros H. unfold is_digit in H.
  assert (Hblocks : DECIMAL_BLOCKS = (48, 57)%N :: List.tl DECIMAL_BLOCKS)
    by reflexivity.
  split.
  - apply in_ranges_iff. exists (48, 57)%N. split.
    + rewrite Hblocks. now left.
    + now apply in_range_iff.
  - unfold decimal_value. rewrite Hblocks at 1. rewrite find_first by exact H.
    apply in_range_iff in H. rewrite N.mod_small by lia. lia.
Qed.

Lemma ascii_digit_id (c : char) : is_digit c = true -> ascii_digit c = c.
Proof.
  intros H. destruct (is_digit_decimal c H) as [Hd Hv].
  unfold ascii_digit. rewrite Hd, Hv.
  apply in_range_iff in H. lia.
Qed.

Lemma date_shape_text (d : text) : is_date_shape d = true -> is_date_text d = true.
Proof.
  destruct d as [|a [|b [|s1 [|c [|e [|s2 [|f [|h [|x w]]]]]]]]];
    try discriminate.
  simpl. intros H.
  repeat match type of H with
  | _ && _ = true => apply andb_true_iff in H; destruct H as [H ?]
  end.
  repeat match goal with
  | Hd : is_digit _ = true |- _ =>
      apply is_digit_decimal in Hd; destruct Hd as [Hd _]; rewrite Hd
  | Hs : (_ =? 47)%N = true |- _ => rewrite Hs
  end.
  reflexivity.
Qed.

(** An anchor with a date in ASCII digits is an anchor of the closing
    date. *)
Lemma closing_anchor_date (t : text) (i : nat) (d : text) :
  closing_anchor_at t i d -> closing_date_at t i d.
Proof.
  intros (ws & rest & Hs & Hws & Hshape).
  exists ws, rest. split; [assumption|]. split; [assumption|].
  now apply date_shape_text.
Qed.

(** [str.upper] leaves the upper-case ASCII letters and the space as they
    are. *)
Lemma upper_char_upper_or_blank (c : char) :
  is_upper_or_blank c = true -> upper_char c = [c].
Proof.
  unfold is_upper_or_blank, is_upper. intros H.
  apply orb_true_iff in H. destruct H as [H|H].
  - apply in_range_iff in H.
    assert (Hk : exists k, k < 26 /\ c = N.of_nat (65 + k)).
    { exists (N.to_nat c - 65). split; lia. }
    destruct Hk as (k & Hk & ->).
    do 26 (destruct k as [|k]; [vm_compute; reflexivity|]). lia.
  - apply N.eqb_eq in H. subst c. vm_compute. reflexivity.
Qed.

End CharFacts.

(** ** What the expressions of the source match *)

Section PatternFacts.

Ltac inv H := inversion H; subst; clear H.

Lemma matches_cat_inv (r1 r2 : regex) (prev : option char) (pos : nat)
    (w : text) (g g' : option (nat * nat)) :
  matches (RCat r1 r2) prev pos w g g' ->
  exists w1 w2 g1,
    w = w1 ++ w2 /\ matches r1 prev pos w1 g g1
    /\ matches r2 (last_char prev w1) (pos + length w1) w2 g1 g'.
Proof. intros H. inv H. eauto 10. Qed.

Lemma matches_group_inv (r : regex) (prev : option char) (pos : nat)
    (w : text) (g g' : option (nat * nat)) :
  matches (RGroup r) prev pos w g g' ->
  g' = Some (pos, pos + length w) /\ exists g1, matches r prev pos w g g1.
Proof. intros H. inv H. eauto. Qed.

Lemma matches_rep_inv (greedy : bool) (lo : nat) (hi : option nat)
    (p : char -> bool) (prev : option char) (pos : nat)
    (w : text) (g g' : option (nat * nat)) :
  matches (RRep greedy lo hi p) prev pos w g g' ->
  forallb p w = true /\ lo <= length w /\ below_hi hi (length w) /\ g' = g.
Proof. intros H. inv H. auto. Qed.

Lemma matches_set_inv (p : char -> bool) (prev : option char) (pos : nat)
    (w : text) (g g' : option (nat * nat)) :
  matches (RSet p) prev pos w g g' ->
  exists c, w = [c] /\ p c = true /\ g' = g.
Proof. intros H. inv H. eauto. Qed.

Lemma matches_bol_inv (prev : option char) (pos : nat)
    (w : text) (g g' : option (nat * nat)) :
  matches RBol prev pos w g g' -> w = [] /\ at_bol prev = true /\ g' = g.
Proof. intros H. inv H. auto. Qed.

Lemma matches_RLit (s : text) (prev : option char) (pos : nat) (w : text)
    (g g' : option (nat * nat)) :
  matches (RLit s) prev pos w g g' <-> w = s /\ g' = g.
Proof.
  revert prev pos w g g'. induction s as [|c s IH]; intros prev pos w g g'; simpl.
  - split.
    + intros H. inv H. auto.
    + intros [-> ->]. constructor.
  - split.
    + intros H. inv H.
      match goal with
      | H1 : matches (RChar c) _ _ _ _ _ |- _ => unfold RChar in H1; inv H1
      end.
      match goal with
      | H2 : matches (RLit s) _ _ _ _ _ |- _ => apply IH in H2; destruct H2 as [-> ->]
      end.
      match goal with
      | Hc : (c =? _)%N = true |- _ => apply N.eqb_eq in Hc; subst
      end.
      auto.
    + intros [-> ->]. change (c :: s) with ([c] ++ s).
      eapply matches_cat.
      * unfold RChar. constructor. apply N.eqb_refl.
      * apply IH. auto.
Qed.

Lemma matches_rep2 (greedy : bool) (p : char -> bool) (prev : option char)
    (pos : nat) (w : text) (g g' : option (nat * nat)) :
  matches (RRep greedy 2 (Some 2) p) prev pos w g g' <->
  exists a b, w = [a; b] /\ p a = true /\ p b = true /\ g' = g.
Proof.
  split.
  - intros H. inv H.
    match goal with Hhi : below_hi _ _ |- _ => simpl in Hhi end.
    destruct w as [|a [|b [|c w]]]; simpl in *; try lia.
    match goal with
    | Hall : _ && _ = true |- _ =>
        apply andb_true_iff in Hall; destruct Hall as [Ha Hb];
        apply andb_true_iff in Hb; destruct Hb as [Hb _]
    end.
    exists a, b. auto.
  - intros (a & b & -> & Ha & Hb & ->). constructor; simpl.
    + now rewrite Ha, Hb.
    + lia.
    + lia.
Qed.

Lemma matches_date_re (prev : option char) (pos : nat) (w : text)
    (g g' : option (nat * nat)) :
  matches date_re prev pos w g g' <-> is_date_text w = true /\ g' = g.
Proof.
  unfold date_re. split.
  - intros H. inv H.
    repeat match goal with
    | H : matches (RCat _ _) _ _ _ _ _ |- _ => inv H
    | H : matches (RRep _ 2 _ _) _ _ _ _ _ |- _ =>
        apply matches_rep2 in H; destruct H as (? & ? & -> & ? & ? & ->)
    | H : matches (RChar _) _ _ _ _ _ |- _ => unfold RChar in H; inv H
    end.
    repeat match goal with
    | H : (47 =? _)%N = true |- _ => apply N.eqb_eq in H; subst
    end.
    simpl.
    repeat match goal with
    | H : is_decimal _ = true |- _ => rewrite H; clear H
    end.
    auto.
  - intros [Hshape ->].
    destruct w as [|a [|b [|s1 [|c [|e [|s2 [|f [|h [|x w]]]]]]]]];
      try discriminate.
    simpl in Hshape.
    repeat match goal with
    | H : _ && _ = true |- _ => apply andb_true_iff in H; destruct H
    end.
    change [a; b; s1; c; e; s2; f; h]
      with ([a; b] ++ [s1] ++ [c; e] ++ [s2] ++ [f; h]).
    repeat (eapply matches_cat);
      try (apply matches_rep2; eauto 10);
      try (unfold RChar; constructor; rewrite N.eqb_sym; assumption).
Qed.

Lemma is_date_text_length (d : text) : is_date_text d = true -> length d = 8.
Proof.
  destruct d as [|a [|b [|s1 [|c [|e [|s2 [|f [|h [|x w]]]]]]]]];
    simpl; intros H; try discriminate; reflexivity.
Qed.

Lemma matches_closing_date_re (prev : option char) (pos : nat) (w : text)
    (g g' : option (nat * nat)) :
  matches closing_date_re prev pos w g g' <->
  exists ws d,
    w = str "Closing Date" ++ ws ++ d
    /\ forallb is_space ws = true /\ is_date_text d = true
    /\ g' = Some (pos + 12 + length ws, pos + 12 + length ws + 8).
Proof.
  unfold closing_date_re. split.
  - intros H.
    apply matches_cat_inv in H. destruct H as (w1 & w' & g1 & -> & Hlit & H).
    apply matches_cat_inv in H. destruct H as (ws & d & g2 & -> & Hws & H).
    apply matches_RLit in Hlit. destruct Hlit as [-> ->].
    apply matches_rep_inv in Hws. destruct Hws as (Hws & _ & _ & ->).
    apply matches_group_inv in H. destruct H as (-> & g3 & H).
    apply matches_date_re in H. destruct H as [Hshape _].
    eexists _, _. repeat split; eauto.
    rewrite (is_date_text_length _ Hshape).
    change (length (str "Closing Date")) with 12. reflexivity.
  - intros (ws & d & -> & Hws & Hshape & ->).
    eapply matches_cat; [apply matches_RLit; split; reflexivity|].
    eapply matches_cat.
    + constructor; [assumption | lia | exact I].
    + replace (pos + 12 + length ws + 8)
        with (pos + length (str "Closing Date") + length ws + length d)
        by (rewrite (is_date_text_length _ Hshape); reflexivity).
      replace (pos + 12 + length ws)
        with (pos + length (str "Closing Date") + length ws) by reflexivity.
      eapply matches_group. apply matches_date_re. auto.
Qed.

End PatternFacts.

(** ** PeriodExtractor *)

Section PeriodFacts.

Local Open Scope Z_scope.

Lemma is_leap_true (y : Z) :
  is_leap y = true <-> (y mod 4 = 0 /\ (y mod 100 <> 0 \/ y mod 400 = 0)).
Proof.
  unfold is_leap. rewrite andb_true_iff, orb_true_iff, negb_true_iff.
  rewrite !Z.eqb_eq, Z.eqb_neq. reflexivity.
Qed.

(** The quotients of the four divisions of [ord2ymd]. *)
Lemma year_parts (q400 q100 q4 q1 : Z) :
  0 <= q400 -> 0 <= q100 <= 3 -> 0 <= q4 <= 24 -> 0 <= q1 <= 3 ->
  let y := q400 * 400 + 1 + q100 * 100 + q4 * 4 + q1 in
  days_before_year y = 146097 * q400 + 36524 * q100 + 1461 * q4 + 365 * q1
  /\ is_leap y = (q1 =? 3) && (negb (q4 =? 24) || (q100 =? 3)).
Proof.
  intros H400 H100 H4 H1 y. split.
  - unfold days_before_year, y. Z.div_mod_to_equations; lia.
  - destruct (is_leap y) eqn:Hleap.
    + apply is_leap_true in Hleap. symmetry.
      apply andb_true_iff. rewrite orb_true_iff, negb_true_iff, !Z.eqb_eq, Z.eqb_neq.
      unfold y in Hleap. Z.div_mod_to_equations; lia.
    + symmetry. apply not_true_iff_false. intros Hflag.
      apply not_true_iff_false in Hleap. apply Hleap. apply is_leap_true.
      apply andb_true_iff in Hflag.
      rewrite orb_true_iff, negb_true_iff, !Z.eqb_eq, Z.eqb_neq in Hflag.
      unfold y. Z.div_mod_to_equations; lia.
Qed.

(** The month and the day of the day of the year [n] (0 for January 1). *)
Lemma month_parts (n : Z) (leapyear : bool) :
  0 <= n <= 364 ->
  let m0 := Z.shiftr (n + 50) 5 in
  let preceding0 :=
    nth (Z.to_nat m0) DAYS_BEFORE_MONTH 0
    + (if (2 <? m0) && leapyear then 1 else 0) in
  let m := if n <? preceding0 then m0 - 1 else m0 in
  let preceding :=
    if n <? preceding0
    then preceding0 - (nth (Z.to_nat (m0 - 1)) DAYS_IN_MONTH 0
                       + (if (m0 - 1 =? 2) && leapyear then 1 else 0))
    else preceding0 in
  1 <= m <= 12
  /\ preceding
     = nth (Z.to_nat m) DAYS_BEFORE_MONTH 0
       + (if (2 <? m) && leapyear then 1 else 0)
  /\ 1 <= n - preceding + 1
        <= (if (m =? 2) && leapyear then 29 else nth (Z.to_nat m) DAYS_IN_MONTH 0).
Proof.
  intros Hn m0.
  assert (Hm0 : m0 = (n + 50) / 32) by (unfold m0; now rewrite Z.shiftr_div_pow2).
  assert (Hcases : m0 = 1 \/ m0 = 2 \/ m0 = 3 \/ m0 = 4 \/ m0 = 5 \/ m0 = 6
                   \/ m0 = 7 \/ m0 = 8 \/ m0 = 9 \/ m0 = 10 \/ m0 = 11 \/ m0 = 12).
  { rewrite Hm0. Z.div_mod_to_equations. lia. }
  assert (Hrange : 32 * m0 <= n + 50 < 32 * m0 + 32).
  { rewrite Hm0. Z.div_mod_to_equations. lia. }
  clearbody m0. clear Hm0.
  destruct leapyear;
    repeat (destruct Hcases as [->|Hcases]);
    try subst m0; cbv zeta; simpl;
    repeat match goal with
    | |- context [(n <? ?b)] => destruct (Z.ltb_spec n b)
    end; simpl; lia.
Qed.

(** [date.fromordinal] is the inverse of [toordinal], and yields a date of
    the calendar. *)
Lemma ord2ymd_spec (n : Z) :
  1 <= n -> valid_date (ord2ymd n) = true /\ ymd2ord (ord2ymd n) = n.
Proof.
  intros Hn. unfold ord2ymd, DI400Y, DI100Y, DI4Y. cbv zeta.
  set (n0 := n - 1).
  set (q400 := n0 / 146097). set (r400 := n0 mod 146097).
  set (q100 := r400 / 36524). set (r100 := r400 mod 36524).
  set (q4 := r100 / 1461). set (r4 := r100 mod 1461).
  set (q1 := r4 / 365). set (r1 := r4 mod 365).
  assert (H400 : n0 = 146097 * q400 + r400 /\ 0 <= r400 < 146097 /\ 0 <= q400).
  { unfold q400, r400. Z.div_mod_to_equations. lia. }
  assert (H100 : r400 = 36524 * q100 + r100 /\ 0 <= r100 < 36524 /\ 0 <= q100 <= 4).
  { unfold q100, r100. Z.div_mod_to_equations. lia. }
  assert (H4 : r100 = 1461 * q4 + r4 /\ 0 <= r4 < 1461 /\ 0 <= q4 <= 24).
  { unfold q4, r4. Z.div_mod_to_equations. lia. }
  assert (H1 : r4 = 365 * q1 + r1 /\ 0 <= r1 < 365 /\ 0 <= q1 <= 4).
  { unfold q1, r1. Z.div_mod_to_equations. lia. }
  assert (Hn0 : n = n0 + 1) by (unfold n0; lia).
  clearbody n0 q400 r400 q100 r100 q4 r4 q1 r1.
  destruct ((q1 =? 4) || (q100 =? 4)) eqn:Hlast.
  - (* the last day of a leap year *)
    apply orb_true_iff in Hlast. rewrite !Z.eqb_eq in Hlast.
    assert (Hparts : exists p100 p4,
              0 <= p100 <= 3 /\ 0 <= p4 <= 24
              /\ q400 * 400 + 1 + q100 * 100 + q4 * 4 + q1 - 1
                 = q400 * 400 + 1 + p100 * 100 + p4 * 4 + 3
              /\ (negb (p4 =? 24) || (p100 =? 3)) = true
              /\ n = 146097 * q400 + 36524 * p100 + 1461 * p4 + 365 * 3 + 366).
    { destruct (Z.eq_dec q100 4) as [Hq|Hq].
      - exists 3, 24. repeat split; try lia.
      - exists q100, q4.
        assert (q4 <= 23) by lia.
        repeat split; lia. }
    destruct Hparts as (p100 & p4 & Hp100 & Hp4 & -> & Hflag & Hord).
    destruct (@year_parts q400 p100 p4 3 ltac:(lia) Hp100 Hp4 ltac:(lia))
      as [Hdby Hleap].
    cbv zeta in Hdby, Hleap. rewrite Hflag in Hleap. simpl in Hleap.
    unfold valid_date, ymd2ord, days_in_month, days_before_month.
    cbn [year month day]. rewrite Hdby, Hleap.
    replace (if (12 =? 2) && true then 29 else nth (Z.to_nat 12) DAYS_IN_MONTH 0)
      with 31 by reflexivity.
    replace (nth (Z.to_nat 12) DAYS_BEFORE_MONTH 0
             + (if (2 <? 12) && true then 1 else 0)) with 335 by reflexivity.
    split; [reflexivity | lia].
  - apply orb_false_iff in Hlast. rewrite !Z.eqb_neq in Hlast.
    destruct (@year_parts q400 q100 q4 q1 ltac:(lia) ltac:(lia) ltac:(lia) ltac:(lia))
      as [Hdby Hleap].
    cbv zeta in Hdby, Hleap.
    set (y := q400 * 400 + 1 + q100 * 100 + q4 * 4 + q1) in *.
    set (leapyear := (q1 =? 3) && (negb (q4 =? 24) || (q100 =? 3))) in *.
    destruct (@month_parts r1 leapyear ltac:(lia)) as (Hm & Hpre & Hd).
    cbv zeta in Hm, Hpre, Hd.
    set (m0 := Z.shiftr (r1 + 50) 5) in *.
    set (preceding0 := nth (Z.to_nat m0) DAYS_BEFORE_MONTH 0
                       + (if (2 <? m0) && leapyear then 1 else 0)) in *.
    clearbody y leapyear m0 preceding0.
    destruct (r1 <? preceding0);
      unfold valid_date, ymd2ord, days_in_month, days_before_month;
      cbn [year month day]; rewrite Hdby, Hleap, <- Hpre;
      (split; [repeat (apply andb_true_iff; split); apply Z.leb_le; lia | lia]).
Qed.

Lemma days_before_month_nonneg (y m : Z) :
  1 <= m <= 12 -> 0 <= days_before_month y m.
Proof.
  intros Hm. unfold days_before_month.
  assert (Hcases : m = 1 \/ m = 2 \/ m = 3 \/ m = 4 \/ m = 5 \/ m = 6 \/ m = 7
                   \/ m = 8 \/ m = 9 \/ m = 10 \/ m = 11 \/ m = 12) by lia.
  destruct (is_leap y);
    repeat (destruct Hcases as [->|Hcases]); try subst m; simpl; lia.
Qed.

(** Thirty days before a date of the calendar, from the year 2 on, is a
    date of the calendar. *)
Lemma period_check_valid (y m d : Z) :
  2 <= y -> valid_date (mkDate y m d) = true ->
  period_check (mkDate y m d) = true.
Proof.
  intros Hy Hvalid. unfold period_check, date_minus_days.
  assert (Hord : 31 <= ymd2ord (mkDate y m d)).
  { unfold valid_date in Hvalid. cbn [year month day] in Hvalid.
    repeat match type of Hvalid with
    | _ && _ = true => apply andb_true_iff in Hvalid; destruct Hvalid as [Hvalid ?]
    end.
    repeat match goal with
    | H : (_ <=? _) = true |- _ => apply Z.leb_le in H
    end.
    pose proof (@days_before_month_nonneg y m ltac:(lia)) as Hdbm.
    unfold ymd2ord. cbn [year month day].
    assert (365 <= days_before_year y)
      by (unfold days_before_year; Z.div_mod_to_equations; lia).
    lia. }
  destruct (@ord2ymd_spec (ymd2ord (mkDate y m d) - 30) ltac:(lia))
    as [Hstart Hback].
  rewrite Hstart, Hback. apply andb_true_iff. split; [|reflexivity].
  apply Z.eqb_eq. lia.
Qed.

Local Close Scope Z_scope.

(** The value of an ASCII digit between [lo] and [hi]. *)
Lemma decimal_value_ascii (lo hi c : N) :
  (48 <= lo)%N -> (hi <= 57)%N -> in_range lo hi c = true ->
  (Z.of_N lo - 48 <= decimal_value c <= Z.of_N hi - 48)%Z.
Proof.
  intros Hlo Hhi H. apply in_range_iff in H.
  assert (Hd : is_digit c = true) by (apply in_range_iff; lia).
  destruct (is_digit_decimal c Hd) as [_ ->]. lia.
Qed.

(** The month that [%m] reads is between 1 and 12. *)
Lemma month_directive_value (a b : char) :
  month_directive [a; b] = true ->
  (1 <= 10 * (10 * 0 + decimal_value a) + decimal_value b <= 12)%Z.
Proof.
  unfold month_directive. intros H.
  apply orb_true_iff in H.
  destruct H as [H|H]; apply andb_true_iff in H; destruct H as [Ha Hb];
    apply N.eqb_eq in Ha; subst a.
  - pose proof (@decimal_value_ascii 48 50 b ltac:(lia) ltac:(lia) Hb) as Hv.
    change (decimal_value 49) with 1%Z. lia.
  - pose proof (@decimal_value_ascii 49 57 b ltac:(lia) ltac:(lia) Hb) as Hv.
    change (decimal_value 48) with 0%Z. lia.
Qed.

(** The day that [%d] reads is between 1 and 31. *)
Lemma day_directive_value (a b : char) :
  day_directive [a; b] = true ->
  (1 <= 10 * (10 * 0 + decimal_value a) + decimal_value b <= 31)%Z.
Proof.
  unfold day_directive. intros H.
  apply orb_true_iff in H. destruct H as [H|H];
    [apply orb_true_iff in H; destruct H as [H|H]|];
    apply andb_true_iff in H; destruct H as [Ha Hb].
  - apply N.eqb_eq in Ha. subst a.
    pose proof (@decimal_value_ascii 48 49 b ltac:(lia) ltac:(lia) Hb) as Hv.
    change (decimal_value 51) with 3%Z. lia.
  - pose proof (@decimal_value_ascii 49 50 a ltac:(lia) ltac:(lia) Ha) as Hv.
    pose proof (decimal_value_range b). lia.
  - apply N.eqb_eq in Ha. subst a.
    pose proof (@decimal_value_ascii 49 57 b ltac:(lia) ltac:(lia) Hb) as Hv.
    change (decimal_value 48) with 0%Z. lia.
Qed.

(** [strptime] yields a date of the calendar, between 1969 and 2068. *)
Lemma strptime_mdy_valid (d : text) (e : date) :
  is_date_text d = true -> strptime_mdy d = Some e ->
  (1969 <= year e <= 2068)%Z /\ valid_date e = true.
Proof.
  intros Hshape.
  destruct d as [|a [|b [|s1 [|c [|x [|s2 [|f [|h [|z w]]]]]]]]];
    try discriminate.
  unfold strptime_mdy, slice_nat, int_of_decimals. simpl firstn. simpl skipn.
  cbv beta iota delta [fold_left].
  pose proof (decimal_value_range f) as Hf.
  pose proof (decimal_value_range h) as Hh.
  destruct (month_directive [a; b]) eqn:Hmonth; [|discriminate].
  destruct (day_directive [c; x]) eqn:Hday; [|discriminate].
  apply month_directive_value in Hmonth. apply day_directive_value in Hday.
  set (yy := (10 * (10 * 0 + decimal_value f) + decimal_value h)%Z).
  set (m := (10 * (10 * 0 + decimal_value a) + decimal_value b)%Z) in *.
  set (dd := (10 * (10 * 0 + decimal_value c) + decimal_value x)%Z) in *.
  assert (Hyy : (0 <= yy <= 99)%Z) by (unfold yy; lia).
  clearbody yy m dd.
  assert (Hy : (1969 <= (if (yy <=? 68)%Z then 2000 + yy else 1900 + yy) <= 2068)%Z).
  { destruct (Z.leb_spec yy 68); lia. }
  set (y := (if (yy <=? 68)%Z then (2000 + yy)%Z else (1900 + yy)%Z)) in *.
  clearbody y. cbn [andb].
  destruct (dd <=? days_in_month y m)%Z eqn:Hok; [|discriminate].
  intros He. injection He as <-. cbn [year]. split; [assumption|].
  unfold valid_date. cbn [year month day].
  repeat (apply andb_true_iff; split); try assumption; apply Z.leb_le; lia.
Qed.

Lemma is_digit_not_space (c : char) : is_digit c = true -> is_space c = false.
Proof.
  intros H. apply is_decimal_not_space. now apply is_digit_decimal.
Qed.

(** White space followed by a character that is no white space can be read
    in one way only. *)
Lemma space_run_unique (ws1 ws2 x1 x2 : text) (c1 c2 : char) :
  forallb is_space ws1 = true -> forallb is_space ws2 = true ->
  is_space c1 = false -> is_space c2 = false ->
  ws1 ++ c1 :: x1 = ws2 ++ c2 :: x2 ->
  ws1 = ws2 /\ c1 :: x1 = c2 :: x2.
Proof.
  revert ws2. induction ws1 as [|a ws1 IH]; intros [|b ws2] H1 H2 Hc1 Hc2 Heq;
    simpl in *.
  - auto.
  - injection Heq as -> _. apply andb_true_iff in H2. destruct H2. congruence.
  - injection Heq as -> _. apply andb_true_iff in H1. destruct H1. congruence.
  - injection Heq as -> Heq.
    apply andb_true_iff in H1. apply andb_true_iff in H2.
    destruct (IH ws2) as [-> ->]; tauto.
Qed.

Lemma date_text_head (d : text) :
  is_date_text d = true -> exists c x, d = c :: x /\ is_space c = false.
Proof.
  destruct d as [|a [|b [|s1 [|c [|x [|s2 [|f [|h [|z w]]]]]]]]];
    try discriminate.
  simpl. intros H.
  repeat match type of H with
  | _ && _ = true => apply andb_true_iff in H; destruct H as [H ?]
  end.
  eexists _, _. split; [reflexivity|]. now apply is_decimal_not_space.
Qed.

Lemma slice_nat_skipn (t u d rest : text) (i a b : nat) :
  skipn i t = u ++ d ++ rest ->
  a = i + length u -> b = a + length d ->
  slice_nat t a b = d.
Proof.
  intros H -> ->. unfold slice_nat.
  replace (i + length u + length d - (i + length u)) with (length d) by lia.
  rewrite (Nat.add_comm i), <- skipn_skipn, H.
  rewrite skipn_app, skipn_all, Nat.sub_diag. simpl.
  rewrite firstn_app, firstn_all, Nat.sub_diag. simpl. apply app_nil_r.
Qed.

Lemma skipn_nonempty_le {A} (l : list A) (i : nat) (x : A) (rest : list A) :
  skipn i l = x :: rest -> i <= length l.
Proof.
  intros H. destruct (Nat.le_gt_cases i (length l)) as [Hle|Hgt]; [assumption|].
  rewrite skipn_all2 in H by lia. discriminate.
Qed.

(** The expression [closing_date_re] matches exactly at the anchors. *)
Lemma closing_date_matches (t : text) (i : nat) (d : text) :
  closing_date_at t i d ->
  exists w a, matches_at closing_date_re t i w (Some (a, a + 8))
              /\ slice_nat t a (a + 8) = d.
Proof.
  intros (ws & rest & Hs & Hws & Hshape).
  exists (str "Closing Date" ++ ws ++ d), (i + 12 + length ws). split.
  - exists rest. split; [|split].
    + rewrite Hs, <- !app_assoc. reflexivity.
    + pose proof Hs as Hs'. simpl in Hs'. eapply skipn_nonempty_le. exact Hs'.
    + apply matches_closing_date_re. exists ws, d. auto.
  - apply slice_nat_skipn with (u := str "Closing Date" ++ ws) (rest := rest) (i := i).
    + rewrite Hs, <- !app_assoc. reflexivity.
    + rewrite length_app. simpl. lia.
    + now rewrite (is_date_text_length _ Hshape).
Qed.

Lemma matches_closing_date (t : text) (i : nat) (w : text)
    (g : option (nat * nat)) :
  matches_at closing_date_re t i w g ->
  exists a d, g = Some (a, a + 8) /\ slice_nat t a (a + 8) = d
              /\ closing_date_at t i d.
Proof.
  intros (rest & Hs & Hi & Hm).
  apply matches_closing_date_re in Hm.
  destruct Hm as (ws & d & -> & Hws & Hshape & ->).
  exists (i + 12 + length ws), d. split; [reflexivity|].
  rewrite <- !app_assoc in Hs. split.
  - apply slice_nat_skipn with (u := str "Closing Date" ++ ws) (rest := rest) (i := i).
    + rewrite Hs, <- !app_assoc. reflexivity.
    + rewrite length_app. simpl. lia.
    + now rewrite (is_date_text_length _ Hshape).
  - exists ws, rest. auto.
Qed.

(** At one offset there is one anchor at most. *)
Lemma closing_date_unique (t : text) (i : nat) (d1 d2 : text) :
  closing_date_at t i d1 -> closing_date_at t i d2 -> d1 = d2.
Proof.
  intros (ws1 & rest1 & Hs1 & Hws1 & Hshape1) (ws2 & rest2 & Hs2 & Hws2 & Hshape2).
  rewrite Hs1 in Hs2. apply app_inv_head in Hs2.
  destruct (date_text_head _ Hshape1) as (c1 & x1 & Hd1 & Hc1).
  destruct (date_text_head _ Hshape2) as (c2 & x2 & Hd2 & Hc2).
  pose proof (is_date_text_length _ Hshape1) as Hl1.
  pose proof (is_date_text_length _ Hshape2) as Hl2.
  subst d1 d2. simpl in Hs2.
  destruct (@space_run_unique ws1 ws2 (x1 ++ rest1) (x2 ++ rest2) c1 c2
              Hws1 Hws2 Hc1 Hc2 Hs2) as [_ Heq].
  apply (f_equal (firstn 8)) in Heq.
  change (c1 :: x1 ++ rest1) with ((c1 :: x1) ++ rest1) in Heq.
  change (c2 :: x2 ++ rest2) with ((c2 :: x2) ++ rest2) in Heq.
  rewrite !firstn_app, Hl1, Hl2, Nat.sub_diag in Heq. simpl firstn in Heq at 2 4.
  rewrite !app_nil_r in Heq.
  rewrite !firstn_all2 in Heq by lia. exact Heq.
Qed.

End PeriodFacts.

Section PeriodTheorems.

Lemma parse_not_found_iff (pdf_text : text) :
  parse_statement_period pdf_text = inl ClosingDateNotFound <->
  forall i d, ~ closing_date_at pdf_text i d.
Proof.
  unfold parse_statement_period. split.
  - intros H i d Hanchor.
    destruct (re_search closing_date_re pdf_text) as [m|] eqn:Hsearch.
    + destruct (strptime_mdy (group1 pdf_text m)); discriminate.
    + destruct (closing_date_matches Hanchor) as (w & a & Hm & _).
      exact (@re_search_None _ _ Hsearch _ _ _ Hm).
  - intros Hnone.
    destruct (re_search closing_date_re pdf_text) as [m|] eqn:Hsearch;
      [|reflexivity].
    apply re_search_Some in Hsearch. destruct Hsearch as (w & Hm & _).
    apply matches_closing_date in Hm. destruct Hm as (a & d & _ & _ & Hanchor).
    exfalso. exact (Hnone _ _ Hanchor).
Qed.

(** The search stops at the leftmost anchor and captures its date. *)
Lemma search_leftmost_anchor (pdf_text : text) (i : nat) (d : text) :
  closing_date_at pdf_text i d ->
  (forall j d', j < i -> ~ closing_date_at pdf_text j d') ->
  exists m, re_search closing_date_re pdf_text = Some m
            /\ m_start m = i /\ group1 pdf_text m = d.
Proof.
  intros Hanchor Hleft.
  destruct (closing_date_matches Hanchor) as (w & a & Hm & _).
  destruct (re_search closing_date_re pdf_text) as [m|] eqn:Hsearch.
  - exists m. split; [reflexivity|].
    apply re_search_Some in Hsearch.
    destruct Hsearch as (w' & Hm' & _ & Hfirst).
    assert (Hstart : m_start m = i).
    { destruct (Nat.lt_trichotomy (m_start m) i) as [Hlt|[Heq|Hgt]].
      - apply matches_closing_date in Hm'.
        destruct Hm' as (a' & d' & _ & _ & Hanchor').
        exfalso. exact (Hleft _ _ Hlt Hanchor').
      - assumption.
      - exfalso. exact (Hfirst _ _ _ Hgt Hm). }
    split; [assumption|].
    rewrite Hstart in Hm'. apply matches_closing_date in Hm'.
    destruct Hm' as (a' & d' & Hg & Hslice & Hanchor').
    unfold group1. rewrite Hg, Hslice.
    exact (closing_date_unique Hanchor' Hanchor).
  - exfalso. exact (@re_search_None _ _ Hsearch _ _ _ Hm).
Qed.

End PeriodTheorems.

(** C6, as the code has it. The extractor fails with "Closing Date not
    found" exactly when the text has no anchor: "Closing Date", white space
    if any, and a string of two decimal digits, a slash, two decimal digits,
    a slash and two decimal digits (the digits of any script, as [\d] takes
    them). Otherwise the leftmost anchor decides: when [strptime] reads its
    string as a date of the calendar, the result is the pair of the day 30
    days before it and that date; when it does not, the extractor fails
    with the error of [strptime]. The closing date 03/15/24 gives the period
    from 02/14/24 to 03/15/24. *)
Theorem parse_statement_period_spec :
  forall pdf_text : text,
    (parse_statement_period pdf_text = inl ClosingDateNotFound <->
     forall i d, ~ closing_date_at pdf_text i d)
    /\ (forall i d e,
          closing_date_at pdf_text i d ->
          (forall j d', j < i -> ~ closing_date_at pdf_text j d') ->
          strptime_mdy d = Some e ->
          parse_statement_period pdf_text = inr (date_minus_days e 30, e)
          /\ (ymd2ord e - ymd2ord (date_minus_days e 30) = 30)%Z
          /\ valid_date e = true
          /\ valid_date (date_minus_days e 30) = true)
    /\ (forall i d,
          closing_date_at pdf_text i d ->
          (forall j d', j < i -> ~ closing_date_at pdf_text j d') ->
          strptime_mdy d = None ->
          parse_statement_period pdf_text = inl (InvalidDate d))
    /\ (forall i,
          closing_date_at pdf_text i (str "03/15/24") ->
          (forall j d', j < i -> ~ closing_date_at pdf_text j d') ->
          parse_statement_period pdf_text
            = inr (mkDate 2024 2 14, mkDate 2024 3 15)).
Proof.
  intros pdf_text.
  assert (Hmain : forall i d e,
            closing_date_at pdf_text i d ->
            (forall j d', j < i -> ~ closing_date_at pdf_text j d') ->
            strptime_mdy d = Some e ->
            parse_statement_period pdf_text = inr (date_minus_days e 30, e)).
  { intros i d e Hanchor Hleft Hparse.
    destruct (search_leftmost_anchor Hanchor Hleft) as (m & Hsearch & _ & Hgroup).
    unfold parse_statement_period. now rewrite Hsearch, Hgroup, Hparse. }
  split; [apply parse_not_found_iff|]. split; [|split].
  - intros i d e Hanchor Hleft Hparse.
    split; [now apply (Hmain i d e)|].
    assert (Hshape : is_date_text d = true).
    { destruct Hanchor as (ws & rest & _ & _ & Hshape). exact Hshape. }
    destruct (@strptime_mdy_valid d e Hshape Hparse) as [Hyear Hvalid].
    destruct e as [y m dd]. simpl in Hyear.
    pose proof (@period_check_valid y m dd ltac:(lia) Hvalid) as Hcheck.
    unfold period_check in Hcheck. apply andb_true_iff in Hcheck.
    destruct Hcheck as [Hdiff Hstart]. apply Z.eqb_eq in Hdiff. auto.
  - intros i d Hanchor Hleft Hparse.
    destruct (search_leftmost_anchor Hanchor Hleft) as (m & Hsearch & _ & Hgroup).
    unfold parse_statement_period. now rewrite Hsearch, Hgroup, Hparse.
  - intros i Hanchor Hleft.
    apply (Hmain i (str "03/15/24") (mkDate 2024 3 15) Hanchor Hleft).
    reflexivity.
Qed.

(** A statement whose only anchor is [Closing Date 03/15/24]; the same
    date with its year in full-width digits; and a leftmost anchor whose
    digits are no date. *)
Lemma parse_statement_period_spec_witness :
  let pdf_text := str "Acct 1 Closing Date 03/15/24 next" in
  let wide := str "Closing Date 03/15/" ++ [65298; 65300]%N in
  let invalid := str "Closing Date 13/45/24 Closing Date 03/15/24" in
  parse_statement_period pdf_text = inr (mkDate 2024 2 14, mkDate 2024 3 15)
  /\ (ymd2ord (mkDate 2024 3 15) - ymd2ord (mkDate 2024 2 14) = 30)%Z
  /\ parse_statement_period wide = inr (mkDate 2024 2 14, mkDate 2024 3 15)
  /\ parse_statement_period invalid = inl (InvalidDate (str "13/45/24")).
Proof.
  intros pdf_text wide invalid.
  assert (Hanchor : closing_date_at pdf_text 7 (str "03/15/24")).
  { exists [32%N], (str " next"). repeat split. }
  assert (Hleft : forall j d', j < 7 -> ~ closing_date_at pdf_text j d').
  { intros j d' Hj (ws & rest & Hs & _).
    do 7 (destruct j as [|j]; [vm_compute in Hs; discriminate|]). lia. }
  assert (Hwide : closing_date_at wide 0 (str "03/15/" ++ [65298; 65300]%N)).
  { exists [32%N], []. repeat split. }
  assert (Hinvalid : closing_date_at invalid 0 (str "13/45/24")).
  { exists [32%N], (str " Closing Date 03/15/24"). repeat split. }
  assert (Hfirst : forall (t : text) j (d' : text), j < 0 -> ~ closing_date_at t j d')
    by (intros t j d' Hj; lia).
  destruct (parse_statement_period_spec pdf_text) as (_ & Hperiod & _ & Hexample).
  split; [exact (Hexample 7 Hanchor Hleft)|]. split.
  - destruct (Hperiod 7 (str "03/15/24") (mkDate 2024 3 15) Hanchor Hleft eq_refl)
      as (_ & Hdiff & _).
    exact Hdiff.
  - split.
    + destruct (parse_statement_period_spec wide) as (_ & Hperiod' & _).
      destruct (Hperiod' 0 _ (mkDate 2024 3 15) Hwide (Hfirst wide) eq_refl)
        as (Hrun & _).
      exact Hrun.
    + destruct (parse_statement_period_spec invalid) as (_ & _ & Hfail & _).
      exact (Hfail 0 _ Hinvalid (Hfirst invalid) eq_refl).
Defined.

(** C6, as stated, fails when the leftmost anchor carries digits that are
    no date: the text has an anchor with the date 03/15/24 further on, but
    the result is the error of the date parser on 13/45/24, not a period. *)
Lemma parse_statement_period_invalid_date_counterexample :
  let pdf_text := str "Closing Date 13/45/24 Closing Date 03/15/24" in
  closing_date_at pdf_text 22 (str "03/15/24")
  /\ strptime_mdy (str "03/15/24") = Some (mkDate 2024 3 15)
  /\ parse_statement_period pdf_text = inl (InvalidDate (str "13/45/24"))
  /\ parse_statement_period pdf_text <> inl ClosingDateNotFound
  /\ forall period, parse_statement_period pdf_text <> inr period.
Proof.
  intros pdf_text. split; [|split; [|split; [|split]]].
  - exists [32%N], []. repeat split.
  - reflexivity.
  - reflexivity.
  - vm_compute. discriminate.
  - intros period. vm_compute. discriminate.
Qed.

(** ** Successive matches: [re.finditer] *)

Section ScanFacts.

Lemma char_before_skipn (t : text) (pos j : nat) :
  char_before (char_before None t pos) (skipn pos t) j
  = char_before None t (pos + j).
Proof.
  destruct j as [|j].
  - now rewrite Nat.add_0_r.
  - rewrite Nat.add_succ_r. simpl. rewrite nth_error_skipn. reflexivity.
Qed.

(** [search_from], started at offset [pos] of the text [t]. *)
Lemma search_at_Some (r : regex) (t : text) (pos : nat) (m : rmatch_obj) :
  pos <= length t ->
  search_from r (char_before None t pos) (skipn pos t) pos = Some m ->
  exists w,
    matches_at r t (m_start m) w (m_group m)
    /\ pos <= m_start m
    /\ m_end m = m_start m + length w
    /\ forall j w' g, pos <= j -> j < m_start m -> ~ matches_at r t j w' g.
Proof.
  intros Hpos H. apply search_from_Some in H.
  destruct H as (j & w & rest & Hs & Hj & Hm & Hst & Hen & Hleft).
  rewrite length_skipn in Hj.
  exists w. rewrite Hst. repeat split.
  - exists rest. rewrite skipn_skipn in Hs. rewrite char_before_skipn in Hm.
    rewrite (Nat.add_comm pos j). rewrite (Nat.add_comm pos j) in Hm.
    repeat split; [assumption | lia | assumption].
  - lia.
  - lia.
  - intros j' w' g Hle Hlt (rest' & Hs' & Hj' & Hm').
    apply (Hleft (j' - pos) ltac:(lia) w' rest' g).
    + rewrite skipn_skipn. replace (j' - pos + pos) with j' by lia. assumption.
    + rewrite char_before_skipn. replace (pos + (j' - pos)) with j' by lia.
      assumption.
Qed.

Lemma search_at_None (r : regex) (t : text) (pos : nat) :
  search_from r (char_before None t pos) (skipn pos t) pos = None ->
  forall j w g, pos <= j -> ~ matches_at r t j w g.
Proof.
  intros H j w g Hle (rest & Hs & Hj & Hm).
  apply (@search_from_None r _ _ _ H (j - pos) w rest g).
  - rewrite length_skipn. lia.
  - rewrite skipn_skipn. replace (j - pos + pos) with j by lia. assumption.
  - rewrite char_before_skipn. replace (pos + (j - pos)) with j by lia.
    assumption.
Qed.

Lemma matches_at_end (r : regex) (t : text) (i : nat) (w : text)
    (g : option (nat * nat)) :
  matches_at r t i w g -> i + length w <= length t.
Proof.
  intros (rest & Hs & Hi & _).
  apply (f_equal (@length char)) in Hs.
  rewrite length_skipn, length_app in Hs. lia.
Qed.

(** [finditer_from] computes the scan, given fuel for every offset left. *)
Lemma finditer_from_scan (r : regex) (t : text) :
  never_empty r ->
  forall (fuel pos : nat),
    pos <= length t -> length t - pos < fuel ->
    scan r t pos
      (finditer_from fuel r (char_before None t pos) (skipn pos t) pos).
Proof.
  intros Hne. induction fuel as [|fuel IH]; intros pos Hpos Hfuel; [lia|].
  simpl.
  destruct (search_from r (char_before None t pos) (skipn pos t) pos)
    as [m|] eqn:Hsearch.
  - destruct (search_at_Some _ _ Hpos Hsearch) as (w & Hm & Hle & Hend & Hleft).
    assert (Hw : w <> []).
    { destruct Hm as (rest & _ & _ & Hm). exact (Hne _ _ _ _ _ Hm). }
    assert (Hlen : 0 < length w) by (destruct w; [congruence | simpl; lia]).
    pose proof (matches_at_end Hm) as Hbound.
    replace (Nat.max (m_end m) (S (m_start m)) - pos) with (m_end m - pos) by lia.
    rewrite char_before_skipn, skipn_skipn.
    replace (m_end m - pos + pos) with (m_end m) by lia.
    replace (pos + (m_end m - pos)) with (m_end m) by lia.
    apply scan_match with (w := w); try assumption.
    apply IH; lia.
  - apply scan_done. now apply search_at_None.
Qed.

Lemma re_finditer_scan (r : regex) (t : text) :
  never_empty r -> scan r t 0 (re_finditer r t).
Proof.
  intros Hne. unfold re_finditer.
  apply (@finditer_from_scan r t Hne (S (length t)) 0); lia.
Qed.

(** Every match of a scan is a match of the expression. *)
Lemma scan_sound (r : regex) (t : text) (pos : nat) (ms : list rmatch_obj) :
  scan r t pos ms ->
  forall m, In m ms ->
    exists w, matches_at r t (m_start m) w (m_group m)
              /\ pos <= m_start m /\ m_end m = m_start m + length w.
Proof.
  induction 1 as [pos Hnone|pos m w ms Hm Hle Hend Hleft Hscan IH];
    intros m' Hin; [destruct Hin|].
  destruct Hin as [<-|Hin].
  - exists w. auto.
  - destruct (IH m' Hin) as (w' & Hm' & Hle' & Hend').
    exists w'. repeat split; auto. lia.
Qed.

(** A scan is empty exactly when the expression matches nowhere. *)
Lemma scan_nil (r : regex) (t : text) (pos : nat) (ms : list rmatch_obj) :
  scan r t pos ms ->
  (ms = [] <-> forall j w g, pos <= j -> ~ matches_at r t j w g).
Proof.
  destruct 1 as [pos Hnone|pos m w ms Hm Hle Hend Hleft Hscan].
  - tauto.
  - split; [discriminate|]. intros Hnone. exfalso.
    exact (Hnone _ _ _ Hle Hm).
Qed.

(** Every offset at which the expression matches is the start of a match
    of the scan or lies within one. *)
Lemma scan_covers (r : regex) (t : text) (pos : nat) (ms : list rmatch_obj) :
  scan r t pos ms ->
  forall j w g, pos <= j -> matches_at r t j w g ->
    exists m, In m ms /\ m_start m <= j /\ j < m_end m.
Proof.
  induction 1 as [pos Hnone|pos m w ms Hm Hle Hend Hleft Hscan IH];
    intros j w' g Hj Hmj.
  - exfalso. exact (Hnone _ _ _ Hj Hmj).
  - destruct (Nat.lt_ge_cases j (m_start m)) as [Hlt|Hge].
    + exfalso. exact (Hleft _ _ _ Hj Hlt Hmj).
    + destruct (Nat.lt_ge_cases j (m_end m)) as [Hin|Hout].
      * exists m. split; [now left | lia].
      * destruct (IH j w' g Hout Hmj) as (m' & Hin' & Hb).
        exists m'. split; [now right | assumption].
Qed.

(** The matches of a scan follow one another without overlap. *)
Lemma scan_ordered (r : regex) (t : text) (pos : nat) (ms : list rmatch_obj) :
  scan r t pos ms ->
  forall pre m1 m2 post, ms = pre ++ m1 :: m2 :: post -> m_end m1 <= m_start m2.
Proof.
  induction 1 as [pos Hnone|pos m w ms Hm Hle Hend Hleft Hscan IH];
    intros pre m1 m2 post Heq.
  - destruct pre; discriminate.
  - destruct pre as [|p pre]; simpl in Heq.
    + injection Heq as <- ->.
      destruct (scan_sound Hscan m2 (or_introl eq_refl)) as (w2 & _ & Hle2 & _).
      assumption.
    + injection Heq as _ ->. eapply IH. reflexivity.
Qed.

End ScanFacts.

(** ** SectionLocator *)

Section SectionFacts.

Lemma matches_section_re (prev : option char) (pos : nat) (w : text)
    (g g' : option (nat * nat)) :
  matches section_re prev pos w g g' <->
  exists raw ws,
    w = raw ++ ws ++ str "Card Ending"
    /\ is_name_token raw = true
    /\ ws <> [] /\ forallb is_space ws = true
    /\ g' = Some (pos, pos + length raw).
Proof.
  unfold section_re. split.
  - intros H.
    apply matches_cat_inv in H. destruct H as (raw & w' & g1 & -> & Hgrp & H).
    apply matches_cat_inv in H. destruct H as (ws & lit & g2 & -> & Hws & Hlit).
    apply matches_group_inv in Hgrp. destruct Hgrp as (-> & g3 & Hraw).
    apply matches_cat_inv in Hraw.
    destruct Hraw as (c & rest & g4 & -> & Hc & Hrest).
    apply matches_set_inv in Hc. destruct Hc as (c0 & -> & Hc & ->).
    apply matches_rep_inv in Hrest. destruct Hrest as (Hall & Hlo & Hhi & ->).
    apply matches_rep_inv in Hws. destruct Hws as (Hspace & Hone & _ & ->).
    apply matches_RLit in Hlit. destruct Hlit as [-> ->].
    exists ([c0] ++ rest), ws. repeat split; auto.
    + simpl in Hhi.
      change (is_upper c0 && forallb is_upper_or_blank rest
              && (1 <=? length rest) && (length rest <=? 80) = true).
      rewrite Hc, Hall, (proj2 (Nat.leb_le _ _) Hlo), (proj2 (Nat.leb_le _ _) Hhi).
      reflexivity.
    + intros ->. simpl in Hone. lia.
  - intros (raw & ws & -> & Hraw & Hne & Hspace & ->).
    destruct raw as [|c rest]; [discriminate|].
    change (is_upper c && forallb is_upper_or_blank rest
            && (1 <=? length rest) && (length rest <=? 80) = true) in Hraw.
    apply andb_true_iff in Hraw. destruct Hraw as [Hraw Hhi].
    apply andb_true_iff in Hraw. destruct Hraw as [Hraw Hlo].
    apply andb_true_iff in Hraw. destruct Hraw as [Hc Hall].
    apply Nat.leb_le in Hlo. apply Nat.leb_le in Hhi.
    eapply matches_cat.
    + apply matches_group with (g1 := g).
      change (c :: rest) with ([c] ++ rest). eapply matches_cat.
      * constructor. exact Hc.
      * constructor; simpl; auto.
    + eapply matches_cat.
      * constructor; [assumption | | exact I].
        destruct ws; [congruence | simpl; lia].
      * apply matches_RLit. auto.
Qed.

Lemma never_empty_section_re : never_empty section_re.
Proof.
  intros prev pos w g g' H. apply matches_section_re in H.
  destruct H as (raw & ws & -> & Hraw & _). intros Heq.
  destruct raw; [discriminate | discriminate].
Qed.

Lemma is_upper_not_space (c : char) : is_upper c = true -> is_space c = false.
Proof.
  unfold is_upper, is_space, in_range. intros H. apply andb_true_iff in H.
  destruct H as [H1 H2]. apply N.leb_le in H1. apply N.leb_le in H2.
  repeat (apply orb_false_intro);
    try (apply N.eqb_neq; lia);
    apply andb_false_iff; first [left; apply N.leb_gt; lia | right; apply N.leb_gt; lia].
Qed.

Lemma lstrip_length (s : text) : length (lstrip s) <= length s.
Proof.
  induction s as [|c s IH]; simpl; [lia|].
  destruct (is_space c); simpl; lia.
Qed.

Lemma lstrip_keeps (s1 s2 : text) (c : char) :
  is_space c = false -> lstrip (s1 ++ c :: s2) <> [].
Proof.
  intros Hc. induction s1 as [|a s1 IH]; simpl.
  - rewrite Hc. discriminate.
  - destruct (is_space a); [assumption | discriminate].
Qed.

(** The stripped name of a name token has 1 to 81 characters. *)
Lemma strip_name_token_length (raw : text) :
  is_name_token raw = true -> 1 <= length (strip raw) <= 81.
Proof.
  destruct raw as [|c rest]; [discriminate|]. intros H.
  change (is_upper c && forallb is_upper_or_blank rest
          && (1 <=? length rest) && (length rest <=? 80) = true) in H.
  apply andb_true_iff in H. destruct H as [H Hhi].
  apply andb_true_iff in H. destruct H as [H Hlo].
  apply andb_true_iff in H. destruct H as [Hc Hall].
  apply Nat.leb_le in Hhi.
  apply is_upper_not_space in Hc.
  unfold strip. simpl lstrip. rewrite Hc. rewrite length_rev. split.
  - assert (Hne : lstrip (rev (c :: rest)) <> []).
    { simpl. now apply lstrip_keeps. }
    destruct (lstrip (rev (c :: rest))); [congruence | simpl; lia].
  - pose proof (lstrip_length (rev (c :: rest))) as Hle.
    rewrite length_rev in Hle. cbn [length] in Hle. lia.
Qed.

Lemma section_matches_anchor (t : text) (i : nat) (w : text)
    (g : option (nat * nat)) :
  matches_at section_re t i w g <->
  exists raw ws,
    section_anchor_at t i raw ws
    /\ w = raw ++ ws ++ str "Card Ending"
    /\ g = Some (i, i + length raw).
Proof.
  split.
  - intros (rest & Hs & Hi & Hm). apply matches_section_re in Hm.
    destruct Hm as (raw & ws & -> & Hraw & Hne & Hspace & ->).
    exists raw, ws. repeat split; auto.
    exists rest. rewrite Hs, <- !app_assoc. auto.
  - intros (raw & ws & (rest & Hs & Hraw & Hne & Hspace) & -> & ->).
    exists rest. split; [|split].
    + rewrite Hs, <- !app_assoc. reflexivity.
    + destruct raw as [|c raw]; [discriminate|].
      eapply skipn_nonempty_le. rewrite Hs. reflexivity.
    + apply matches_section_re. exists raw, ws. auto.
Qed.

Lemma group1_section (t : text) (i : nat) (raw ws : text) (m : rmatch_obj) :
  section_anchor_at t i raw ws ->
  m_group m = Some (i, i + length raw) ->
  group1 t m = raw.
Proof.
  intros (rest & Hs & _) Hg. unfold group1. rewrite Hg.
  apply slice_nat_skipn with (u := []) (rest := ws ++ str "Card Ending" ++ rest) (i := i).
  - exact Hs.
  - simpl. lia.
  - reflexivity.
Qed.

Lemma sorted_by_offset_id {A} (l : list (A * Z)) :
  (forall pre p1 p2 post, l = pre ++ p1 :: p2 :: post -> (snd p1 <= snd p2)%Z) ->
  sorted_by_offset l = l.
Proof.
  induction l as [|x l IH]; intros Hasc; [reflexivity|].
  unfold sorted_by_offset in *. simpl. rewrite IH.
  - destruct l as [|y l]; [reflexivity|]. simpl.
    assert (Hle : (snd x <= snd y)%Z) by (apply (Hasc [] x y l); reflexivity).
    apply Z.leb_le in Hle. now rewrite Hle.
  - intros pre p1 p2 post Heq. apply (Hasc (x :: pre) p1 p2 post).
    simpl. now rewrite Heq.
Qed.

Lemma map_split2 {A B} (f : A -> B) (l : list A) (pre : list B) (b1 b2 : B)
    (post : list B) :
  List.map f l = pre ++ b1 :: b2 :: post ->
  exists pre' a1 a2 post',
    l = pre' ++ a1 :: a2 :: post' /\ f a1 = b1 /\ f a2 = b2.
Proof.
  revert pre. induction l as [|a l IH]; intros pre Heq.
  - destruct pre; discriminate.
  - destruct pre as [|p pre]; simpl in Heq.
    + destruct l as [|a' l]; [discriminate|]. simpl in Heq.
      injection Heq as <- <- _. exists [], a, a', l. auto.
    + injection Heq as _ Heq. apply IH in Heq.
      destruct Heq as (pre' & a1 & a2 & post' & -> & H1 & H2).
      exists (a :: pre'), a1, a2, post'. auto.
Qed.

Lemma section_scan_ascending (t : text) (ms : list rmatch_obj) (pos : nat) :
  scan section_re t pos ms ->
  forall pre p1 p2 post,
    List.map (section_of t) ms = pre ++ p1 :: p2 :: post -> (snd p1 < snd p2)%Z.
Proof.
  intros Hscan pre p1 p2 post Heq.
  apply map_split2 in Heq.
  destruct Heq as (pre' & m1 & m2 & post' & Hms & <- & <-).
  pose proof (scan_ordered Hscan _ _ _ _ Hms) as Hord.
  destruct (scan_sound Hscan m1) as (w & Hm & _ & Hend).
  { rewrite Hms. apply in_elt. }
  assert (Hw : w <> []).
  { destruct Hm as (rest & _ & _ & Hm). exact (never_empty_section_re Hm). }
  assert (0 < length w) by (destruct w; [congruence | simpl; lia]).
  simpl. lia.
Qed.

Lemma find_cardholder_sections_map (t : text) :
  find_cardholder_sections t
  = List.map (section_of t) (re_finditer section_re t).
Proof.
  unfold find_cardholder_sections. apply sorted_by_offset_id.
  intros pre p1 p2 post Heq. apply Z.lt_le_incl.
  eapply section_scan_ascending; [|exact Heq].
  apply re_finditer_scan. exact never_empty_section_re.
Qed.

Lemma lstrip_suffix (s : text) :
  exists pre, s = pre ++ lstrip s /\ forallb is_space pre = true.
Proof.
  induction s as [|c s (pre & Heq & Hpre)]; simpl.
  - exists []. auto.
  - destruct (is_space c) eqn:Hc.
    + exists (c :: pre). simpl. rewrite Hc, Hpre, <- Heq. auto.
    + exists []. auto.
Qed.

Lemma lstrip_idem (s : text) : lstrip (lstrip s) = lstrip s.
Proof.
  induction s as [|c s IH]; simpl; [reflexivity|].
  destruct (is_space c) eqn:Hc; [assumption|]. simpl. now rewrite Hc.
Qed.

Lemma upper_upper_or_blank (s : text) :
  forallb is_upper_or_blank s = true -> upper s = s.
Proof.
  induction s as [|c s IH]; [reflexivity|]. intros H. simpl in H.
  apply andb_true_iff in H. destruct H as [Hc Hs].
  unfold upper. cbn [flat_map]. change (flat_map upper_char s) with (upper s).
  rewrite (upper_char_upper_or_blank c Hc), (IH Hs). reflexivity.
Qed.

(** The stripped name of a name token is in normal form. *)
Lemma strip_name_token_normal (raw : text) :
  is_name_token raw = true -> normalize_name (strip raw) = strip raw.
Proof.
  destruct raw as [|c rest]; [discriminate|]. intros H.
  change (is_upper c && forallb is_upper_or_blank rest
          && (1 <=? length rest) && (length rest <=? 80) = true) in H.
  apply andb_true_iff in H. destruct H as [H _].
  apply andb_true_iff in H. destruct H as [H _].
  apply andb_true_iff in H. destruct H as [Hc Hall].
  assert (Hraw : forallb is_upper_or_blank (c :: rest) = true).
  { simpl. unfold is_upper_or_blank at 1. now rewrite Hc, Hall. }
  apply is_upper_not_space in Hc.
  assert (Hstrip : strip (c :: rest) = rev (lstrip (rev (c :: rest)))).
  { unfold strip. simpl lstrip. now rewrite Hc. }
  destruct (lstrip_suffix (rev (c :: rest))) as (pre & Heq & Hpre).
  set (v := lstrip (rev (c :: rest))) in *.
  assert (Hv : exists v', v = v' ++ [c]).
  { assert (Hne : v <> []) by (unfold v; simpl; now apply lstrip_keeps).
    destruct (exists_last Hne) as (v' & x & Hvx). exists v'.
    rewrite Hvx in Heq. simpl in Heq. rewrite app_assoc in Heq.
    apply app_inj_tail in Heq. destruct Heq as [_ <-]. exact Hvx. }
  destruct Hv as (v' & Hv).
  rewrite Hstrip. unfold normalize_name.
  assert (Hidem : strip (rev v) = rev v).
  { unfold strip. rewrite Hv at 1. rewrite rev_app_distr. simpl.
    rewrite Hc. change (c :: rev v') with (rev [c] ++ rev v').
    rewrite <- rev_app_distr, <- Hv, rev_involutive.
    unfold v. now rewrite lstrip_idem. }
  rewrite Hidem. apply upper_upper_or_blank.
  rewrite forallb_forall in Hraw. apply forallb_forall. intros x Hx.
  apply Hraw. apply in_rev in Hx. apply in_rev.
  rewrite Heq. apply in_or_app. now right.
Qed.

(** Every name returned by [find_cardholder_sections] is in normal form
    already: stripping and upper-casing leave it as it is. *)
Lemma find_cardholder_sections_normal (t : text) (q : text * Z) :
  In q (find_cardholder_sections t) -> normalize_name (fst q) = fst q.
Proof.
  rewrite find_cardholder_sections_map. intros Hin.
  apply in_map_iff in Hin. destruct Hin as (m & <- & Hin).
  pose proof (re_finditer_scan t never_empty_section_re) as Hscan.
  destruct (scan_sound Hscan m Hin) as (w & Hm & _ & _).
  apply section_matches_anchor in Hm.
  destruct Hm as (raw & ws & Hanchor & -> & Hg).
  unfold section_of. cbn [fst].
  rewrite (group1_section m Hanchor Hg).
  destruct Hanchor as (rest & _ & Hraw & _).
  exact (strip_name_token_normal _ Hraw).
Qed.

(** *** One section at an offset *)

(** Upper-case letters and white space before "Ca" can be read in one way
    only: the small letter tells where they end. *)
Lemma card_ending_unique (u1 u2 x1 x2 : text) :
  forallb (fun c => is_upper c || is_space c) u1 = true ->
  forallb (fun c => is_upper c || is_space c) u2 = true ->
  u1 ++ 67%N :: 97%N :: x1 = u2 ++ 67%N :: 97%N :: x2 ->
  u1 = u2.
Proof.
  revert u2. induction u1 as [|a u1 IH]; intros [|b u2] H1 H2 Heq.
  - reflexivity.
  - exfalso. simpl in Heq. injection Heq as _ Heq.
    destruct u2 as [|b' u2]; simpl in Heq; [discriminate|].
    injection Heq as <- _.
    assert (Hq : is_upper 97 || is_space 97 = true)
      by (apply (proj1 (forallb_forall _ _) H2); right; now left).
    discriminate Hq.
  - exfalso. simpl in Heq. injection Heq as _ Heq.
    destruct u1 as [|a' u1]; simpl in Heq; [discriminate|].
    injection Heq as -> _.
    assert (Hq : is_upper 97 || is_space 97 = true)
      by (apply (proj1 (forallb_forall _ _) H1); right; now left).
    discriminate Hq.
  - simpl in Heq. injection Heq as -> Heq. f_equal.
    simpl in H1, H2.
    apply andb_true_iff in H1. apply andb_true_iff in H2.
    apply (IH u2); tauto.
Qed.

Lemma anchor_chars (raw ws : text) :
  is_name_token raw = true -> forallb is_space ws = true ->
  forallb (fun c => is_upper c || is_space c) (raw ++ ws) = true.
Proof.
  intros Hraw Hws. rewrite forallb_app. apply andb_true_iff. split.
  - destruct raw as [|c rest]; [discriminate|].
    change (is_upper c && forallb is_upper_or_blank rest
            && (1 <=? length rest) && (length rest <=? 80) = true) in Hraw.
    apply andb_true_iff in Hraw. destruct Hraw as [Hraw _].
    apply andb_true_iff in Hraw. destruct Hraw as [Hraw _].
    apply andb_true_iff in Hraw. destruct Hraw as [Hc Hall].
    simpl. rewrite Hc. simpl.
    apply forallb_forall. intros x Hx.
    rewrite forallb_forall in Hall. specialize (Hall x Hx).
    unfold is_upper_or_blank in Hall. apply orb_true_iff in Hall.
    destruct Hall as [Hu|Hb]; [now rewrite Hu|].
    apply N.eqb_eq in Hb. subst x. apply orb_true_r.
  - apply forallb_forall. intros x Hx.
    rewrite forallb_forall in Hws. rewrite (Hws x Hx). apply orb_true_r.
Qed.

Lemma lstrip_app_space (l s : text) :
  forallb is_space l = true -> lstrip (l ++ s) = lstrip s.
Proof.
  induction l as [|c l IH]; intros H; [reflexivity|].
  simpl in H. apply andb_true_iff in H. destruct H as [Hc Hl].
  simpl. rewrite Hc. now apply IH.
Qed.

(** White space after a name token is stripped with it. *)
Lemma strip_name_token_space (raw l : text) :
  is_name_token raw = true -> forallb is_space l = true ->
  strip (raw ++ l) = strip raw.
Proof.
  intros Hraw Hl. destruct raw as [|c rest]; [discriminate|].
  assert (Hc : is_space c = false).
  { apply is_upper_not_space.
    change (is_upper c && forallb is_upper_or_blank rest
            && (1 <=? length rest) && (length rest <=? 80) = true) in Hraw.
    apply andb_true_iff in Hraw. destruct Hraw as [Hraw _].
    apply andb_true_iff in Hraw. destruct Hraw as [Hraw _].
    apply andb_true_iff in Hraw. tauto. }
  unfold strip. cbn [app lstrip]. rewrite Hc.
  change (c :: rest ++ l) with ((c :: rest) ++ l).
  rewrite rev_app_distr, lstrip_app_space; [reflexivity|].
  apply forallb_forall. intros x Hx. apply in_rev in Hx.
  exact (proj1 (forallb_forall _ _) Hl x Hx).
Qed.

(** The sections that can be read at one offset have the same name and
    the same length. *)
Lemma section_anchor_unique (t : text) (i : nat) (raw1 ws1 raw2 ws2 : text) :
  section_anchor_at t i raw1 ws1 -> section_anchor_at t i raw2 ws2 ->
  strip raw1 = strip raw2
  /\ length (raw1 ++ ws1 ++ str "Card Ending")
     = length (raw2 ++ ws2 ++ str "Card Ending").
Proof.
  intros (rest1 & Hs1 & Hraw1 & _ & Hws1) (rest2 & Hs2 & Hraw2 & _ & Hws2).
  rewrite Hs1 in Hs2.
  assert (Heq : raw1 ++ ws1 = raw2 ++ ws2).
  { apply (@card_ending_unique _ _ (str "rd Ending" ++ rest1)
             (str "rd Ending" ++ rest2)).
    - now apply anchor_chars.
    - now apply anchor_chars.
    - rewrite <- !app_assoc. exact Hs2. }
  split.
  - apply app_eq_app in Heq. destruct Heq as (l & [[-> ->]|[-> ->]]).
    + rewrite forallb_app in Hws2. apply andb_true_iff in Hws2.
      now apply strip_name_token_space.
    + rewrite forallb_app in Hws1. apply andb_true_iff in Hws1.
      symmetry. now apply strip_name_token_space.
  - rewrite !app_assoc, !(length_app (_ ++ _)), Heq. reflexivity.
Qed.

(** The scan of [section_re] locates the sections. *)
Lemma scan_located (t : text) (pos : nat) (ms : list rmatch_obj) :
  scan section_re t pos ms -> located t pos (List.map (section_of t) ms).
Proof.
  induction 1 as [pos Hnone|pos m w ms Hm Hle Hend Hleft Hscan IH]; simpl.
  - apply located_none. intros i raw ws Hi Hanchor.
    apply (Hnone i (raw ++ ws ++ str "Card Ending") (Some (i, i + length raw)) Hi).
    apply section_matches_anchor. exists raw, ws. auto.
  - apply section_matches_anchor in Hm.
    destruct Hm as (raw & ws & Hanchor & -> & Hg).
    unfold section_of at 1. rewrite (group1_section m Hanchor Hg).
    apply located_next with (ws := ws); try assumption.
    + intros j raw' ws' Hj Hlt Hanchor'.
      apply (Hleft j (raw' ++ ws' ++ str "Card Ending")
               (Some (j, j + length raw')) Hj Hlt).
      apply section_matches_anchor. exists raw', ws'. auto.
    + rewrite <- Hend. exact IH.
Qed.

(** The sections of a text are located in one way only. *)
Lemma located_unique (t : text) (pos : nat) (l1 l2 : list (text * Z)) :
  located t pos l1 -> located t pos l2 -> l1 = l2.
Proof.
  intros H1. revert l2.
  induction H1 as [pos Hnone|pos i raw ws l Hle Hanchor Hleft Hrest IH];
    intros l2 H2.
  - destruct H2 as [pos Hnone2|pos i raw ws l Hle Hanchor Hleft Hrest];
      [reflexivity|].
    exfalso. exact (Hnone _ _ _ Hle Hanchor).
  - destruct H2 as [pos Hnone2|pos i2 raw2 ws2 l2 Hle2 Hanchor2 Hleft2 Hrest2].
    + exfalso. exact (Hnone2 _ _ _ Hle Hanchor).
    + assert (Hi : i2 = i).
      { destruct (Nat.lt_trichotomy i2 i) as [Hlt|[Heq|Hgt]].
        - exfalso. exact (Hleft _ _ _ Hle2 Hlt Hanchor2).
        - assumption.
        - exfalso. exact (Hleft2 _ _ _ Hle Hgt Hanchor). }
      subst i2.
      destruct (section_anchor_unique Hanchor Hanchor2) as [Hname Hlen].
      rewrite Hname. f_equal. apply IH. rewrite Hlen. exact Hrest2.
Qed.

End SectionFacts.

(** C7, as the code has it. [find_cardholder_sections] returns, in
    ascending order of offset, one pair for each successive (leftmost,
    non-overlapping) place where the text reads: an upper-case letter, 1 to
    80 further upper-case letters or blanks, white space (one character at
    least) and "Card Ending". The pair is that name stripped of surrounding
    white space, 1 to 81 characters long, and the offset of its first
    letter. These pairs and no others: the result is the one list that
    [located] describes, each section being looked for from the end of the
    phrase of the one before, so that a section ends before the next one
    starts. The result is empty exactly when the text has no such place,
    and every such place starts a returned section or lies within the span
    of one. *)
Theorem find_cardholder_sections_spec :
  forall t : text,
    let sections := find_cardholder_sections t in
    located t 0 sections
    /\ (forall l, located t 0 l -> l = sections)
    /\ (forall pre p1 p2 post,
          sections = pre ++ p1 :: p2 :: post -> (snd p1 < snd p2)%Z)
    /\ (forall pre name off p2 post raw ws,
          sections = pre ++ (name, off) :: p2 :: post ->
          section_anchor_at t (Z.to_nat off) raw ws ->
          (off + Z.of_nat (length (raw ++ ws ++ str "Card Ending")) <= snd p2)%Z)
    /\ (forall name off,
          In (name, off) sections ->
          exists raw ws,
            section_anchor_at t (Z.to_nat off) raw ws
            /\ (0 <= off)%Z /\ name = strip raw
            /\ 1 <= length name <= 81)
    /\ (sections = [] <-> forall i raw ws, ~ section_anchor_at t i raw ws)
    /\ (forall i raw ws,
          section_anchor_at t i raw ws ->
          exists name off raw' ws',
            In (name, off) sections
            /\ section_anchor_at t (Z.to_nat off) raw' ws'
            /\ name = strip raw'
            /\ Z.to_nat off <= i
               < Z.to_nat off + length (raw' ++ ws' ++ str "Card Ending")).
Proof.
  intros t sections.
  pose proof (re_finditer_scan t never_empty_section_re) as Hscan.
  assert (Hmap : sections = List.map (section_of t) (re_finditer section_re t))
    by apply find_cardholder_sections_map.
  assert (Hlocated : located t 0 sections).
  { rewrite Hmap. now apply scan_located. }
  assert (Hsound : forall m, In m (re_finditer section_re t) ->
            exists raw ws,
              section_anchor_at t (m_start m) raw ws
              /\ group1 t m = raw
              /\ m_end m = m_start m + length (raw ++ ws ++ str "Card Ending")).
  { intros m Hin. destruct (scan_sound Hscan m Hin) as (w & Hm & _ & Hend).
    apply section_matches_anchor in Hm.
    destruct Hm as (raw & ws & Hanchor & -> & Hg).
    exists raw, ws. repeat split; auto.
    exact (group1_section m Hanchor Hg). }
  split; [exact Hlocated|].
  split; [intros l Hl; exact (located_unique Hl Hlocated)|].
  split; [|split; [|split; [|split]]].
  - intros pre p1 p2 post Heq. rewrite Hmap in Heq.
    exact (section_scan_ascending Hscan _ _ _ _ Heq).
  - intros pre name off p2 post raw ws Heq Hanchor. rewrite Hmap in Heq.
    apply map_split2 in Heq.
    destruct Heq as (pre' & m1 & m2 & post' & Hms & Hp1 & <-).
    injection Hp1 as _ <-. rewrite Nat2Z.id in Hanchor.
    pose proof (scan_ordered Hscan _ _ _ _ Hms) as Hord.
    destruct (Hsound m1) as (raw' & ws' & Hanchor' & _ & Hend).
    { rewrite Hms. apply in_elt. }
    destruct (section_anchor_unique Hanchor Hanchor') as [_ Hlen].
    simpl snd. rewrite Hlen. lia.
  - intros name off Hin. rewrite Hmap in Hin. apply in_map_iff in Hin.
    destruct Hin as (m & Heq & Hin). injection Heq as <- <-.
    destruct (Hsound m Hin) as (raw & ws & Hanchor & Hg & _).
    exists raw, ws. rewrite Nat2Z.id, Hg. repeat split; auto; try lia.
    + destruct Hanchor as (rest & _ & Hraw & _).
      apply (strip_name_token_length _ Hraw).
    + destruct Hanchor as (rest & _ & Hraw & _).
      apply (strip_name_token_length _ Hraw).
  - rewrite Hmap. split.
    + intros Hnil i raw ws Hanchor.
      apply map_eq_nil in Hnil.
      apply (proj1 (scan_nil Hscan) Hnil i (raw ++ ws ++ str "Card Ending")
               (Some (i, i + length raw)) (Nat.le_0_l i)).
      apply section_matches_anchor. exists raw, ws. auto.
    + intros Hnone.
      destruct (re_finditer section_re t) as [|m ms] eqn:Hms; [reflexivity|].
      destruct (Hsound m (or_introl eq_refl)) as (raw & ws & Hanchor & _).
      exfalso. exact (Hnone _ _ _ Hanchor).
  - intros i raw ws Hanchor.
    assert (Hm : matches_at section_re t i (raw ++ ws ++ str "Card Ending")
                   (Some (i, i + length raw))).
    { apply section_matches_anchor. exists raw, ws. auto. }
    destruct (scan_covers Hscan (Nat.le_0_l i) Hm) as (m & Hin & Hle & Hlt).
    destruct (Hsound m Hin) as (raw' & ws' & Hanchor' & Hg & Hend).
    exists (strip raw'), (Z.of_nat (m_start m)), raw', ws'.
    rewrite Nat2Z.id. repeat split; auto; try lia.
    rewrite Hmap. apply in_map_iff. exists m. split; [|assumption].
    unfold section_of. now rewrite Hg.
Qed.

(** C7, as stated, fails on the length of a name: a name of 81 letters
    before " Card Ending" is returned whole; and the one-letter name of
    "J Card Ending" is not returned, since the name token needs a second
    character before the white space. *)
Lemma find_cardholder_sections_length_counterexample :
  let t := repeat 65%N 81 ++ str " Card Ending" in
  find_cardholder_sections t = [(repeat 65%N 81, 0%Z)]
  /\ (exists name off,
        In (name, off) (find_cardholder_sections t) /\ ~ length name <= 80)
  /\ find_cardholder_sections (str "J Card Ending") = [].
Proof.
  intros t.
  assert (Heq : find_cardholder_sections t = [(repeat 65%N 81, 0%Z)])
    by (vm_compute; reflexivity).
  split; [exact Heq|]. split.
  - exists (repeat 65%N 81), 0%Z. rewrite Heq. split; [now left|].
    rewrite repeat_length. lia.
  - vm_compute. reflexivity.
Qed.

(** Two sections of a statement, found by C7; and a text in which a
    second name, [CD], could be read within the span of the one section
    that is located. *)
Lemma find_cardholder_sections_spec_witness :
  let t := str "xx JANET SMITH Card Ending 1 CARLOS DIAZ  Card Ending 2" in
  let t2 := str "AB CD Card Ending" in
  find_cardholder_sections t = [(str "JANET SMITH", 3%Z); (str "CARLOS DIAZ", 29%Z)]
  /\ (exists raw ws,
        section_anchor_at t 3 raw ws /\ str "JANET SMITH" = strip raw
        /\ 1 <= length (str "JANET SMITH") <= 81)
  /\ (3 < 29)%Z
  /\ section_anchor_at t2 3 (str "CD") (str " ")
  /\ (forall l, located t2 0 l -> l = [(str "AB CD", 0%Z)]).
Proof.
  intros t t2.
  assert (Heq : find_cardholder_sections t
                = [(str "JANET SMITH", 3%Z); (str "CARLOS DIAZ", 29%Z)])
    by (vm_compute; reflexivity).
  destruct (find_cardholder_sections_spec t) as (_ & _ & Hasc & _ & Hsound & _).
  split; [exact Heq|]. split; [|split; [|split]].
  - destruct (Hsound (str "JANET SMITH") 3%Z) as (raw & ws & Hanchor & _ & Hname & Hlen).
    + rewrite Heq. now left.
    + exists raw, ws. auto.
  - apply (Hasc [] (str "JANET SMITH", 3%Z) (str "CARLOS DIAZ", 29%Z) []).
    exact Heq.
  - exists []. repeat split. discriminate.
  - intros l Hl.
    destruct (find_cardholder_sections_spec t2) as (_ & Hunique & _).
    rewrite (Hunique l Hl). vm_compute. reflexivity.
Defined.

(** ** TransactionExtractor: the end of the section *)

Section SectionEndFacts.

Lemma matches_RLitI (kw : text) (prev : option char) (pos : nat) (w : text)
    (g g' : option (nat * nat)) :
  matches (RLitI kw) prev pos w g g' <-> ieq_text kw w = true /\ g' = g.
Proof.
  revert prev pos w g g'. induction kw as [|c kw IH]; intros prev pos w g g'; simpl.
  - split.
    + intros H. inversion H; subst. auto.
    + intros [Hw ->]. destruct w; [constructor | discriminate].
  - split.
    + intros H. apply matches_cat_inv in H.
      destruct H as (w1 & w2 & g1 & -> & Hc & H).
      apply matches_set_inv in Hc. destruct Hc as (x & -> & Hx & ->).
      apply IH in H. destruct H as [Hw ->].
      simpl. now rewrite Hx, Hw.
    + intros [Hw ->]. destruct w as [|x w]; [discriminate|].
      apply andb_true_iff in Hw. destruct Hw as [Hx Hw].
      change (x :: w) with ([x] ++ w). eapply matches_cat.
      * constructor. exact Hx.
      * apply IH. auto.
Qed.

Lemma keyword_matches_at (kw : text) (s : text) (p : nat) :
  keyword_line_at kw s p <-> exists w g, matches_at (keyword_re kw) s p w g.
Proof.
  unfold keyword_re. split.
  - intros (Hbol & Hp & ws & k & rest & Hs & Hws & Hk).
    exists (ws ++ k), None, rest. split; [|split; [assumption|]].
    + now rewrite <- app_assoc.
    + change (ws ++ k) with ([] ++ ws ++ k). eapply matches_cat.
      * constructor. exact Hbol.
      * eapply matches_cat.
        -- constructor; [assumption | lia | exact I].
        -- apply matches_RLitI. auto.
  - intros (w & g & rest & Hs & Hp & Hm).
    apply matches_cat_inv in Hm. destruct Hm as (w0 & w' & g1 & -> & Hbol & Hm).
    apply matches_bol_inv in Hbol. destruct Hbol as (-> & Hbol & ->).
    apply matches_cat_inv in Hm. destruct Hm as (ws & k & g2 & -> & Hws & Hk).
    apply matches_rep_inv in Hws. destruct Hws as (Hws & _ & _ & ->).
    apply matches_RLitI in Hk. destruct Hk as [Hk _].
    split; [assumption|]. split; [assumption|].
    exists ws, k, rest. simpl in Hs. rewrite <- app_assoc in Hs. auto.
Qed.

Variable pdf_text : text.
Variable target_pos : Z.
Hypothesis target_pos_positive : (0 < target_pos)%Z.

Let text_after_target := slice pdf_text target_pos None.

Lemma summary_step_inv (done : list text) (summary_pos : Z) (kw : text) :
  summary_inv text_after_target target_pos done summary_pos ->
  summary_inv text_after_target target_pos (done ++ [kw])
    (summary_step text_after_target target_pos summary_pos kw).
Proof.
  intros Hinv. unfold summary_step.
  destruct (re_search (keyword_re kw) text_after_target) as [m|] eqn:Hsearch.
  - apply re_search_Some in Hsearch. destruct Hsearch as (w & Hm & _ & Hleft).
    assert (Hhere : keyword_line_at kw text_after_target (m_start m)).
    { apply keyword_matches_at. eauto. }
    assert (Hbefore : forall p, p < m_start m ->
                        ~ keyword_line_at kw text_after_target p).
    { intros p Hlt Hline. apply keyword_matches_at in Hline.
      destruct Hline as (w' & g' & Hm'). exact (Hleft _ _ _ Hlt Hm'). }
    destruct Hinv as [[-> Hnone]|(p0 & kw0 & -> & Hin0 & Hline0 & Hleast)].
    + simpl. right. exists (m_start m), kw.
      split; [reflexivity|]. split; [apply in_or_app; right; now left|].
      split; [exact Hhere|].
      intros kw' p Hin Hlt. apply in_app_or in Hin.
      destruct Hin as [Hin|[<-|[]]]; [now apply Hnone | now apply Hbefore].
    + replace ((target_pos + Z.of_nat p0 =? -1)%Z) with false
        by (symmetry; apply Z.eqb_neq; lia).
      simpl.
      destruct (target_pos + Z.of_nat (m_start m) <? target_pos + Z.of_nat p0)%Z
        eqn:Hcmp.
      * apply Z.ltb_lt in Hcmp. right. exists (m_start m), kw.
        split; [reflexivity|]. split; [apply in_or_app; right; now left|].
        split; [exact Hhere|].
        intros kw' p Hin Hlt. apply in_app_or in Hin.
        destruct Hin as [Hin|[<-|[]]];
          [apply Hleast; [assumption | lia] | now apply Hbefore].
      * apply Z.ltb_ge in Hcmp. right. exists p0, kw0.
        split; [reflexivity|]. split; [apply in_or_app; now left|].
        split; [exact Hline0|].
        intros kw' p Hin Hlt. apply in_app_or in Hin.
        destruct Hin as [Hin|[<-|[]]]; [now apply Hleast | apply Hbefore; lia].
  - assert (Hnever : forall p, ~ keyword_line_at kw text_after_target p).
    { intros p Hline. apply keyword_matches_at in Hline.
      destruct Hline as (w & g & Hm). exact (@re_search_None _ _ Hsearch _ _ _ Hm). }
    destruct Hinv as [[-> Hnone]|(p0 & kw0 & -> & Hin0 & Hline0 & Hleast)].
    + left. split; [reflexivity|]. intros kw' p Hin. apply in_app_or in Hin.
      destruct Hin as [Hin|[<-|[]]]; [now apply Hnone | apply Hnever].
    + right. exists p0, kw0.
      split; [reflexivity|]. split; [apply in_or_app; now left|].
      split; [exact Hline0|].
      intros kw' p Hin Hlt. apply in_app_or in Hin.
      destruct Hin as [Hin|[<-|[]]]; [now apply Hleast | apply Hnever].
Qed.

Lemma summary_fold_inv (kws done : list text) (summary_pos : Z) :
  summary_inv text_after_target target_pos done summary_pos ->
  summary_inv text_after_target target_pos (done ++ kws)
    (fold_left (summary_step text_after_target target_pos) kws summary_pos).
Proof.
  revert done summary_pos. induction kws as [|kw kws IH]; intros done sp Hinv; simpl.
  - now rewrite app_nil_r.
  - replace (done ++ kw :: kws) with ((done ++ [kw]) ++ kws)
      by (rewrite <- app_assoc; reflexivity).
    apply IH. now apply summary_step_inv.
Qed.

(** The loop over the keywords finds the first marker line of the text
    after the target, the start of that text included. *)
Lemma find_summary_pos_spec :
  (find_summary_pos pdf_text target_pos = (-1)%Z
   /\ forall p, ~ marker_line_at text_after_target p)
  \/ (exists p0,
        find_summary_pos pdf_text target_pos = (target_pos + Z.of_nat p0)%Z
        /\ marker_line_at text_after_target p0
        /\ forall p, p < p0 -> ~ marker_line_at text_after_target p).
Proof.
  unfold find_summary_pos. fold text_after_target.
  destruct (@summary_fold_inv summary_keywords [] (-1)%Z) as
    [[Heq Hnone]|(p0 & kw0 & Heq & Hin0 & Hline0 & Hleast)].
  - left. split; [reflexivity|]. intros kw p [].
  - left. split; [exact Heq|]. intros p (kw & Hin & Hline).
    exact (Hnone kw p Hin Hline).
  - right. exists p0. split; [exact Heq|]. split.
    + exists kw0. auto.
    + intros p Hlt (kw & Hin & Hline). exact (Hleast kw p Hin Hlt Hline).
Qed.

End SectionEndFacts.

Section NextSectionFacts.

Lemma insert_Z_In (x y : Z) (l : list Z) :
  In y (insert_Z x l) <-> y = x \/ In y l.
Proof.
  induction l as [|z l IH]; simpl.
  - intuition.
  - destruct (x <=? z)%Z; simpl; [intuition|]. rewrite IH. intuition.
Qed.

Lemma sorted_Z_In (y : Z) (l : list Z) : In y (sorted_Z l) <-> In y l.
Proof.
  unfold sorted_Z. induction l as [|x l IH]; simpl; [tauto|].
  rewrite insert_Z_In, IH. intuition.
Qed.

Lemma insert_Z_sorted (x : Z) (l : list Z) :
  StronglySorted Z.le l -> StronglySorted Z.le (insert_Z x l).
Proof.
  induction 1 as [|z l Hs IH Hall]; simpl.
  - repeat constructor.
  - destruct (x <=? z)%Z eqn:Hcmp.
    + apply Z.leb_le in Hcmp. constructor; [now constructor|].
      constructor; [assumption|].
      eapply Forall_impl; [|exact Hall]. intros b Hb. simpl in Hb. lia.
    + apply Z.leb_gt in Hcmp. constructor; [assumption|].
      apply Forall_forall. intros b Hb. apply insert_Z_In in Hb.
      destruct Hb as [->|Hb]; [lia|].
      rewrite Forall_forall in Hall. now apply Hall.
Qed.

Lemma sorted_Z_sorted (l : list Z) : StronglySorted Z.le (sorted_Z l).
Proof.
  unfold sorted_Z. induction l as [|x l IH]; simpl; [constructor|].
  now apply insert_Z_sorted.
Qed.

(** In a sorted list, the first item above a threshold is the least one. *)
Lemma find_above_sorted (bound : Z) (l : list Z) :
  StronglySorted Z.le l ->
  match find (fun p => (bound <? p)%Z) l with
  | Some a => In a l /\ (bound < a)%Z
              /\ forall b, In b l -> (bound < b)%Z -> (a <= b)%Z
  | None => forall b, In b l -> (b <= bound)%Z
  end.
Proof.
  induction 1 as [|x l Hs IH Hall]; simpl.
  - intros b [].
  - destruct (bound <? x)%Z eqn:Hcmp.
    + apply Z.ltb_lt in Hcmp. split; [now left|]. split; [assumption|].
      intros b [<-|Hb] _; [lia|]. rewrite Forall_forall in Hall. now apply Hall.
    + apply Z.ltb_ge in Hcmp.
      destruct (find (fun p => (bound <? p)%Z) l) as [a|].
      * destruct IH as (Hin & Hlt & Hleast). split; [now right|].
        split; [assumption|]. intros b [<-|Hb] Hb'; [lia | now apply Hleast].
      * intros b [<-|Hb]; [assumption | now apply IH].
Qed.

(** [next_cardholder_pos] is the least section offset after the target. *)
Lemma find_next_cardholder_pos_spec (sections : list (text * Z)) (target_pos : Z) :
  match find_next_cardholder_pos sections target_pos with
  | Some a => In a (List.map snd sections) /\ (target_pos < a)%Z
              /\ forall b, In b (List.map snd sections) ->
                   (target_pos < b)%Z -> (a <= b)%Z
  | None => forall b, In b (List.map snd sections) -> (b <= target_pos)%Z
  end.
Proof.
  unfold find_next_cardholder_pos.
  pose proof (find_above_sorted target_pos (sorted_Z_sorted (List.map snd sections)))
    as H.
  destruct (find _ (sorted_Z (List.map snd sections))) as [a|].
  - destruct H as (Hin & Hlt & Hleast). rewrite sorted_Z_In in Hin.
    split; [assumption|]. split; [assumption|].
    intros b Hb. apply Hleast. now apply sorted_Z_In.
  - intros b Hb. apply H. now apply sorted_Z_In.
Qed.

End NextSectionFacts.

(** The end of a section, in general (the complement of C8). For a target
    at a positive offset, [section_end] is the offset of the next section
    (the least section offset after the target) or of the first marker line
    after the target, whichever comes first, or the end of the document
    when there is neither; but when the text at the target itself begins
    with a marker, no marker line bounds the section. *)
Lemma section_end_spec :
  forall (pdf_text : text) (sections : list (text * Z)) (target_pos : Z),
    (0 < target_pos)%Z ->
    let text_after_target := slice pdf_text target_pos None in
    let next := find_next_cardholder_pos sections target_pos in
    let document_end := Z.of_nat (length pdf_text) in
    ((forall p, ~ marker_line_at text_after_target p) ->
     section_end pdf_text sections target_pos
     = match next with Some a => a | None => document_end end)
    /\ (forall p0,
          0 < p0 ->
          marker_line_at text_after_target p0 ->
          (forall p, p < p0 -> ~ marker_line_at text_after_target p) ->
          section_end pdf_text sections target_pos
          = match next with
            | Some a => Z.min a (target_pos + Z.of_nat p0)
            | None => (target_pos + Z.of_nat p0)%Z
            end)
    /\ (marker_line_at text_after_target 0 ->
        section_end pdf_text sections target_pos
        = match next with Some a => a | None => document_end end).
Proof.
  intros pdf_text sections target_pos Hpos text_after_target next document_end.
  pose proof (find_next_cardholder_pos_spec sections target_pos) as Hnext.
  fold next in Hnext.
  assert (Hdrop : forall sp,
            find_summary_pos pdf_text target_pos = sp -> (sp <= target_pos)%Z ->
            section_end pdf_text sections target_pos
            = match next with Some a => a | None => document_end end).
  { intros sp Hsp Hle. unfold section_end. fold next. rewrite Hsp.
    rewrite filter_app. simpl.
    replace (target_pos <? sp)%Z with false by (symmetry; apply Z.ltb_ge; lia).
    rewrite app_nil_r. destruct next as [a|]; simpl; [|reflexivity].
    destruct Hnext as (_ & Hlt & _). apply Z.ltb_lt in Hlt. now rewrite Hlt. }
  assert (Hbound : forall sp,
            find_summary_pos pdf_text target_pos = sp -> (target_pos < sp)%Z ->
            section_end pdf_text sections target_pos
            = match next with Some a => Z.min a sp | None => sp end).
  { intros sp Hsp Hlt. unfold section_end. fold next. rewrite Hsp.
    rewrite filter_app. simpl.
    replace (target_pos <? sp)%Z with true by (symmetry; apply Z.ltb_lt; lia).
    destruct next as [a|]; simpl; [|reflexivity].
    destruct Hnext as (_ & Hlta & _). apply Z.ltb_lt in Hlta. now rewrite Hlta. }
  destruct (@find_summary_pos_spec pdf_text target_pos Hpos)
    as [[Hsp Hnone]|(q & Hsp & Hq & Hleast)].
  - split; [|split].
    + intros _. apply (Hdrop _ Hsp). lia.
    + intros p0 _ Hp0 _. exfalso. exact (Hnone p0 Hp0).
    + intros H0. exfalso. exact (Hnone 0 H0).
  - split; [|split].
    + intros Hnone. exfalso. exact (Hnone q Hq).
    + intros p0 Hp0 Hline Hfirst.
      assert (q = p0) as ->.
      { destruct (Nat.lt_trichotomy q p0) as [Hlt|[Heq|Hgt]]; [|assumption|].
        - exfalso. exact (Hfirst q Hlt Hq).
        - exfalso. exact (Hleast p0 Hgt Hline). }
      apply (Hbound _ Hsp). lia.
    + intros H0.
      assert (q = 0) as ->.
      { destruct q as [|q]; [reflexivity|].
        exfalso. apply (Hleast 0); [lia | assumption]. }
      apply (Hdrop _ Hsp). lia.
Qed.

(** C8 on a section whose header itself begins with a summary marker. The
    cardholder FEESER TOM has his anchor at offset 2; a line that begins
    with INTEREST CHARGED starts at offset 52, after the anchor and before
    the end of the document. The keyword FEES matches at the anchor itself,
    [summary_pos] is set to the anchor and never lowered, and the bound is
    then dropped: the section runs to the end of the document (offset 94)
    and the line after the marker is extracted as a transaction. With
    another first letter in the name the section ends at offset 52. *)
Theorem section_end_marker_in_header :
  let nl := [10%N] in
  let glyph := [9674%N] in
  let doc (name : text) :=
    str "X" ++ nl ++ name ++ str " Card Ending 1234 " ++ glyph
    ++ str " 01/02/24 SHOP $5.00" ++ nl
    ++ str "INTEREST CHARGED" ++ nl
    ++ glyph ++ str " 01/31/24 INTEREST $3.00" in
  let feeser := doc (str "FEESER TOM") in
  let feaser := doc (str "FEASER TOM") in
  find_cardholder_sections feeser = [(str "FEESER TOM", 2%Z)]
  /\ slice feeser 51 (Some 68%Z) = nl ++ str "INTEREST CHARGED"
  /\ find_summary_pos feeser 2 = 2%Z
  /\ section_end feeser (find_cardholder_sections feeser) 2 = 94%Z
  /\ Z.of_nat (length feeser) = 94%Z
  /\ List.map txn_merchant
       (extract_transactions_for_name feeser (str "FEESER TOM")
          (find_cardholder_sections feeser))
     = [str "SHOP"; str "INTEREST"]
  /\ section_end feaser (find_cardholder_sections feaser) 2 = 52%Z
  /\ List.map txn_merchant
       (extract_transactions_for_name feaser (str "FEASER TOM")
          (find_cardholder_sections feaser))
     = [str "SHOP"].
Proof.
  intros nl glyph doc feeser feaser.
  repeat split; vm_compute; reflexivity.
Qed.

(** C10. When the offset recorded for the resolved name is 0, the
    extractor returns no transaction, as it does for a name that no section
    carries. *)
Theorem extract_offset_zero_is_empty :
  forall (pdf_text target_name : text) (sections : list (text * Z)),
    lookup_pos target_name sections = Some 0%Z ->
    extract_transactions_for_name pdf_text target_name sections = []
    /\ forall absent : list (text * Z),
         lookup_pos target_name absent = None ->
         extract_transactions_for_name pdf_text target_name absent
         = extract_transactions_for_name pdf_text target_name sections.
Proof.
  intros pdf_text target_name sections Hzero.
  assert (Hempty : extract_transactions_for_name pdf_text target_name sections = []).
  { unfold extract_transactions_for_name. rewrite Hzero. reflexivity. }
  split; [exact Hempty|].
  intros absent Habsent. rewrite Hempty.
  unfold extract_transactions_for_name. now rewrite Habsent.
Qed.

(** A statement that begins with the anchor of its only cardholder: the
    transaction that follows is not extracted. *)
Lemma extract_offset_zero_is_empty_witness :
  let pdf_text :=
    str "JANET SMITH Card Ending 1234 " ++ [9674%N] ++ str " 01/02/24 SHOP $5.00" in
  find_cardholder_sections pdf_text = [(str "JANET SMITH", 0%Z)]
  /\ extract_transactions_for_name pdf_text (str "JANET SMITH")
       (find_cardholder_sections pdf_text) = [].
Proof.
  intros pdf_text.
  assert (Hsections : find_cardholder_sections pdf_text = [(str "JANET SMITH", 0%Z)])
    by (vm_compute; reflexivity).
  split; [exact Hsections|].
  destruct (extract_offset_zero_is_empty pdf_text (str "JANET SMITH")
              (find_cardholder_sections pdf_text)) as [Hempty _].
  - rewrite Hsections. reflexivity.
  - exact Hempty.
Defined.

(** ** TransactionExtractor: the pieces between the delimiters *)

Section SplitFacts.

(** A greedy repetition without upper bound, followed by nothing, takes
    the whole run. *)
Lemma rrep_greedy_run {R} (p : char -> bool) (F : nat -> R) (s : text) :
  forall (lo : nat) (prev : option char) (pos : nat),
    rrep true p lo None prev s pos (fun _ _ e => Some (F e))
    = if lo <=? run_length p s then Some (F (pos + run_length p s)) else None.
Proof.
  induction s as [|c s IH]; intros lo prev pos; simpl.
  - destruct lo; simpl; [now rewrite Nat.add_0_r | reflexivity].
  - destruct (p c) eqn:Hc; simpl.
    + rewrite IH. destruct lo as [|lo]; simpl.
      * now rewrite Nat.add_succ_r.
      * rewrite Nat.add_succ_r. reflexivity.
    + destruct lo; simpl; [now rewrite Nat.add_0_r | reflexivity].
Qed.

(** A text begins with a run of the class, which ends at a character that
    is not of the class or at the end of the text. *)
Lemma run_decompose (p : char -> bool) (s : text) :
  exists d s',
    s = d ++ s' /\ forallb p d = true /\ length d = run_length p s
    /\ forall x r, s' = x :: r -> p x = false.
Proof.
  induction s as [|c s (d & s' & Heq & Hd & Hlen & Hstop)].
  - exists [], []. repeat split. intros x r Hx. discriminate.
  - simpl. destruct (p c) eqn:Hc.
    + exists (c :: d), s'. simpl. rewrite Hc, Hd, <- Heq, Hlen. auto.
    + exists [], (c :: s). repeat split.
      intros x r [= <- _]. exact Hc.
Qed.

(** [p+] at the start of a text. *)
Lemma match_at_plus (p : char -> bool) (prev : option char) (s : text)
    (pos : nat) :
  match_at (RRep true 1 None p) prev s pos
  = if 1 <=? run_length p s
    then Some {| m_start := pos; m_end := pos + run_length p s; m_group := None |}
    else None.
Proof.
  unfold match_at. simpl rmatch.
  exact (rrep_greedy_run p
           (fun e => {| m_start := pos; m_end := e; m_group := None |})
           s 1 prev pos).
Qed.

(** The search for [p+] passes the characters that are not of the class
    and takes the whole run that follows them. *)
Lemma search_plus_Some (p : char -> bool) (s : text) :
  forall (prev : option char) (pos : nat) (m : rmatch_obj),
    search_from (RRep true 1 None p) prev s pos = Some m ->
    exists w d s',
      s = w ++ d ++ s'
      /\ forallb (fun x => negb (p x)) w = true
      /\ d <> [] /\ forallb p d = true
      /\ (forall x r, s' = x :: r -> p x = false)
      /\ m_start m = pos + length w
      /\ m_end m = pos + length w + length d.
Proof.
  induction s as [|c s IH]; intros prev pos m.
  - cbn [search_from]. rewrite match_at_plus. simpl. discriminate.
  - cbn [search_from]. rewrite match_at_plus.
    destruct (run_decompose p (c :: s)) as (d & s' & Heq & Hd & Hlen & Hstop).
    destruct (1 <=? run_length p (c :: s)) eqn:Hrun.
    + intros [= <-]. apply Nat.leb_le in Hrun.
      exists [], d, s'. cbn [m_start m_end length app].
      repeat split; auto; try lia.
      intros ->. cbn [length] in Hlen. lia.
    + intros Hsearch. apply Nat.leb_gt in Hrun.
      assert (Hc : p c = false).
      { simpl in Hrun. destruct (p c); [lia | reflexivity]. }
      destruct (IH (Some c) (S pos) m Hsearch)
        as (w & d' & s'' & -> & Hw & Hne & Hd' & Hstop' & Hst & Hen).
      exists (c :: w), d', s''. simpl. rewrite Hc, Hw.
      repeat split; auto; lia.
Qed.

Lemma search_plus_None (p : char -> bool) (s : text) :
  forall (prev : option char) (pos : nat),
    search_from (RRep true 1 None p) prev s pos = None ->
    forallb (fun x => negb (p x)) s = true.
Proof.
  induction s as [|c s IH]; intros prev pos; [reflexivity|].
  cbn [search_from]. rewrite match_at_plus.
  destruct (1 <=? run_length p (c :: s)) eqn:Hrun; [discriminate|].
  intros Hsearch. apply Nat.leb_gt in Hrun.
  assert (Hc : p c = false).
  { simpl in Hrun. destruct (p c); [lia | reflexivity]. }
  simpl. rewrite Hc. exact (IH _ _ Hsearch).
Qed.

Lemma slice_nat_middle (pre x post : text) :
  slice_nat (pre ++ x ++ post) (length pre) (length pre + length x) = x.
Proof.
  unfold slice_nat.
  rewrite skipn_app, skipn_all, Nat.sub_diag. simpl.
  replace (length pre + length x - length pre) with (length x) by lia.
  rewrite firstn_app, firstn_all, Nat.sub_diag. simpl. apply app_nil_r.
Qed.

(** The pieces that [re.split] cuts at the matches of [p+] are the pieces
    between the maximal runs of the class. *)
Lemma pieces_chunked (p : char -> bool) :
  forall (fuel : nat) (pre cur s : text) (prev : option char),
    length s < fuel ->
    forallb (fun x => negb (p x)) cur = true ->
    chunked p (cur ++ s)
      (pieces (pre ++ cur ++ s) (length pre)
         (finditer_from fuel (RRep true 1 None p) prev s
            (length pre + length cur))).
Proof.
  induction fuel as [|fuel IH]; intros pre cur s prev Hfuel Hcur; [lia|].
  cbn [finditer_from].
  destruct (search_from (RRep true 1 None p) prev s (length pre + length cur))
    as [m|] eqn:Hsearch.
  - destruct (search_plus_Some p s _ _ Hsearch)
      as (w & d & s' & -> & Hw & Hne & Hd & Hstop & Hst & Hen).
    assert (Hlen : 0 < length d) by (destruct d; [congruence | simpl; lia]).
    replace (Nat.max (m_end m) (S (m_start m)) - (length pre + length cur))
      with (length (w ++ d)) by (rewrite length_app; lia).
    rewrite (app_assoc w d s'), skipn_app, skipn_all, Nat.sub_diag.
    cbn [skipn app pieces].
    replace (m_start m) with (length pre + length (cur ++ w))
      by (rewrite length_app; lia).
    replace (pre ++ cur ++ (w ++ d) ++ s') with (pre ++ (cur ++ w) ++ d ++ s')
      by (now rewrite <- !app_assoc).
    rewrite slice_nat_middle.
    replace (cur ++ (w ++ d) ++ s') with ((cur ++ w) ++ d ++ s')
      by (now rewrite <- !app_assoc).
    apply chunked_next; try assumption.
    + rewrite forallb_app, Hcur, Hw. reflexivity.
    + replace (pre ++ (cur ++ w) ++ d ++ s')
        with ((pre ++ cur ++ w ++ d) ++ [] ++ s')
        by (simpl; now rewrite <- !app_assoc).
      replace (m_end m) with (length (pre ++ cur ++ w ++ d))
        by (rewrite !length_app; lia).
      replace (length pre + length cur + length (w ++ d))
        with (length (pre ++ cur ++ w ++ d) + length (@nil char))
        by (rewrite !length_app; simpl; lia).
      apply (IH (pre ++ cur ++ w ++ d) [] s').
      * rewrite !length_app in Hfuel. lia.
      * reflexivity.
  - cbn [pieces].
    assert (Hslice : slice_nat (pre ++ cur ++ s) (length pre)
                       (length (pre ++ cur ++ s)) = cur ++ s).
    { replace (length (pre ++ cur ++ s)) with (length pre + length (cur ++ s))
        by (rewrite !length_app; lia).
      pose proof (slice_nat_middle pre (cur ++ s) []) as H.
      now rewrite app_nil_r in H. }
    rewrite Hslice. apply chunked_last. rewrite forallb_app, Hcur.
    exact (search_plus_None p s _ _ Hsearch).
Qed.

Lemma re_split_chunked (p : char -> bool) (s : text) :
  chunked p s (re_split (RRep true 1 None p) s).
Proof.
  unfold re_split, re_finditer.
  exact (@pieces_chunked p (S (length s)) [] [] s None (Nat.lt_succ_diag_r _) eq_refl).
Qed.

(** A run of a class before a character that is not of the class can be
    read in one way only. *)
Lemma run_unique (q : char -> bool) (u1 u2 x1 x2 : text) :
  forallb q u1 = true -> forallb q u2 = true ->
  (forall c r, x1 = c :: r -> q c = false) ->
  (forall c r, x2 = c :: r -> q c = false) ->
  u1 ++ x1 = u2 ++ x2 ->
  u1 = u2 /\ x1 = x2.
Proof.
  revert u2. induction u1 as [|a u1 IH]; intros [|b u2] H1 H2 Hx1 Hx2 Heq;
    simpl in *.
  - auto.
  - exfalso. apply andb_true_iff in H2. destruct H2 as [Hb _].
    rewrite (Hx1 b (u2 ++ x2) Heq) in Hb. discriminate.
  - exfalso. apply andb_true_iff in H1. destruct H1 as [Ha _].
    rewrite (Hx2 a (u1 ++ x1) (eq_sym Heq)) in Ha. discriminate.
  - injection Heq as -> Heq.
    apply andb_true_iff in H1. apply andb_true_iff in H2.
    destruct (IH u2) as [-> ->]; tauto.
Qed.

(** A text is cut into its pieces in one way only. *)
Lemma chunked_unique (p : char -> bool) (s : text) (cs1 cs2 : list text) :
  chunked p s cs1 -> chunked p s cs2 -> cs1 = cs2.
Proof.
  intros H1. revert cs2.
  assert (Hhead : forall (d s' : text), d <> [] -> forallb p d = true ->
            forall c r, d ++ s' = c :: r -> negb (p c) = false).
  { intros d s' Hne Hd c r Heq. destruct d as [|x d]; [congruence|].
    simpl in Heq, Hd. injection Heq as <- _.
    apply andb_true_iff in Hd. destruct Hd as [-> _]. reflexivity. }
  assert (Hwhole : forall (c d s' w : text),
            forallb (fun x => negb (p x)) w = true ->
            d <> [] -> forallb p d = true -> w <> c ++ d ++ s').
  { intros c d s' w Hw Hne Hd ->. rewrite !forallb_app in Hw.
    apply andb_true_iff in Hw. destruct Hw as [_ Hw].
    apply andb_true_iff in Hw. destruct Hw as [Hw _].
    destruct d as [|x d]; [congruence|]. simpl in Hw, Hd.
    apply andb_true_iff in Hw. apply andb_true_iff in Hd.
    destruct Hw as [Hx _]. destruct Hd as [Hx' _].
    rewrite Hx' in Hx. discriminate. }
  induction H1 as [c Hc|c d s chunks Hc Hne Hd Hstop Hrest IH]; intros cs2 H2.
  - inversion H2 as [c' Hc' Heq|c' d' s' chunks' Hc' Hne' Hd' Hstop' Hrest' Heq];
      subst; [reflexivity|].
    exfalso. exact (@Hwhole c' d' s' _ Hc Hne' Hd' eq_refl).
  - inversion H2 as [c' Hc' Heq|c' d' s' chunks' Hc' Hne' Hd' Hstop' Hrest' Heq].
    + exfalso. subst. exact (@Hwhole c d s _ Hc' Hne Hd eq_refl).
    + destruct (@run_unique (fun x => negb (p x)) c' c (d' ++ s') (d ++ s)
                  Hc' Hc (Hhead d' s' Hne' Hd') (Hhead d s Hne Hd) Heq)
        as [-> Htail].
      destruct (@run_unique p d' d s' s Hd' Hd Hstop' Hstop Htail) as [_ ->].
      f_equal. apply IH. assumption.
Qed.

End SplitFacts.

(** ** TransactionExtractor: the chunks *)

Section ChunkFacts.

Lemma date_matches_at (t : text) (i : nat) (w : text) (g : option (nat * nat)) :
  matches_at date_group_re t i w g <-> date_at t i w /\ g = Some (i, i + 8).
Proof.
  unfold date_group_re. split.
  - intros (rest & Hs & Hi & Hm).
    apply matches_group_inv in Hm. destruct Hm as (-> & g1 & Hm).
    apply matches_date_re in Hm. destruct Hm as [Hshape _].
    rewrite (is_date_text_length _ Hshape). split; [|reflexivity].
    exists rest. auto.
  - intros [(rest & Hs & Hshape) ->].
    exists rest. split; [assumption|]. split.
    + destruct (date_text_head _ Hshape) as (c & x & -> & _).
      eapply skipn_nonempty_le. rewrite Hs. reflexivity.
    + rewrite <- (is_date_text_length _ Hshape).
      eapply matches_group. apply matches_date_re. split; [assumption|reflexivity].
Qed.

Lemma matches_amount_re (prev : option char) (pos : nat) (w : text)
    (g g' : option (nat * nat)) :
  matches amount_re prev pos w g g' <->
  exists n, w = 36%N :: n /\ is_amount_numeral n
            /\ g' = Some (pos + 1, pos + 1 + length n).
Proof.
  unfold amount_re. split.
  - intros H.
    apply matches_cat_inv in H. destruct H as (w1 & n & g1 & -> & Hd & H).
    unfold RChar in Hd. apply matches_set_inv in Hd.
    destruct Hd as (c & -> & Hc & ->). apply N.eqb_eq in Hc. subst c.
    apply matches_group_inv in H. destruct H as (-> & g2 & H).
    apply matches_cat_inv in H. destruct H as (ds & w2 & g3 & -> & Hds & H).
    apply matches_rep_inv in Hds. destruct Hds as (Hall & Hlo & _ & _).
    apply matches_cat_inv in H. destruct H as (w3 & w4 & g4 & -> & Hp & H).
    unfold RChar in Hp. apply matches_set_inv in Hp.
    destruct Hp as (c & -> & Hc & _). apply N.eqb_eq in Hc. subst c.
    apply matches_rep2 in H. destruct H as (a & b & -> & Ha & Hb & _).
    exists (ds ++ [46%N] ++ [a; b]). repeat split.
    exists ds, a, b. repeat split; auto.
    intros ->. simpl in Hlo. lia.
  - intros (n & -> & (ds & a & b & -> & Hne & Hall & Ha & Hb) & ->).
    change (36%N :: ds ++ [46%N; a; b]) with ([36%N] ++ ds ++ [46%N; a; b]).
    eapply matches_cat.
    + unfold RChar. constructor. reflexivity.
    + simpl length. apply matches_group with (g1 := g).
      eapply matches_cat.
      * constructor; [assumption | | exact I].
        destruct ds; [congruence | simpl; lia].
      * change [46%N; a; b] with ([46%N] ++ [a; b]). eapply matches_cat.
        -- unfold RChar. constructor. reflexivity.
        -- apply matches_rep2. exists a, b. auto.
Qed.

Lemma never_empty_amount_re : never_empty amount_re.
Proof.
  intros prev pos w g g' H. apply matches_amount_re in H.
  destruct H as (n & -> & _). discriminate.
Qed.

Lemma amount_matches_at (t : text) (j : nat) (w : text) (g : option (nat * nat)) :
  matches_at amount_re t j w g <->
  exists n, amount_at t j n /\ w = 36%N :: n
            /\ g = Some (j + 1, j + 1 + length n).
Proof.
  split.
  - intros (rest & Hs & Hj & Hm). apply matches_amount_re in Hm.
    destruct Hm as (n & -> & Hn & ->). exists n. repeat split; auto.
    exists rest. auto.
  - intros (n & (rest & Hs & Hn) & -> & ->).
    exists rest. split; [assumption|]. split.
    + eapply skipn_nonempty_le. exact Hs.
    + apply matches_amount_re. exists n. auto.
Qed.

(** No character of a numeral is a dollar sign. *)
Lemma amount_numeral_no_dollar (n : text) :
  is_amount_numeral n -> ~ In 36%N n.
Proof.
  intros (ds & a & b & -> & _ & Hall & Ha & Hb) Hin.
  apply in_app_or in Hin. destruct Hin as [Hin|Hin].
  - rewrite forallb_forall in Hall. apply Hall in Hin. discriminate.
  - destruct Hin as [H|[->|[->|[]]]];
      [discriminate | vm_compute in Ha | vm_compute in Hb]; discriminate.
Qed.

Lemma skipn_head_In {A} (l rest : list A) (k : nat) (c : A) (tl : list A) :
  k < length l -> skipn k (l ++ rest) = c :: tl -> In c l.
Proof.
  revert k. induction l as [|x l IH]; intros k Hk Hs; simpl in Hk; [lia|].
  destruct k as [|k]; simpl in Hs.
  - injection Hs as -> _. now left.
  - right. apply (IH k); [lia | assumption].
Qed.

(** An amount that starts within the span of another starts where the other
    does. *)
Lemma amount_spans_disjoint (t : text) (j j' : nat) (n n' : text) :
  amount_at t j n -> amount_at t j' n' ->
  j <= j' -> j' < j + S (length n) -> j' = j.
Proof.
  intros (rest & Hs & Hn) (rest' & Hs' & _) Hle Hlt.
  destruct (Nat.eq_dec j' j) as [|Hneq]; [assumption|]. exfalso.
  apply (amount_numeral_no_dollar Hn).
  replace j' with ((j' - j - 1) + 1 + j) in Hs' by lia.
  rewrite <- !skipn_skipn, Hs in Hs'. simpl in Hs'.
  apply (@skipn_head_In _ n rest (j' - j - 1) 36%N (n' ++ rest')); [lia|].
  exact Hs'.
Qed.

Lemma last_opt_In {A} (l : list A) (x : A) : last_opt l = Some x -> In x l.
Proof.
  unfold last_opt. intros H. apply in_rev.
  destruct (rev l) as [|y l']; [discriminate|].
  injection H as ->. now left.
Qed.

Lemma last_opt_None {A} (l : list A) : last_opt l = None -> l = [].
Proof.
  unfold last_opt. intros H.
  destruct (rev l) as [|y l'] eqn:Hrev; [|discriminate].
  apply (f_equal (@rev A)) in Hrev. now rewrite rev_involutive in Hrev.
Qed.

Lemma last_opt_cons {A} (x y : A) (l : list A) :
  last_opt (x :: y :: l) = last_opt (y :: l).
Proof.
  unfold last_opt. simpl.
  destruct (rev l) as [|z l']; reflexivity.
Qed.

(** The last match of a scan starts rightmost. *)
Lemma scan_last (r : regex) (t : text) (pos : nat) (ms : list rmatch_obj) :
  scan r t pos ms ->
  forall m, last_opt ms = Some m ->
    forall m', In m' ms -> m_start m' <= m_start m.
Proof.
  induction 1 as [pos Hnone|pos m0 w ms Hm Hle Hend Hleft Hscan IH];
    intros m Hlast m' Hin; [destruct Hin|].
  destruct ms as [|m1 ms].
  - injection Hlast as <-. destruct Hin as [<-|[]]. lia.
  - rewrite last_opt_cons in Hlast. destruct Hin as [<-|Hin].
    + destruct (scan_sound Hscan m (last_opt_In _ Hlast)) as (w' & _ & Hpos & _).
      lia.
    + exact (IH m Hlast m' Hin).
Qed.

End ChunkFacts.

Section ChunkTheorems.

(** The search for a date finds the first date of the chunk. *)
Lemma date_search_Some (ch : text) (md : rmatch_obj) :
  re_search date_group_re ch = Some md ->
  exists d,
    date_at ch (m_start md) d
    /\ (forall i' d', i' < m_start md -> ~ date_at ch i' d')
    /\ group1 ch md = d /\ m_end md = m_start md + 8.
Proof.
  intros H. apply re_search_Some in H. destruct H as (w & Hm & Hend & Hleft).
  apply date_matches_at in Hm. destruct Hm as [Hdate Hg].
  exists w. split; [assumption|]. split; [|split].
  - intros i' d' Hlt Hd.
    apply (Hleft i' d' (Some (i', i' + 8)) Hlt).
    apply date_matches_at. auto.
  - unfold group1. rewrite Hg. destruct Hdate as (rest & Hs & Hshape).
    apply slice_nat_skipn with (u := []) (rest := rest) (i := m_start md).
    + exact Hs.
    + simpl. lia.
    + now rewrite (is_date_text_length _ Hshape).
  - destruct Hdate as (rest & _ & Hshape).
    now rewrite Hend, (is_date_text_length _ Hshape).
Qed.

Lemma date_search_None (ch : text) :
  re_search date_group_re ch = None -> forall i d, ~ date_at ch i d.
Proof.
  intros H i d Hd.
  apply (@re_search_None _ _ H i d (Some (i, i + 8))).
  apply date_matches_at. auto.
Qed.

(** The last item of [m_amt] is the rightmost amount of the chunk. *)
Lemma amount_last_Some (ch : text) (ma : rmatch_obj) :
  last_opt (re_finditer amount_re ch) = Some ma ->
  exists n,
    amount_at ch (m_start ma) n
    /\ (forall j' n', amount_at ch j' n' -> j' <= m_start ma)
    /\ group1 ch ma = n.
Proof.
  intros Hlast.
  pose proof (re_finditer_scan ch never_empty_amount_re) as Hscan.
  destruct (scan_sound Hscan ma (last_opt_In _ Hlast)) as (w & Hm & _ & Hend).
  apply amount_matches_at in Hm. destruct Hm as (n & Hamt & -> & Hg).
  exists n. split; [assumption|]. split.
  - intros j' n' Hamt'.
    assert (Hm' : matches_at amount_re ch j' (36%N :: n')
                    (Some (j' + 1, j' + 1 + length n'))).
    { apply amount_matches_at. exists n'. auto. }
    destruct (scan_covers Hscan (Nat.le_0_l j') Hm') as (m & Hin & Hle & Hlt).
    destruct (scan_sound Hscan m Hin) as (w & Hm & _ & Hend').
    apply amount_matches_at in Hm. destruct Hm as (n0 & Hamt0 & -> & _).
    simpl in Hend'.
    assert (Heq : j' = m_start m).
    { apply (amount_spans_disjoint Hamt0 Hamt'); lia. }
    rewrite Heq. exact (scan_last Hscan Hlast m Hin).
  - unfold group1. rewrite Hg. destruct Hamt as (rest & Hs & _).
    apply slice_nat_skipn with (u := [36%N]) (rest := rest) (i := m_start ma).
    + exact Hs.
    + reflexivity.
    + reflexivity.
Qed.

Lemma amount_last_None (ch : text) :
  last_opt (re_finditer amount_re ch) = None -> forall j n, ~ amount_at ch j n.
Proof.
  intros Hlast j n Hamt. apply last_opt_None in Hlast.
  pose proof (re_finditer_scan ch never_empty_amount_re) as Hscan.
  apply (proj1 (scan_nil Hscan) Hlast j (36%N :: n)
           (Some (j + 1, j + 1 + length n)) (Nat.le_0_l j)).
  apply amount_matches_at. exists n. auto.
Qed.

End ChunkTheorems.

(** ** Collapsing the white space of a chunk keeps its words *)

Section CollapseFacts.

Lemma occurs_nil (w : text) : w <> [] -> ~ occurs w [].
Proof.
  intros w_not_empty (pre & post & H). symmetry in H.
  apply app_eq_nil in H. destruct H as [_ H].
  apply app_eq_nil in H. destruct H as [H _]. contradiction.
Qed.

Lemma not_in_word (w : text) (c : char) :
  no_space w = true -> is_space c = true -> ~ In c w.
Proof.
  intros w_no_space Hc Hin. unfold no_space in w_no_space.
  rewrite forallb_forall in w_no_space. apply w_no_space in Hin.
  rewrite Hc in Hin. discriminate.
Qed.

(** A word without white space occurs on one side of a white-space
    character. *)
Lemma occurs_around_space (w a b : text) (c : char) :
  no_space w = true -> w <> [] -> is_space c = true ->
  occurs w (a ++ c :: b) <-> occurs w a \/ occurs w b.
Proof.
  intros w_no_space w_not_empty Hc.
  pose proof (@not_in_word w c w_no_space Hc) as Hnotin. split.
  - intros (pre & post & H).
    apply app_eq_app in H. destruct H as (l & [[-> H]|[-> H]]).
    + apply app_eq_app in H. destruct H as (l' & [[Hw H]|[-> H]]).
      * destruct l' as [|y l']; simpl in H.
        -- left. exists pre, []. rewrite app_nil_r in Hw. subst l.
           now rewrite app_nil_r.
        -- injection H as <- _. exfalso. apply Hnotin.
           rewrite Hw. apply in_or_app. right. now left.
      * left. exists pre, l'. reflexivity.
    + destruct l as [|x l]; simpl in H.
      * exfalso. destruct w as [|y w']; [contradiction|]. simpl in H.
        injection H as <- _. apply Hnotin. now left.
      * injection H as _ ->. right. exists l, post. reflexivity.
  - intros [(pre & post & ->)|(pre & post & ->)].
    + exists pre, (post ++ c :: b). now rewrite <- !app_assoc.
    + exists (a ++ c :: pre), post. now rewrite <- !app_assoc.
Qed.

Lemma occurs_split_ws_aux (w s cur : text) :
  no_space w = true -> w <> [] ->
  occurs w (rev cur ++ s) <-> exists tok, In tok (split_ws_aux s cur) /\ occurs w tok.
Proof.
  intros w_no_space w_not_empty.
  pose proof (@occurs_nil w w_not_empty) as occurs_nil'.
  revert cur. induction s as [|c s IH]; intros cur; simpl.
  - rewrite app_nil_r. destruct cur as [|x cur].
    + simpl. split; [intros H; exfalso; exact (occurs_nil' H)|].
      intros (tok & [] & _).
    + split.
      * intros H. exists (rev (x :: cur)). split; [now left | assumption].
      * intros (tok & [<-|[]] & H). assumption.
  - destruct (is_space c) eqn:Hc.
    + rewrite (@occurs_around_space w (rev cur) s c w_no_space w_not_empty Hc).
      specialize (IH []). simpl in IH. rewrite IH.
      destruct cur as [|x cur].
      * simpl. split.
        -- intros [H|H]; [exfalso; exact (occurs_nil' H) | assumption].
        -- intros H. now right.
      * split.
        -- intros [H|(tok & Hin & H)].
           ++ exists (rev (x :: cur)). split; [now left | assumption].
           ++ exists tok. split; [now right | assumption].
        -- intros (tok & [<-|Hin] & H); [now left|].
           right. exists tok. auto.
    + rewrite <- IH. simpl. rewrite <- app_assoc. reflexivity.
Qed.

Lemma occurs_join_space (w : text) (toks : list text) :
  no_space w = true -> w <> [] ->
  occurs w (join_space toks) <-> exists tok, In tok toks /\ occurs w tok.
Proof.
  intros w_no_space w_not_empty.
  induction toks as [|tok toks IH].
  - simpl. split; [intros H; exfalso; exact (@occurs_nil w w_not_empty H)|].
    intros (tok & [] & _).
  - destruct toks as [|tok' toks].
    + simpl. split.
      * intros H. exists tok. split; [now left | assumption].
      * intros (t & [<-|[]] & H). assumption.
    + change (join_space (tok :: tok' :: toks))
        with (tok ++ 32%N :: join_space (tok' :: toks)).
      rewrite (@occurs_around_space w tok (join_space (tok' :: toks)) 32%N
                 w_no_space w_not_empty eq_refl), IH. split.
      * intros [H|(t & Hin & H)].
        -- exists tok. split; [now left | assumption].
        -- exists t. split; [now right | assumption].
      * intros (t & [<-|Hin] & H); [now left|].
        right. exists t. auto.
Qed.

(** [' '.join(s.split())] contains the same words without white space as
    [s]. *)
Lemma occurs_collapse (w s : text) :
  no_space w = true -> w <> [] ->
  occurs w (join_space (split_ws s)) <-> occurs w s.
Proof.
  intros w_no_space w_not_empty.
  unfold split_ws.
  rewrite (@occurs_join_space w (split_ws_aux s []) w_no_space w_not_empty).
  rewrite <- (@occurs_split_ws_aux w s [] w_no_space w_not_empty). simpl. reflexivity.
Qed.

End CollapseFacts.

Section ChunkWords.

Lemma occurs_at (w s : text) :
  occurs w s <-> exists i rest, skipn i s = w ++ rest.
Proof.
  split.
  - intros (pre & post & ->). exists (length pre), post.
    rewrite skipn_app, skipn_all, Nat.sub_diag. reflexivity.
  - intros (i & rest & H). exists (firstn i s), rest.
    now rewrite <- H, firstn_skipn.
Qed.

Lemma date_text_no_space (d : text) :
  is_date_text d = true -> no_space d = true /\ d <> [].
Proof.
  destruct d as [|a [|b [|s1 [|c [|x [|s2 [|f [|h [|z w]]]]]]]]];
    try discriminate.
  simpl. intros H.
  repeat match type of H with
  | _ && _ = true => apply andb_true_iff in H; destruct H as [H ?]
  end.
  repeat match goal with
  | Hd : is_decimal _ = true |- _ => apply is_decimal_not_space in Hd; rewrite Hd
  | Hs : (_ =? 47)%N = true |- _ => apply N.eqb_eq in Hs; subst
  end.
  split; [reflexivity | discriminate].
Qed.

Lemma amount_numeral_no_space (n : text) :
  is_amount_numeral n -> no_space (36%N :: n) = true.
Proof.
  intros (ds & a & b & -> & _ & Hall & Ha & Hb).
  unfold no_space. simpl. rewrite forallb_app. simpl.
  rewrite (is_digit_not_space _ Ha), (is_digit_not_space _ Hb). simpl.
  rewrite andb_true_r. apply forallb_forall. intros c Hc.
  rewrite forallb_forall in Hall. apply Hall in Hc.
  unfold is_digit_or_comma in Hc. apply orb_true_iff in Hc.
  destruct Hc as [Hc|Hc].
  - now rewrite (is_digit_not_space _ Hc).
  - apply N.eqb_eq in Hc. subst c. reflexivity.
Qed.

(** A chunk contains a date exactly when the collapsed chunk does. *)
Lemma date_at_collapse (chunk : text) :
  (exists i d, date_at chunk i d)
  <-> (exists i d, date_at (join_space (split_ws chunk)) i d).
Proof.
  split; intros (i & d & rest & Hs & Hshape);
    destruct (date_text_no_space _ Hshape) as [Hns Hne];
    assert (Hocc : occurs d (join_space (split_ws chunk)) <-> occurs d chunk)
      by (apply occurs_collapse; assumption).
  - destruct (proj1 (occurs_at d _) (proj2 Hocc (proj2 (occurs_at d chunk)
               (ex_intro _ i (ex_intro _ rest Hs))))) as (i' & rest' & Hs').
    exists i', d, rest'. auto.
  - destruct (proj1 (occurs_at d _) (proj1 Hocc (proj2 (occurs_at d _)
               (ex_intro _ i (ex_intro _ rest Hs))))) as (i' & rest' & Hs').
    exists i', d, rest'. auto.
Qed.

(** A chunk contains a dollar amount exactly when the collapsed chunk
    does. *)
Lemma amount_at_collapse (chunk : text) :
  (exists j n, amount_at chunk j n)
  <-> (exists j n, amount_at (join_space (split_ws chunk)) j n).
Proof.
  split; intros (j & n & rest & Hs & Hn);
    pose proof (amount_numeral_no_space Hn) as Hns;
    assert (Hocc : occurs (36%N :: n) (join_space (split_ws chunk))
                   <-> occurs (36%N :: n) chunk)
      by (apply occurs_collapse; [assumption | discriminate]).
  - destruct (proj1 (occurs_at (36%N :: n) _)
               (proj2 Hocc (proj2 (occurs_at (36%N :: n) chunk)
                  (ex_intro _ j (ex_intro _ rest Hs))))) as (j' & rest' & Hs').
    exists j', n, rest'. auto.
  - destruct (proj1 (occurs_at (36%N :: n) _)
               (proj1 Hocc (proj2 (occurs_at (36%N :: n) _)
                  (ex_intro _ j (ex_intro _ rest Hs))))) as (j' & rest' & Hs').
    exists j', n, rest'. auto.
Qed.

End ChunkWords.

(** What the body of the loop does with one chunk. The matches are located
    in [ch], the chunk with its white space collapsed, which contains a
    date or an amount exactly when the chunk does. *)
Lemma chunk_cases (chunk : text) :
  let ch := join_space (split_ws chunk) in
  ((exists i d, date_at chunk i d) <-> (exists i d, date_at ch i d))
  /\ ((exists j n, amount_at chunk j n) <-> (exists j n, amount_at ch j n))
  /\ match chunk_transaction chunk with
     | Some t =>
         exists i d j n,
           date_at ch i d
           /\ (forall i' d', i' < i -> ~ date_at ch i' d')
           /\ amount_at ch j n
           /\ (forall j' n', amount_at ch j' n' -> j' <= j)
           /\ txn_date t = d
           /\ txn_merchant t = strip (slice_nat ch (i + 8) j)
           /\ txn_amount t = float_of_numeral (remove_commas n)
           /\ startswith (upper (txn_merchant t)) (str "CARD ENDING") = false
     | None =>
         (forall i d, ~ date_at chunk i d)
         \/ (forall j n, ~ amount_at chunk j n)
         \/ exists i d j n,
              date_at ch i d
              /\ (forall i' d', i' < i -> ~ date_at ch i' d')
              /\ amount_at ch j n
              /\ (forall j' n', amount_at ch j' n' -> j' <= j)
              /\ startswith (upper (strip (slice_nat ch (i + 8) j)))
                   (str "CARD ENDING") = true
     end.
Proof.
  intros ch.
  split; [apply date_at_collapse|]. split; [apply amount_at_collapse|].
  unfold chunk_transaction. fold ch.
  destruct (re_search date_group_re ch) as [md|] eqn:Hdate.
  - destruct (last_opt (re_finditer amount_re ch)) as [ma|] eqn:Hamt.
    + destruct (@date_search_Some ch md Hdate) as (d & Hd & Hfirst & Hgd & Hend).
      destruct (@amount_last_Some ch ma Hamt) as (n & Hn & Hlast & Hgn).
      rewrite Hend.
      destruct (startswith
                  (upper (strip (slice_nat ch (m_start md + 8) (m_start ma))))
                  (str "CARD ENDING")) eqn:Hcard; simpl.
      * right. right. exists (m_start md), d, (m_start ma), n. auto.
      * exists (m_start md), d, (m_start ma), n. rewrite Hgd, Hgn.
        repeat split; auto.
    + right. left. intros j n Hamt'.
      destruct (proj1 (amount_at_collapse chunk) (ex_intro _ j (ex_intro _ n Hamt')))
        as (j' & n' & Hch).
      exact (amount_last_None Hamt Hch).
  - left. intros i d Hdate'.
    destruct (proj1 (date_at_collapse chunk) (ex_intro _ i (ex_intro _ d Hdate')))
      as (i' & d' & Hch).
    exact (date_search_None Hdate Hch).
Qed.

(** C9. The extractor cuts the text of the section at the maximal runs of
    delimiters, and returns, in the order of the chunks, the transaction of
    each chunk that has one. For every chunk: a transaction is emitted
    exactly when the chunk contains a date (two decimal digits, a slash,
    two decimal digits, a slash, two decimal digits) and a dollar amount
    and the merchant text, upper-cased, does not start with "CARD ENDING".
    The matches are located in [ch], the chunk with its white space
    collapsed, which contains a date or an amount exactly when the chunk
    does. The date of the transaction is the first date of [ch], its amount
    the value of the last (rightmost) amount of [ch] with the commas
    removed, and its merchant the stripped text from the end of that date
    to the start of that amount. A chunk without a date or without an
    amount yields nothing. *)
Theorem extract_transactions_chunk_spec :
  forall (pdf_text target_name : text) (sections : list (text * Z))
         (target_pos : Z),
    lookup_pos target_name sections = Some target_pos ->
    target_pos <> 0%Z ->
    let section_text :=
      slice pdf_text target_pos
        (Some (section_end pdf_text sections target_pos)) in
    exists chunks,
      chunked is_delimiter section_text chunks
      /\ (forall cs, chunked is_delimiter section_text cs -> cs = chunks)
      /\ extract_transactions_for_name pdf_text target_name sections
         = flat_map (fun chunk => option_to_list (chunk_transaction chunk)) chunks
      /\ forall chunk,
           In chunk chunks ->
           let ch := join_space (split_ws chunk) in
           ((exists i d, date_at chunk i d) <-> (exists i d, date_at ch i d))
           /\ ((exists j n, amount_at chunk j n) <-> (exists j n, amount_at ch j n))
           /\ match chunk_transaction chunk with
              | Some t =>
                  exists i d j n,
                    date_at ch i d
                    /\ (forall i' d', i' < i -> ~ date_at ch i' d')
                    /\ amount_at ch j n
                    /\ (forall j' n', amount_at ch j' n' -> j' <= j)
                    /\ txn_date t = d
                    /\ txn_merchant t = strip (slice_nat ch (i + 8) j)
                    /\ txn_amount t = float_of_numeral (remove_commas n)
                    /\ startswith (upper (txn_merchant t)) (str "CARD ENDING")
                       = false
              | None =>
                  (forall i d, ~ date_at chunk i d)
                  \/ (forall j n, ~ amount_at chunk j n)
                  \/ exists i d j n,
                       date_at ch i d
                       /\ (forall i' d', i' < i -> ~ date_at ch i' d')
                       /\ amount_at ch j n
                       /\ (forall j' n', amount_at ch j' n' -> j' <= j)
                       /\ startswith (upper (strip (slice_nat ch (i + 8) j)))
                            (str "CARD ENDING") = true
              end.
Proof.
  intros pdf_text target_name sections target_pos Hlookup Hpos section_text.
  exists (re_split delimiter_re section_text).
  pose proof (re_split_chunked is_delimiter section_text) as Hchunked.
  split; [exact Hchunked|].
  split; [intros cs Hcs; exact (chunked_unique Hcs Hchunked)|].
  split.
  - unfold extract_transactions_for_name. rewrite Hlookup.
    replace (target_pos =? 0)%Z with false by (symmetry; now apply Z.eqb_neq).
    reflexivity.
  - intros chunk _. apply chunk_cases.
Qed.

(** A section of four chunks: its header, two transactions, of which the
    second has its date in Arabic-Indic digits and two amounts, and a chunk
    whose merchant text starts with "Card Ending". *)
Lemma extract_transactions_chunk_spec_witness :
  let pdf_text :=
    str "x JANET SMITH Card Ending 1234 " ++ [9674%N]
    ++ str " 02/20/24 BOOK STORE $25.00 " ++ [9674; 9674]%N
    ++ [1633; 1634; 47; 1632; 1633; 47; 1634; 1636]%N
    ++ str " CAFE $4.50 $1,207.25" ++ [124%N]
    ++ str "03/02/24 Card Ending 5678 $1.00" in
  let sections := find_cardholder_sections pdf_text in
  exists chunks,
    chunked is_delimiter (slice pdf_text 2 (Some (section_end pdf_text sections 2)))
      chunks
    /\ extract_transactions_for_name pdf_text (str "JANET SMITH") sections
       = flat_map (fun chunk => option_to_list (chunk_transaction chunk)) chunks
    /\ length chunks = 4
    /\ extract_transactions_for_name pdf_text (str "JANET SMITH") sections
       = [mkTransaction (str "02/20/24") (str "BOOK STORE") 25;
          mkTransaction [1633; 1634; 47; 1632; 1633; 47; 1634; 1636]%N
            (str "CAFE $4.50") 1207.25].
Proof.
  intros pdf_text sections.
  destruct (@extract_transactions_chunk_spec pdf_text (str "JANET SMITH") sections
              2%Z eq_refl ltac:(discriminate))
    as (chunks & Hchunked & Hunique & Hrun & _).
  exists chunks. split; [exact Hchunked|]. split; [exact Hrun|]. split.
  - rewrite <- (Hunique _ (re_split_chunked is_delimiter _)).
    vm_compute. reflexivity.
  - vm_compute. reflexivity.
Defined.

(** A chunk as C9 reads it: the last amount is the amount of the
    transaction, the one before it is part of the merchant text. A date in
    full-width digits is a date, and a merchant text that [str.upper]
    turns into "CARD ENDING" (with the dotless i) drops the chunk. *)
Example chunk_transaction_example :
  chunk_transaction (str "  01/03/24   BOOK  STORE $5.00 $1,207.25 ")
  = Some {| txn_date := str "01/03/24";
            txn_merchant := str "BOOK STORE $5.00";
            txn_amount := 1207.25 |}
  /\ chunk_transaction (str "JANET SMITH Card Ending 1234") = None
  /\ chunk_transaction (str "01/03/24 Card Ending 5678 $1.00") = None
  /\ chunk_transaction (str "01/03/24 BOOKS 5.00") = None
  /\ chunk_transaction
       ([65296; 65297; 47; 65296; 65299; 47; 65298; 65300]%N ++ str " TAXI $9.00")
     = Some {| txn_date := [65296; 65297; 47; 65296; 65299; 47; 65298; 65300]%N;
               txn_merchant := str "TAXI";
               txn_amount := 9 |}
  /\ chunk_transaction (str "01/03/24 Card End" ++ [305%N] ++ str "ng $1.00") = None.
Proof. repeat split; vm_compute; reflexivity. Qed.

(** * Further properties of the code *)

(** ** Upload validation *)

Section ExtensionFacts.

Lemma rsplit1_None (sep : char) (s : text) :
  rsplit1 sep s = None <-> ~ In sep s.
Proof.
  induction s as [|c s IH]; simpl.
  - split; [intros _ [] | reflexivity].
  - destruct (rsplit1 sep s) as [[before after]|].
    + split; [discriminate|]. intros Hnot. exfalso.
      assert (Hx : ~ In sep s) by (intros Hin; apply Hnot; now right).
      apply IH in Hx. discriminate.
    + destruct (N.eqb_spec c sep) as [->|Hne].
      * split; [discriminate|]. intros Hnot. exfalso. apply Hnot. now left.
      * split; [|reflexivity]. intros _ [Heq|Hin]; [congruence|].
        now apply (proj1 IH).
Qed.

(** [rsplit] cuts at the last separator. *)
Lemma rsplit1_Some (sep : char) (s before after : text) :
  rsplit1 sep s = Some (before, after) <->
  s = before ++ sep :: after /\ ~ In sep after.
Proof.
  revert before. induction s as [|c s IH]; intros before; simpl.
  - split; [discriminate|]. intros [H _]. destruct before; discriminate.
  - destruct (rsplit1 sep s) as [[b a]|] eqn:Hrest.
    + split.
      * intros [= <- <-]. destruct (proj1 (IH b) eq_refl) as [-> Hnot].
        split; [reflexivity | assumption].
      * intros [Heq Hnot]. destruct before as [|x before]; simpl in Heq.
        -- injection Heq as Hc Hs. exfalso.
           assert (Hx : rsplit1 sep s = None)
             by (apply rsplit1_None; now rewrite Hs).
           congruence.
        -- injection Heq as Hc Hs.
           assert (Hx : Some (b, a) = Some (before, after))
             by (apply IH; auto).
           injection Hx as Hb Ha. now subst.
    + apply rsplit1_None in Hrest.
      destruct (N.eqb_spec c sep) as [Hc|Hne].
      * split.
        -- intros [= <- <-]. subst c. auto.
        -- intros [Heq Hnot]. destruct before as [|x before]; simpl in Heq.
           ++ injection Heq as _ Hs. now subst.
           ++ injection Heq as _ Hs. exfalso. apply Hrest. rewrite Hs.
              apply in_or_app. right. now left.
      * split; [discriminate|].
        intros [Heq Hnot]. destruct before as [|x before]; simpl in Heq.
        -- injection Heq as Hc _. congruence.
        -- injection Heq as _ Hs. exfalso. apply Hrest. rewrite Hs.
           apply in_or_app. right. now left.
Qed.

Lemma mem_In (x : text) (l : list text) : mem x l = true <-> In x l.
Proof.
  unfold mem. rewrite existsb_exists. split.
  - intros (y & Hy & Heq). apply text_eqb_eq in Heq. now subst.
  - intros Hin. exists x. split; [assumption | now apply text_eqb_eq].
Qed.

Lemma extension_in_spec (filename : text) (allowed : list text) :
  extension_in filename allowed = true <->
  exists base extension,
    filename = base ++ 46%N :: extension
    /\ ~ In 46%N extension
    /\ In (lower extension) allowed.
Proof.
  unfold extension_in. split.
  - destruct (rsplit1 46 filename) as [[base extension]|] eqn:Hsplit;
      [|discriminate].
    intros Hmem. apply rsplit1_Some in Hsplit. destruct Hsplit as [Heq Hnot].
    exists base, extension. rewrite mem_In in Hmem. auto.
  - intros (base & extension & Heq & Hnot & Hin).
    rewrite (proj2 (rsplit1_Some 46 filename base extension) (conj Heq Hnot)).
    now apply mem_In.
Qed.

End ExtensionFacts.

(** X1. A file name is accepted exactly when it has a dot and the text after
    its last dot, lower-cased, is an extension of its type: [pdf] for a
    PDF, [xlsx] or [xls] for a spreadsheet. Only the last extension counts,
    whatever its case; the part before the dot may be empty. A name without
    a dot, and any name for another type, is rejected. *)
Theorem allowed_file_spec :
  forall filename file_type : text,
    (allowed_file filename file_type = true <->
     exists base extension,
       filename = base ++ 46%N :: extension
       /\ ~ In 46%N extension
       /\ ((file_type = str "pdf" /\ lower extension = str "pdf")
           \/ (file_type = str "excel"
               /\ (lower extension = str "xlsx" \/ lower extension = str "xls"))))
    /\ (~ In 46%N filename -> allowed_file filename file_type = false).
Proof.
  intros filename file_type. unfold allowed_file. split.
  - destruct (text_eqb file_type (str "pdf")) eqn:Hpdf.
    + apply text_eqb_eq in Hpdf. rewrite extension_in_spec. split.
      * intros (base & extension & Heq & Hnot & [Hin|[]]).
        exists base, extension. split; [assumption|]. split; [assumption|].
        left. split; [assumption | now symmetry].
      * intros (base & extension & Heq & Hnot & [[_ Hext]|[Hty _]]).
        -- exists base, extension. split; [assumption|]. split; [assumption|].
           left. now symmetry.
        -- rewrite Hpdf in Hty. discriminate.
    + apply text_eqb_neq in Hpdf.
      destruct (text_eqb file_type (str "excel")) eqn:Hexcel.
      * apply text_eqb_eq in Hexcel. rewrite extension_in_spec. split.
        -- intros (base & extension & Heq & Hnot & Hin).
           exists base, extension. split; [assumption|]. split; [assumption|].
           right. split; [assumption|].
           destruct Hin as [Hin|[Hin|[]]]; [left | right]; now symmetry.
        -- intros (base & extension & Heq & Hnot & [[Hty _]|[_ Hext]]);
             [contradiction|].
           exists base, extension. split; [assumption|]. split; [assumption|].
           destruct Hext as [Hext|Hext]; [left | right; left]; now symmetry.
      * apply text_eqb_neq in Hexcel. split; [discriminate|].
        intros (base & extension & _ & _ & [[Hty _]|[Hty _]]); contradiction.
  - intros Hnot. unfold extension_in.
    rewrite (proj2 (rsplit1_None 46 filename) Hnot).
    destruct (text_eqb file_type (str "pdf")); [reflexivity|].
    destruct (text_eqb file_type (str "excel")); reflexivity.
Qed.

(** File names as they are accepted and rejected. *)
Example allowed_file_examples :
  allowed_file (str "Statement.March.PDF") (str "pdf") = true
  /\ allowed_file (str "statement.pdf.exe") (str "pdf") = false
  /\ allowed_file (str "statement") (str "pdf") = false
  /\ allowed_file (str ".xls") (str "excel") = true
  /\ allowed_file (str "JanetS Expenses.Xlsx") (str "excel") = true
  /\ allowed_file (str "JanetS Expenses.xlsx") (str "pdf") = false
  /\ allowed_file (str "JanetS Expenses.xlsx") (str "csv") = false.
Proof. repeat split; vm_compute; reflexivity. Qed.

(** ** Substitution *)

Section SubstitutionFacts.

(** [p+] matches where a run of the class starts, over the whole run. *)
Lemma plus_matcher (p : char -> bool) (prev : option char) (s : text) :
  regex_matcher (RRep true 1 None p) prev s
  = match run_length p s with
    | 0 => None
    | S n => Some (S n)
    end.
Proof.
  unfold regex_matcher, match_at. simpl rmatch.
  rewrite (rrep_greedy_run p
             (fun e => {| m_start := 0; m_end := e; m_group := None |})).
  destruct (run_length p s); reflexivity.
Qed.

(** [re.sub] of [p+] by a space squeezes the runs of the class. *)
Lemma sub_plus_squeeze (p : char -> bool) (s : text) :
  forall prev,
    sub_from (regex_matcher (RRep true 1 None p)) (fun _ => str " ") prev s 0
    = squeeze p false s
    /\ sub_from (regex_matcher (RRep true 1 None p)) (fun _ => str " ") prev s
         (run_length p s)
       = squeeze p true s.
Proof.
  induction s as [|c s IH]; intros prev; [split; reflexivity|].
  destruct (IH (Some c)) as [IH0 IHrun].
  cbn [sub_from]. rewrite plus_matcher. cbn [run_length squeeze].
  destruct (p c) eqn:Hc.
  - split.
    + rewrite IHrun. reflexivity.
    + exact IHrun.
  - split; now rewrite IH0.
Qed.

Lemma re_sub_plus (p : char -> bool) (s : text) :
  re_sub (regex_matcher (RRep true 1 None p)) (fun _ => str " ") s
  = squeeze p false s.
Proof. apply sub_plus_squeeze. Qed.

(** A single character class, erased: [re.sub] keeps the other
    characters. *)
Lemma set_matcher (p : char -> bool) (prev : option char) (s : text) :
  regex_matcher (RSet p) prev s
  = match s with
    | c :: _ => if p c then Some 1 else None
    | [] => None
    end.
Proof.
  unfold regex_matcher, match_at. simpl.
  destruct s as [|c s]; [reflexivity|]. destruct (p c); reflexivity.
Qed.

Lemma sub_set_filter (p : char -> bool) (s : text) :
  forall prev,
    sub_from (regex_matcher (RSet p)) (fun _ => []) prev s 0
    = filter (fun c => negb (p c)) s.
Proof.
  induction s as [|c s IH]; intros prev; [reflexivity|].
  cbn [sub_from]. rewrite set_matcher. simpl filter.
  destruct (p c); simpl; now rewrite IH.
Qed.

End SubstitutionFacts.

(** ** Text of the statement *)

Section BlankFacts.

(** Squeezing the tabs, then the spaces, squeezes the blanks. *)
Lemma squeeze_twice (s : text) :
  squeeze (N.eqb 32) true (squeeze is_tab_cr_nbsp true s)
  = squeeze is_blank true s
  /\ forall b, squeeze (N.eqb 32) b (squeeze is_tab_cr_nbsp false s)
               = squeeze is_blank b s.
Proof.
  induction s as [|c s [IHrun IH]]; [split; [reflexivity | intros b; reflexivity]|].
  cbn [squeeze]. change (is_blank c) with ((c =? 32)%N || is_tab_cr_nbsp c).
  destruct (is_tab_cr_nbsp c) eqn:Htab.
  - rewrite orb_true_r. split.
    + exact IHrun.
    + intros b. cbn [squeeze]. simpl (32 =? 32)%N.
      destruct b; now rewrite IHrun.
  - rewrite orb_false_r. cbn [squeeze]. rewrite N.eqb_sym.
    destruct (c =? 32)%N.
    + split; [apply IH|]. intros b. destruct b; now rewrite IH.
    + split; [now rewrite IH|]. intros b. now rewrite IH.
Qed.

Lemma squeeze_blank_collapsed (s : text) :
  forall b, is_collapsed b (squeeze is_blank b s) = true.
Proof.
  induction s as [|c s IH]; intros b; [reflexivity|].
  cbn [squeeze]. destruct (is_blank c) eqn:Hc.
  - destruct b; [apply IH|].
    cbn [is_collapsed]. simpl. apply IH.
  - cbn [is_collapsed]. unfold is_blank in Hc.
    apply orb_false_iff in Hc. destruct Hc as [H32 Htab].
    rewrite Htab, H32, andb_false_r. simpl. apply IH.
Qed.

Lemma squeeze_blank_fixed (s : text) :
  forall b, is_collapsed b s = true -> squeeze is_blank b s = s.
Proof.
  induction s as [|c s IH]; intros b H; [reflexivity|].
  cbn [is_collapsed] in H.
  apply andb_true_iff in H. destruct H as [H Hrest].
  apply andb_true_iff in H. destruct H as [Htab Hdouble].
  apply negb_true_iff in Htab. apply negb_true_iff in Hdouble.
  cbn [squeeze]. change (is_blank c) with ((c =? 32)%N || is_tab_cr_nbsp c).
  rewrite Htab, orb_false_r.
  destruct (c =? 32)%N eqn:H32.
  - apply N.eqb_eq in H32. subst c.
    destruct b; [discriminate|]. now rewrite (IH true Hrest).
  - now rewrite (IH false Hrest).
Qed.

Lemma squeeze_keeps (p : char -> bool) (s : text) :
  forall b,
    p 32%N = true ->
    filter (fun c => negb (p c)) (squeeze p b s) = filter (fun c => negb (p c)) s.
Proof.
  induction s as [|c s IH]; intros b Hp; [reflexivity|].
  cbn [squeeze]. destruct (p c) eqn:Hc.
  - destruct b; simpl; rewrite ?Hp, Hc; simpl; now apply IH.
  - simpl. rewrite Hc. simpl. now rewrite IH.
Qed.

Lemma squeeze_length (p : char -> bool) (s : text) :
  forall b, length (squeeze p b s) <= length s.
Proof.
  induction s as [|c s IH]; intros b; [reflexivity|].
  cbn [squeeze]. destruct (p c); [destruct b|]; simpl.
  - specialize (IH true). lia.
  - specialize (IH true). lia.
  - specialize (IH false). lia.
Qed.

Lemma read_pdf_text_squeezed (decoded : text) :
  read_pdf_text decoded = squeeze is_blank false decoded.
Proof.
  unfold read_pdf_text. rewrite !re_sub_plus. apply squeeze_twice.
Qed.

End BlankFacts.

(** X2. What [read_pdf_text] does to the decoded text: every maximal run of
    spaces, tabs, carriage returns and no-break spaces becomes one space,
    and every other character, the newline among them, is kept in its
    place: the characters that are no blanks are the same, in the same
    order, and the text gets no longer. *)
Theorem read_pdf_text_squeezes_blanks :
  forall decoded : text,
    read_pdf_text decoded = squeeze is_blank false decoded
    /\ filter (fun c => negb (is_blank c)) (read_pdf_text decoded)
       = filter (fun c => negb (is_blank c)) decoded
    /\ length (read_pdf_text decoded) <= length decoded.
Proof.
  intros decoded. rewrite read_pdf_text_squeezed.
  split; [reflexivity|]. split.
  - now apply squeeze_keeps.
  - apply squeeze_length.
Qed.

(** X3. The text that [read_pdf_text] returns holds no tab, no carriage return
    and no no-break space, and never two spaces in a row. A text of that
    form, and no other, is returned as it is; so the function applied twice
    is the function applied once. *)
Theorem read_pdf_text_collapsed :
  forall decoded : text,
    is_collapsed false (read_pdf_text decoded) = true
    /\ (read_pdf_text decoded = decoded <-> is_collapsed false decoded = true)
    /\ read_pdf_text (read_pdf_text decoded) = read_pdf_text decoded.
Proof.
  intros decoded.
  assert (Hc : is_collapsed false (read_pdf_text decoded) = true).
  { rewrite read_pdf_text_squeezed. apply squeeze_blank_collapsed. }
  split; [exact Hc|]. split.
  - split.
    + intros Heq. now rewrite Heq in Hc.
    + intros H. rewrite read_pdf_text_squeezed. now apply squeeze_blank_fixed.
  - rewrite (read_pdf_text_squeezed (read_pdf_text decoded)).
    now apply squeeze_blank_fixed.
Qed.

(** Two lines of a statement, with tabs, a carriage return and a no-break
    space. *)
Example read_pdf_text_example :
  read_pdf_text
    (str "JANET  SMITH" ++ [9; 32; 9]%N ++ str "Card Ending" ++ [13; 10]%N
     ++ [160]%N ++ str "FEES")
  = str "JANET SMITH Card Ending " ++ [10]%N ++ str " FEES".
Proof. vm_compute. reflexivity. Qed.

(** ** Text of the statement: the closing date survives *)

Section KeepFacts.

(** Squeezing a text after a prefix: the prefix decides the state in which
    the rest is read. *)
Lemma squeeze_prefix (p : char -> bool) (pre : text) :
  forall b, exists pre' b',
    forall v, squeeze p b (pre ++ v) = pre' ++ squeeze p b' v.
Proof.
  induction pre as [|c pre IH]; intros b.
  - exists [], b. reflexivity.
  - simpl. destruct (p c).
    + destruct (IH true) as (pre' & b' & H). destruct b.
      * exists pre', b'. exact H.
      * exists (32%N :: pre'), b'. intros v. simpl. now rewrite H.
    + destruct (IH false) as (pre' & b' & H).
      exists (c :: pre'), b'. intros v. simpl. now rewrite H.
Qed.

(** A word without blanks is copied. *)
Lemma squeeze_word (w v : text) (b : bool) :
  w <> [] -> forallb (fun c => negb (is_blank c)) w = true ->
  squeeze is_blank b (w ++ v) = w ++ squeeze is_blank false v.
Proof.
  revert b. induction w as [|c w IH]; intros b Hne Hw; [congruence|].
  simpl in Hw. apply andb_true_iff in Hw. destruct Hw as [Hc Hw].
  apply negb_true_iff in Hc. simpl. rewrite Hc. f_equal.
  destruct w as [|c' w']; [reflexivity|].
  apply IH; [discriminate | assumption].
Qed.

(** White space stays white space. *)
Lemma squeeze_space (ws : text) :
  forallb is_space ws = true ->
  forall b, exists ws' b',
    forallb is_space ws' = true
    /\ forall v, squeeze is_blank b (ws ++ v) = ws' ++ squeeze is_blank b' v.
Proof.
  intros Hws. induction ws as [|c ws IH]; intros b.
  - exists [], b. split; reflexivity.
  - simpl in Hws. apply andb_true_iff in Hws. destruct Hws as [Hc Hws].
    simpl. destruct (is_blank c).
    + destruct (IH Hws true) as (ws' & b' & Hsp & H). destruct b.
      * exists ws', b'. auto.
      * exists (32%N :: ws'), b'. split; [exact Hsp|].
        intros v. simpl. now rewrite H.
    + destruct (IH Hws false) as (ws' & b' & Hsp & H).
      exists (c :: ws'), b'. split; [simpl; now rewrite Hc, Hsp|].
      intros v. simpl. now rewrite H.
Qed.

Lemma is_digit_not_blank (c : char) : is_digit c = true -> is_blank c = false.
Proof.
  unfold is_digit, is_blank, is_tab_cr_nbsp, in_range. intros H.
  apply andb_true_iff in H. destruct H as [H1 H2].
  apply N.leb_le in H1. apply N.leb_le in H2.
  repeat (apply orb_false_intro); apply N.eqb_neq; lia.
Qed.

Lemma date_shape_not_blank (d : text) :
  is_date_shape d = true ->
  d <> [] /\ forallb (fun c => negb (is_blank c)) d = true.
Proof.
  destruct d as [|a [|b [|s1 [|c [|x [|s2 [|f [|h [|z w]]]]]]]]];
    try discriminate.
  simpl. intros H.
  repeat match type of H with
  | _ && _ = true => apply andb_true_iff in H; destruct H as [H ?]
  end.
  repeat match goal with
  | Hd : is_digit _ = true |- _ => apply is_digit_not_blank in Hd; rewrite Hd
  | Hs : (_ =? 47)%N = true |- _ => apply N.eqb_eq in Hs; subst
  end.
  split; [discriminate | reflexivity].
Qed.

(** The anchor of the closing date, squeezed. *)
Lemma squeeze_closing_anchor (pre ws d rest : text) :
  forallb is_space ws = true -> is_date_shape d = true ->
  exists pre' ws' rest',
    squeeze is_blank false (pre ++ str "Closing Date" ++ ws ++ d ++ rest)
    = pre' ++ str "Closing Date" ++ ws' ++ d ++ rest'
    /\ forallb is_space ws' = true.
Proof.
  intros Hws Hshape.
  destruct (squeeze_prefix is_blank pre false) as (pre' & b1 & Hpre).
  destruct (squeeze_space ws Hws false) as (ws' & b2 & Hsp & Hws').
  destruct (date_shape_not_blank d Hshape) as [Hne Hd].
  exists pre', ws', (squeeze is_blank false rest).
  split; [|exact Hsp].
  rewrite Hpre.
  change (str "Closing Date" ++ ws ++ d ++ rest)
    with (str "Closing" ++ (32%N :: str "Date" ++ ws ++ d ++ rest)).
  rewrite squeeze_word by (try discriminate; reflexivity).
  cbn [squeeze]. change (is_blank 32) with true. cbv iota.
  rewrite (@squeeze_word (str "Date") (ws ++ d ++ rest) true)
    by (try discriminate; reflexivity).
  rewrite Hws', (squeeze_word _ _ Hne Hd). reflexivity.
Qed.

End KeepFacts.

(** X4. The normalisation of [read_pdf_text] loses no closing date: where the
    decoded text reads "Closing Date", white space if any and a date-shaped
    string, the normalised text reads the same with the same date, and
    [parse_statement_period] on it does not fail for want of a closing
    date. *)
Theorem read_pdf_text_keeps_closing_date :
  forall (decoded : text) (i : nat) (d : text),
    closing_anchor_at decoded i d ->
    (exists j, closing_anchor_at (read_pdf_text decoded) j d)
    /\ ((exists s, parse_statement_period (read_pdf_text decoded)
                   = inl (InvalidDate s))
        \/ (exists period, parse_statement_period (read_pdf_text decoded)
                           = inr period)).
Proof.
  intros decoded i d (ws & rest & Hs & Hws & Hshape).
  assert (Hanchor : exists j, closing_anchor_at (read_pdf_text decoded) j d).
  { rewrite read_pdf_text_squeezed.
    rewrite <- (firstn_skipn i decoded), Hs.
    destruct (squeeze_closing_anchor (firstn i decoded) ws d rest Hws Hshape)
      as (pre' & ws' & rest' & Heq & Hws').
    rewrite Heq. exists (length pre'), ws', rest'.
    split; [|split; assumption].
    rewrite skipn_app, skipn_all, Nat.sub_diag. reflexivity. }
  split; [exact Hanchor|].
  destruct Hanchor as (j & Hj).
  destruct (parse_statement_period (read_pdf_text decoded)) as [[|s]|period] eqn:Hp.
  - exfalso.
    exact (proj1 (parse_not_found_iff _) Hp j d (closing_anchor_date Hj)).
  - left. now exists s.
  - right. now exists period.
Qed.

(** The closing date of the sample, after a tab in the decoded text. *)
Lemma read_pdf_text_keeps_closing_date_witness :
  let decoded := str "Statement" ++ [9; 9]%N ++ str "Closing Date" ++ [160; 10]%N
                 ++ str "03/15/24" in
  (exists j, closing_anchor_at (read_pdf_text decoded) j (str "03/15/24"))
  /\ parse_statement_period (read_pdf_text decoded)
     = inr (mkDate 2024 2 14, mkDate 2024 3 15).
Proof.
  intros decoded. split; [|vm_compute; reflexivity].
  apply (@read_pdf_text_keeps_closing_date decoded 11 (str "03/15/24")).
  exists [160; 10]%N, []. split; [reflexivity|]. split; reflexivity.
Defined.

(** ** Name of the cardholder *)

Section WordFacts.

(** The words of [s.split()]: none is empty, none holds white space, and
    their characters are characters of [s]. *)
Lemma split_ws_aux_words (s : text) :
  forall cur,
    no_space cur = true ->
    Forall (fun w => w <> [] /\ no_space w = true
                     /\ forall x, In x w -> In x s \/ In x cur)
      (split_ws_aux s cur).
Proof.
  assert (Hword : forall x cur, no_space (x :: cur) = true ->
            rev (x :: cur) <> [] /\ no_space (rev (x :: cur)) = true).
  { intros x cur Hcur. split.
    - intros H. apply (f_equal (@length _)) in H.
      rewrite length_rev in H. discriminate.
    - unfold no_space in *. rewrite forallb_forall in *.
      intros y Hy. apply Hcur. now apply in_rev. }
  induction s as [|c s IH]; intros cur Hcur.
  - simpl. destruct cur as [|x cur]; [constructor|].
    constructor; [|constructor].
    destruct (Hword x cur Hcur) as [Hne Hns].
    split; [assumption|]. split; [assumption|].
    intros y Hy. right. now apply in_rev.
  - simpl. destruct (is_space c) eqn:Hc.
    + assert (Hrest : Forall (fun w => w <> [] /\ no_space w = true
                        /\ forall x, In x w -> In x (c :: s) \/ In x cur)
                        (split_ws_aux s [])).
      { eapply Forall_impl; [|exact (IH [] eq_refl)]. simpl.
        intros w (Hne & Hns & Hin). repeat split; auto.
        intros y Hy. destruct (Hin y Hy) as [Hy'|[]]. left. now right. }
      destruct cur as [|x cur]; [exact Hrest|].
      constructor; [|exact Hrest].
      destruct (Hword x cur Hcur) as [Hne Hns].
      split; [assumption|]. split; [assumption|].
      intros y Hy. right. now apply in_rev.
    + assert (Hcur' : no_space (c :: cur) = true).
      { unfold no_space in *. simpl. now rewrite Hc, Hcur. }
      eapply Forall_impl; [|exact (IH (c :: cur) Hcur')]. simpl.
      intros w (Hne & Hns & Hin). repeat split; auto.
      intros y Hy.
      destruct (Hin y Hy) as [Hy'|[<-|Hy']];
        [left; now right | left; now left | now right].
Qed.

Lemma split_ws_words (s : text) :
  Forall (fun w => w <> [] /\ no_space w = true /\ forall x, In x w -> In x s)
    (split_ws s).
Proof.
  eapply Forall_impl; [|exact (split_ws_aux_words s [] eq_refl)]. simpl.
  intros w (Hne & Hns & Hin). repeat split; auto.
  intros y Hy. destruct (Hin y Hy) as [Hy'|[]]. assumption.
Qed.

Lemma lstrip_head (c : char) (s : text) :
  is_space c = false -> lstrip (c :: s) = c :: s.
Proof. intros H. simpl. now rewrite H. Qed.

(** A text that neither begins nor ends with white space is left as it is
    by [strip]. *)
Lemma strip_id (s : text) :
  (forall c rest, s = c :: rest -> is_space c = false) ->
  (forall pre c, s = pre ++ [c] -> is_space c = false) ->
  strip s = s.
Proof.
  intros Hfirst Hlast. unfold strip.
  assert (Hl : lstrip s = s).
  { destruct s as [|c rest]; [reflexivity|].
    apply lstrip_head. now apply (Hfirst c rest). }
  rewrite Hl.
  destruct (rev s) as [|c r] eqn:Hrev.
  - apply (f_equal (@rev _)) in Hrev. rewrite rev_involutive in Hrev.
    now rewrite Hrev.
  - rewrite lstrip_head.
    + now rewrite <- Hrev, rev_involutive.
    + apply (Hlast (rev r) c).
      apply (f_equal (@rev _)) in Hrev. now rewrite rev_involutive in Hrev.
Qed.

Lemma join_space_cons (w : text) (l : list text) :
  l <> [] -> join_space (w :: l) = w ++ 32%N :: join_space l.
Proof. destruct l; [congruence | reflexivity]. Qed.

Lemma join_space_first (words : list text) (c : char) (rest : text) :
  Forall (fun w => w <> [] /\ no_space w = true) words ->
  join_space words = c :: rest -> is_space c = false.
Proof.
  intros H Heq. destruct H as [|w l [Hne Hns] Hl]; [discriminate|].
  destruct w as [|x w]; [congruence|].
  unfold no_space in Hns. simpl in Hns. apply andb_true_iff in Hns.
  destruct Hns as [Hx _]. apply negb_true_iff in Hx.
  destruct l; simpl in Heq; injection Heq as <- _; assumption.
Qed.

Lemma join_space_last (words : list text) :
  Forall (fun w => w <> [] /\ no_space w = true) words ->
  forall pre c, join_space words = pre ++ [c] -> is_space c = false.
Proof.
  induction 1 as [|w l [Hne Hns] Hl IH]; intros pre c Heq.
  - destruct pre; discriminate.
  - destruct l as [|w' l'].
    + simpl in Heq. subst w. unfold no_space in Hns.
      rewrite forallb_app in Hns. simpl in Hns.
      apply andb_true_iff in Hns. destruct Hns as [_ Hc].
      rewrite andb_true_r in Hc. now apply negb_true_iff.
    + rewrite join_space_cons in Heq by discriminate.
      assert (Hj : join_space (w' :: l') <> []).
      { inversion Hl as [|? ? [Hne' _] _]; subst.
        destruct w'; [congruence|]. destruct l'; discriminate. }
      destruct (exists_last Hj) as (pre' & c' & Hj').
      rewrite Hj' in Heq.
      change (w ++ 32%N :: pre' ++ [c']) with (w ++ (32%N :: pre') ++ [c']) in Heq.
      rewrite app_assoc in Heq. apply app_inj_tail in Heq.
      destruct Heq as [_ <-]. exact (IH pre' c' Hj').
Qed.

Lemma strip_join_space (words : list text) :
  Forall (fun w => w <> [] /\ no_space w = true) words ->
  strip (join_space words) = join_space words.
Proof.
  intros H. apply strip_id.
  - intros c rest. now apply join_space_first.
  - now apply join_space_last.
Qed.

(** [split] gives back the words that [join] has put together. *)
Lemma split_ws_aux_word (w rest cur : text) :
  no_space w = true ->
  split_ws_aux (w ++ rest) cur = split_ws_aux rest (rev w ++ cur).
Proof.
  revert cur. induction w as [|c w IH]; intros cur Hns; [reflexivity|].
  unfold no_space in Hns. simpl in Hns. apply andb_true_iff in Hns.
  destruct Hns as [Hc Hw]. apply negb_true_iff in Hc.
  simpl. rewrite Hc, (IH (c :: cur) Hw), <- app_assoc. reflexivity.
Qed.

Lemma split_join_space (words : list text) :
  Forall (fun w => w <> [] /\ no_space w = true) words ->
  split_ws (join_space words) = words.
Proof.
  unfold split_ws. induction 1 as [|w l [Hne Hns] Hl IH]; [reflexivity|].
  destruct l as [|w' l'].
  - simpl. rewrite <- (app_nil_r w) at 1.
    rewrite split_ws_aux_word by assumption. simpl.
    rewrite app_nil_r.
    destruct (rev w) eqn:Hrev.
    + apply (f_equal (@rev _)) in Hrev. rewrite rev_involutive in Hrev.
      simpl in Hrev. congruence.
    + now rewrite <- Hrev, rev_involutive.
  - rewrite join_space_cons by discriminate.
    rewrite split_ws_aux_word by assumption. rewrite app_nil_r.
    destruct (rev w) as [|x r] eqn:Hrev.
    + apply (f_equal (@rev _)) in Hrev. rewrite rev_involutive in Hrev.
      simpl in Hrev. congruence.
    + change (split_ws_aux (32%N :: join_space (w' :: l')) (x :: r))
        with (rev (x :: r) :: split_ws_aux (join_space (w' :: l')) []).
      rewrite <- Hrev, rev_involutive. now rewrite IH.
Qed.

Lemma is_lower_not_space (c : char) : is_lower c = true -> is_space c = false.
Proof.
  unfold is_lower, is_space, in_range. intros H. apply andb_true_iff in H.
  destruct H as [H1 H2]. apply N.leb_le in H1. apply N.leb_le in H2.
  repeat (apply orb_false_intro);
    try (apply N.eqb_neq; lia);
    apply andb_false_iff; first [left; apply N.leb_gt; lia | right; apply N.leb_gt; lia].
Qed.

Lemma is_alnum_not_space (c : char) : is_alnum c = true -> is_space c = false.
Proof.
  unfold is_alnum. intros H.
  apply orb_true_iff in H. destruct H as [H|H].
  - apply orb_true_iff in H. destruct H as [H|H].
    + now apply is_lower_not_space.
    + now apply is_upper_not_space.
  - now apply is_digit_not_space.
Qed.

End WordFacts.

Section DeriveFacts.

(** A pattern anchored at the start of the text is replaced there or
    nowhere. *)
Lemma sub_from_at_start (m : matcher) (repl : text -> text) (s : text) :
  forall c skip, sub_from (at_start m) repl (Some c) s skip = skipn skip s.
Proof.
  induction s as [|x s IH]; intros c skip.
  - now destruct skip.
  - destruct skip as [|k]; simpl.
    + now rewrite IH.
    + apply IH.
Qed.

Lemma re_sub_at_start (m : matcher) (s : text) :
  re_sub (at_start m) (fun _ => []) s
  = match m None s with
    | Some (S k) => skipn (S k) s
    | _ => s
    end.
Proof.
  unfold re_sub. destruct s as [|c s]; simpl.
  - destruct (m None []) as [[|k]|]; reflexivity.
  - destruct (m None (c :: s)) as [[|k]|]; simpl;
      rewrite sub_from_at_start; reflexivity.
Qed.

Lemma timestamp_prefix_shape (p : text) :
  is_timestamp_prefix p = true <->
  exists d8 d6,
    p = d8 ++ str "_" ++ d6 ++ str "_"
    /\ length d8 = 8 /\ forallb is_decimal d8 = true
    /\ length d6 = 6 /\ forallb is_decimal d6 = true.
Proof.
  unfold is_timestamp_prefix. split.
  - intros H.
    repeat match type of H with
    | _ && _ = true => apply andb_true_iff in H; destruct H as [H ?]
    end.
    apply Nat.eqb_eq in H.
    repeat match goal with
    | Hx : text_eqb _ _ = true |- _ => apply text_eqb_eq in Hx
    end.
    exists (firstn 8 p), (firstn 6 (skipn 9 p)).
    repeat split; auto.
    + rewrite <- (firstn_skipn 8 p) at 1. f_equal.
      rewrite <- (firstn_skipn 1 (skipn 8 p)) at 1. f_equal; [assumption|].
      rewrite skipn_skipn. simpl Nat.add.
      rewrite <- (firstn_skipn 6 (skipn 9 p)) at 1. f_equal.
      rewrite skipn_skipn. simpl Nat.add. assumption.
    + rewrite length_firstn. lia.
    + rewrite length_firstn, length_skipn. lia.
  - intros (d8 & d6 & -> & Hl8 & Hd8 & Hl6 & Hd6).
    destruct d8 as [|a1 [|a2 [|a3 [|a4 [|a5 [|a6 [|a7 [|a8 [|? ?]]]]]]]]];
      try discriminate.
    destruct d6 as [|b1 [|b2 [|b3 [|b4 [|b5 [|b6 [|? ?]]]]]]]; try discriminate.
    change ((16 =? 16)
            && forallb is_decimal [a1; a2; a3; a4; a5; a6; a7; a8]
            && text_eqb [95%N] [95%N]
            && forallb is_decimal [b1; b2; b3; b4; b5; b6]
            && text_eqb [95%N] [95%N] = true).
    rewrite Hd8, Hd6. reflexivity.
Qed.

(** [timestamp_re] matches at the start of a text exactly over a timestamp
    prefix. *)
Lemma matches_timestamp_re (prev : option char) (pos : nat) (w : text)
    (g g' : option (nat * nat)) :
  matches timestamp_re prev pos w g g' -> is_timestamp_prefix w = true.
Proof.
  unfold timestamp_re. intros H.
  apply matches_cat_inv in H. destruct H as (d8 & w1 & g1 & -> & H8 & H).
  apply matches_cat_inv in H. destruct H as (u1 & w2 & g2 & -> & Hu1 & H).
  apply matches_cat_inv in H. destruct H as (d6 & u2 & g3 & -> & H6 & Hu2).
  apply matches_rep_inv in H8. destruct H8 as (Hd8 & Hlo8 & Hhi8 & _).
  apply matches_rep_inv in H6. destruct H6 as (Hd6 & Hlo6 & Hhi6 & _).
  apply matches_set_inv in Hu1. destruct Hu1 as (c1 & -> & Hc1 & _).
  apply matches_set_inv in Hu2. destruct Hu2 as (c2 & -> & Hc2 & _).
  apply N.eqb_eq in Hc1. apply N.eqb_eq in Hc2. subst c1 c2.
  simpl in Hhi8, Hhi6.
  apply timestamp_prefix_shape. exists d8, d6.
  repeat split; auto; lia.
Qed.

Lemma timestamp_re_matches (p : text) (prev : option char) (pos : nat)
    (g : option (nat * nat)) :
  is_timestamp_prefix p = true -> matches timestamp_re prev pos p g g.
Proof.
  intros H. apply timestamp_prefix_shape in H.
  destruct H as (d8 & d6 & -> & Hl8 & Hd8 & Hl6 & Hd6).
  unfold timestamp_re.
  eapply matches_cat.
  - apply matches_rep; [assumption | lia | simpl; lia].
  - eapply (@matches_cat _ _ _ _ (str "_") (d6 ++ str "_")).
    + apply matches_set. apply N.eqb_refl.
    + eapply matches_cat.
      * apply matches_rep; [assumption | lia | simpl; lia].
      * apply matches_set. apply N.eqb_refl.
Qed.

Lemma timestamp_matcher_Some (p rest : text) :
  is_timestamp_prefix p = true ->
  regex_matcher timestamp_re None (p ++ rest) = Some 16.
Proof.
  intros Hp. unfold regex_matcher.
  destruct (match_at timestamp_re None (p ++ rest) 0) as [m|] eqn:Hm.
  - apply match_at_Some in Hm.
    destruct Hm as (w & rest' & Heq & Hw & _ & Hend).
    apply matches_timestamp_re in Hw. simpl. rewrite Hend. f_equal.
    unfold is_timestamp_prefix in Hw.
    repeat match type of Hw with
    | _ && _ = true => apply andb_true_iff in Hw; destruct Hw as [Hw ?]
    end.
    apply Nat.eqb_eq in Hw. now rewrite Hw.
  - exfalso.
    exact (@match_at_None _ _ _ _ Hm p rest None eq_refl
             (@timestamp_re_matches p None 0 None Hp)).
Qed.

Lemma timestamp_matcher_None (s : text) :
  (forall p rest, s = p ++ rest -> is_timestamp_prefix p = false) ->
  regex_matcher timestamp_re None s = None.
Proof.
  intros Hnone. unfold regex_matcher.
  destruct (match_at timestamp_re None s 0) as [m|] eqn:Hm; [|reflexivity].
  apply match_at_Some in Hm. destruct Hm as (w & rest & Heq & Hw & _).
  apply matches_timestamp_re in Hw. rewrite (Hnone w rest Heq) in Hw.
  discriminate.
Qed.

(** The last two steps: what is left is words of letters and digits. *)
Lemma alnum_words (name : text) :
  Forall (fun w => is_alnum_word w = true)
    (split_ws (filter (fun c => negb (negb (is_alnum_or_space c))) name)).
Proof.
  eapply Forall_impl; [|apply split_ws_words].
  simpl. intros w (Hne & Hns & Hin). unfold is_alnum_word.
  rewrite (proj2 (text_eqb_neq w []) Hne). simpl.
  apply forallb_forall. intros x Hx.
  specialize (Hin x Hx). apply filter_In in Hin. destruct Hin as [_ Hx'].
  rewrite negb_involutive in Hx'.
  unfold no_space in Hns. rewrite forallb_forall in Hns.
  specialize (Hns x Hx). apply negb_true_iff in Hns.
  unfold is_alnum_or_space in Hx'. rewrite Hns, orb_false_r in Hx'. exact Hx'.
Qed.

Lemma alnum_word_no_space (w : text) :
  is_alnum_word w = true -> w <> [] /\ no_space w = true.
Proof.
  unfold is_alnum_word. intros H. apply andb_true_iff in H.
  destruct H as [Hne Hall]. apply negb_true_iff, text_eqb_neq in Hne.
  split; [assumption|]. unfold no_space. apply forallb_forall.
  intros x Hx. rewrite forallb_forall in Hall. specialize (Hall x Hx).
  apply negb_true_iff. now apply is_alnum_not_space.
Qed.

End DeriveFacts.

(** X5. The name derived from a file name is a sequence of words of ASCII
    letters and digits, separated by single spaces: whatever the file name
    holds, no other character is left, and no white space at either end.
    Stripping such a name leaves it as it is, so the normal form that the
    resolver compares with the section names, [name.strip().upper()], is
    its upper-cased form. *)
Theorem derive_name_words :
  forall filename : text,
    let name := derive_name_from_excel_filename filename in
    (exists words,
       name = join_space words
       /\ Forall (fun w => is_alnum_word w = true) words
       /\ split_ws name = words)
    /\ strip name = name
    /\ normalize_name name = upper name.
Proof.
  intros filename name.
  assert (Hwords : exists words,
            name = join_space words
            /\ Forall (fun w => is_alnum_word w = true) words).
  { unfold name, derive_name_from_excel_filename.
    cbv zeta. unfold re_sub at 1. rewrite sub_set_filter.
    eexists. split; [reflexivity | apply alnum_words]. }
  destruct Hwords as (words & Hname & Hall).
  assert (Hns : Forall (fun w => w <> [] /\ no_space w = true) words).
  { eapply Forall_impl; [|exact Hall]. apply alnum_word_no_space. }
  assert (Hstrip : strip name = name).
  { rewrite Hname. now apply strip_join_space. }
  split.
  - exists words. split; [assumption|]. split; [assumption|].
    rewrite Hname. now apply split_join_space.
  - split; [assumption|]. unfold normalize_name. now rewrite Hstrip.
Qed.

(** X6. The timestamp that [compare] puts before the name of a saved file
    does not change the name derived from it: for a file name [filename]
    that does not itself begin with a timestamp, the name derived from
    [prefix ++ filename] is the name derived from [filename]. A timestamp
    is what [\d{8}_\d{6}_] matches, its digits being decimal digits of any
    script. *)
Theorem derive_name_drops_timestamp :
  forall prefix filename : text,
    is_timestamp_prefix prefix = true ->
    (forall p rest, filename = p ++ rest -> is_timestamp_prefix p = false) ->
    derive_name_from_excel_filename (prefix ++ filename)
    = derive_name_from_excel_filename filename.
Proof.
  intros prefix filename Hprefix Hnone.
  unfold derive_name_from_excel_filename. cbv zeta.
  rewrite !re_sub_at_start.
  rewrite (@timestamp_matcher_Some prefix filename Hprefix).
  rewrite (@timestamp_matcher_None filename Hnone).
  assert (Hlen : length prefix = 16).
  { unfold is_timestamp_prefix in Hprefix.
    repeat match type of Hprefix with
    | _ && _ = true => apply andb_true_iff in Hprefix; destruct Hprefix as [Hprefix ?]
    end.
    now apply Nat.eqb_eq. }
  rewrite skipn_app, Hlen, Nat.sub_diag. simpl skipn at 2.
  rewrite skipn_all2 by lia. reflexivity.
Qed.

(** The file name of the source's comments, with and without the
    timestamp; and the same with the date of the timestamp in full-width
    digits, which [\d] takes as well. *)
Lemma derive_name_drops_timestamp_witness :
  derive_name_from_excel_filename (str "20251021_122023_JanetS Expenses.xlsx")
  = derive_name_from_excel_filename (str "JanetS Expenses.xlsx")
  /\ derive_name_from_excel_filename (str "JanetS Expenses.xlsx") = str "Janet S"
  /\ derive_name_from_excel_filename
       ([65298; 65296; 65298; 65301; 65297; 65296; 65298; 65297]%N
        ++ str "_122023_JanetS.xlsx")
     = derive_name_from_excel_filename (str "JanetS.xlsx").
Proof.
  assert (Hnone : forall name : text,
            length name <= 20 ->
            is_timestamp_prefix (firstn 16 name) = false ->
            forall p rest, name = p ++ rest -> is_timestamp_prefix p = false).
  { intros name Hlen Hfirst p rest Heq. unfold is_timestamp_prefix.
    destruct (length p =? 16) eqn:Hp; [|reflexivity].
    apply Nat.eqb_eq in Hp.
    assert (Hpre : p = firstn 16 name).
    { rewrite Heq, firstn_app, Hp, Nat.sub_diag, firstn_O, app_nil_r.
      symmetry. apply firstn_all2. lia. }
    rewrite Hpre in Hp |- *. unfold is_timestamp_prefix in Hfirst.
    rewrite Hp in Hfirst. exact Hfirst. }
  split; [|split; [vm_compute; reflexivity|]].
  - apply (@derive_name_drops_timestamp (str "20251021_122023_")
             (str "JanetS Expenses.xlsx")).
    + reflexivity.
    + apply Hnone; [simpl; lia | vm_compute; reflexivity].
  - apply (@derive_name_drops_timestamp
             ([65298; 65296; 65298; 65301; 65297; 65296; 65298; 65297]%N
              ++ str "_122023_")
             (str "JanetS.xlsx")).
    + vm_compute. reflexivity.
    + apply Hnone; [simpl; lia | vm_compute; reflexivity].
Defined.

(** Names derived from file names. A keyword that an underscore joins to
    the name is not removed, the underscore being a word character: no word
    boundary stands between them. Nor is one that follows an accented
    letter, a word character as well, which the sixth step then removes. *)
Example derive_name_examples :
  derive_name_from_excel_filename (str "JanetS.xlsx") = str "Janet S"
  /\ derive_name_from_excel_filename (str "carlos-diaz Report.XLS") = str "carlos diaz"
  /\ derive_name_from_excel_filename (str "Smith, Janet (2024).xlsx") = str "Smith Janet 2024"
  /\ derive_name_from_excel_filename (str "JanetS_Expenses.xlsx") = str "Janet S Expenses"
  /\ derive_name_from_excel_filename (str ".xlsx") = []
  /\ derive_name_from_excel_filename (str "Jos" ++ [233%N] ++ str "Report.xlsx")
     = str "JosReport".
Proof. repeat split; vm_compute; reflexivity. Qed.

(** ** PeriodExtractor: the dates of the period *)

Section DateTextFacts.

Local Open Scope Z_scope.

Lemma two_digits_values (u v : Z) :
  0 <= u <= 9 -> 0 <= v <= 9 ->
  two_digits (10 * (10 * 0 + u) + v) = [Z.to_N (48 + u); Z.to_N (48 + v)].
Proof.
  intros Hu Hv. unfold two_digits.
  set (n := 10 * (10 * 0 + u) + v).
  assert (Hq : n / 10 = u) by (unfold n; Z.div_mod_to_equations; lia).
  assert (Hr : n mod 10 = v) by (unfold n; Z.div_mod_to_equations; lia).
  now rewrite Hq, Hr.
Qed.

(** [strftime] writes the two digits that [strptime] has read, in ASCII. *)
Lemma two_digits_decimals (a b : char) :
  is_decimal a = true -> is_decimal b = true ->
  two_digits (10 * (10 * 0 + decimal_value a) + decimal_value b)
  = ascii_digits [a; b].
Proof.
  intros Ha Hb.
  rewrite two_digits_values by apply decimal_value_range.
  unfold ascii_digits, ascii_digit. simpl List.map. now rewrite Ha, Hb.
Qed.

Lemma decimal_value_two_digits (k : Z) :
  0 <= k <= 9 -> decimal_value (Z.to_N (48 + k)) = k.
Proof.
  intros Hk.
  assert (Hd : is_digit (Z.to_N (48 + k)) = true) by (apply in_range_iff; lia).
  destruct (is_digit_decimal _ Hd) as [_ ->]. lia.
Qed.

Lemma int_of_two_digits (n : Z) :
  0 <= n <= 99 -> int_of_decimals (two_digits n) = n.
Proof.
  intros Hn. unfold two_digits, int_of_decimals.
  cbv beta iota delta [fold_left].
  rewrite !decimal_value_two_digits by (Z.div_mod_to_equations; lia).
  Z.div_mod_to_equations. lia.
Qed.

Lemma days_in_month_le_31 (y m : Z) : days_in_month y m <= 31.
Proof.
  unfold days_in_month. destruct ((m =? 2) && is_leap y); [lia|].
  unfold DAYS_IN_MONTH.
  destruct (Z.to_nat m) as [|[|[|[|[|[|[|[|[|[|[|[|[|[|k]]]]]]]]]]]]]]; simpl; lia.
Qed.

(** What [strptime] has read, [strftime] writes back in ASCII digits. *)
Lemma strftime_strptime_text (s : text) (d : date) :
  is_date_text s = true -> strptime_mdy s = Some d ->
  strftime_mdy d = ascii_digits s.
Proof.
  intros Hshape.
  destruct s as [|a [|b [|s1 [|c [|x [|s2 [|f [|h [|z w]]]]]]]]];
    try discriminate.
  simpl in Hshape.
  repeat match type of Hshape with
  | _ && _ = true => apply andb_true_iff in Hshape; destruct Hshape as [Hshape ?]
  end.
  repeat match goal with
  | H : (_ =? _)%N = true |- _ => apply N.eqb_eq in H; subst
  end.
  unfold strptime_mdy, slice_nat, int_of_decimals. simpl firstn. simpl skipn.
  cbv beta iota delta [fold_left].
  pose proof (@two_digits_decimals a b ltac:(assumption) ltac:(assumption)) as Hm.
  pose proof (@two_digits_decimals c x ltac:(assumption) ltac:(assumption)) as Hd.
  pose proof (@two_digits_decimals f h ltac:(assumption) ltac:(assumption)) as Hy.
  pose proof (decimal_value_range f) as Hf.
  pose proof (decimal_value_range h) as Hh.
  set (yy := 10 * (10 * 0 + decimal_value f) + decimal_value h) in *.
  set (m := 10 * (10 * 0 + decimal_value a) + decimal_value b) in *.
  set (dd := 10 * (10 * 0 + decimal_value c) + decimal_value x) in *.
  assert (Hyy : 0 <= yy <= 99) by (unfold yy; lia).
  clearbody yy m dd.
  assert (Hmod : (if yy <=? 68 then 2000 + yy else 1900 + yy) mod 100 = yy).
  { destruct (Z.leb_spec yy 68); Z.div_mod_to_equations; lia. }
  set (y := if yy <=? 68 then 2000 + yy else 1900 + yy) in *.
  clearbody y.
  destruct (month_directive [a; b] && day_directive [c; x]
            && (dd <=? days_in_month y m));
    [|discriminate].
  intros He. injection He as <-. unfold strftime_mdy. cbn [year month day].
  rewrite Hmod, Hm, Hd, Hy. reflexivity.
Qed.

(** A date in ASCII digits is written in ASCII already. *)
Lemma ascii_digits_date_shape (s : text) :
  is_date_shape s = true -> ascii_digits s = s.
Proof.
  destruct s as [|a [|b [|s1 [|c [|x [|s2 [|f [|h [|z w]]]]]]]]];
    try discriminate.
  simpl. intros H.
  repeat match type of H with
  | _ && _ = true => apply andb_true_iff in H; destruct H as [H ?]
  end.
  repeat match goal with
  | Hs : (_ =? 47)%N = true |- _ => apply N.eqb_eq in Hs; subst
  end.
  unfold ascii_digits. cbn [List.map].
  change (ascii_digit 47) with 47%N.
  rewrite !ascii_digit_id by assumption. reflexivity.
Qed.

(** What [strptime] has read in ASCII digits, [strftime] writes back. *)
Lemma strftime_strptime (s : text) (d : date) :
  is_date_shape s = true -> strptime_mdy s = Some d -> strftime_mdy d = s.
Proof.
  intros Hshape Hparse.
  rewrite (@strftime_strptime_text s d (date_shape_text s Hshape) Hparse).
  now apply ascii_digits_date_shape.
Qed.

(** What [strftime] writes has the shape of a date. *)
Lemma strftime_shape (d : date) :
  0 <= month d <= 99 -> 0 <= day d <= 99 ->
  is_date_shape (strftime_mdy d) = true.
Proof.
  intros Hm Hd.
  cbv beta iota delta [strftime_mdy two_digits is_date_shape app].
  assert (Hdigit : forall n, 0 <= n <= 9 -> is_digit (Z.to_N (48 + n)) = true).
  { intros n Hn. unfold is_digit, in_range. apply andb_true_iff.
    split; apply N.leb_le; lia. }
  rewrite !Hdigit by (Z.div_mod_to_equations; lia). reflexivity.
Qed.

(** The directives of [strptime] take every month and every day as
    [strftime] writes them. *)
Lemma month_directive_two_digits (m : Z) :
  1 <= m <= 12 -> month_directive (two_digits m) = true.
Proof.
  intros Hm.
  assert (Hk : exists k, (k < 12)%nat /\ m = Z.of_nat (S k)).
  { exists (Z.to_nat (m - 1)). split; lia. }
  destruct Hk as (k & Hk & ->).
  do 12 (destruct k as [|k]; [reflexivity|]). lia.
Qed.

Lemma day_directive_two_digits (d : Z) :
  1 <= d <= 31 -> day_directive (two_digits d) = true.
Proof.
  intros Hd.
  assert (Hk : exists k, (k < 31)%nat /\ d = Z.of_nat (S k)).
  { exists (Z.to_nat (d - 1)). split; lia. }
  destruct Hk as (k & Hk & ->).
  do 31 (destruct k as [|k]; [vm_compute; reflexivity|]). lia.
Qed.

(** What [strftime] has written, [strptime] reads back, for a date of the
    calendar in the century that a two-digit year stands for. *)
Lemma strptime_strftime (d : date) :
  valid_date d = true -> 1969 <= year d <= 2068 ->
  strptime_mdy (strftime_mdy d) = Some d.
Proof.
  destruct d as [y m dd]. unfold valid_date. cbn [year month day].
  intros Hvalid Hy.
  repeat match type of Hvalid with
  | _ && _ = true => apply andb_true_iff in Hvalid; destruct Hvalid as [Hvalid ?]
  end.
  pose proof (days_in_month_le_31 y m) as H31.
  assert (Hm1 : 1 <= m) by now apply Z.leb_le.
  assert (Hm2 : m <= 12) by now apply Z.leb_le.
  assert (Hd1 : 1 <= dd) by now apply Z.leb_le.
  assert (Hd2 : dd <= days_in_month y m) by now apply Z.leb_le.
  unfold strptime_mdy, strftime_mdy. cbn [year month day].
  change (slice_nat (two_digits m ++ [47%N] ++ two_digits dd ++ [47%N]
                     ++ two_digits (y mod 100)) 0 2) with (two_digits m).
  change (slice_nat (two_digits m ++ [47%N] ++ two_digits dd ++ [47%N]
                     ++ two_digits (y mod 100)) 3 5) with (two_digits dd).
  change (slice_nat (two_digits m ++ [47%N] ++ two_digits dd ++ [47%N]
                     ++ two_digits (y mod 100)) 6 8) with (two_digits (y mod 100)).
  rewrite !int_of_two_digits by (Z.div_mod_to_equations; lia).
  assert (Hyear : (if y mod 100 <=? 68 then 2000 + y mod 100 else 1900 + y mod 100) = y).
  { destruct (Z.leb_spec (y mod 100) 68); Z.div_mod_to_equations; lia. }
  rewrite Hyear.
  rewrite month_directive_two_digits by lia.
  rewrite day_directive_two_digits by lia.
  replace (dd <=? days_in_month y m) with true by (symmetry; apply Z.leb_le; lia).
  reflexivity.
Qed.

End DateTextFacts.

(** X7. The two-digit dates round-trip: a date-shaped string that [strptime]
    accepts is written back unchanged by [strftime], and a date of the
    calendar between 1969 and 2068 is read back from what [strftime] writes
    of it. Outside these years the round trip fails, the century being
    lost: 2069 is written 69 and read back as 1969. *)
Theorem strptime_strftime_round_trip :
  (forall (s : text) (d : date),
     is_date_shape s = true -> strptime_mdy s = Some d -> strftime_mdy d = s)
  /\ (forall d : date,
        valid_date d = true -> (1969 <= year d <= 2068)%Z ->
        is_date_shape (strftime_mdy d) = true
        /\ strptime_mdy (strftime_mdy d) = Some d)
  /\ strptime_mdy (strftime_mdy (mkDate 2069 1 31)) = Some (mkDate 1969 1 31).
Proof.
  split; [exact strftime_strptime|]. split; [|reflexivity].
  intros d Hvalid Hyear. split; [|now apply (@strptime_strftime d)].
  pose proof (days_in_month_le_31 (year d) (month d)) as H31.
  unfold valid_date in Hvalid.
  repeat match type of Hvalid with
  | _ && _ = true => apply andb_true_iff in Hvalid; destruct Hvalid as [Hvalid ?]
  end.
  repeat match goal with
  | H : (_ <=? _)%Z = true |- _ => apply Z.leb_le in H
  end.
  apply strftime_shape; lia.
Qed.

(** The closing date of the sample statement, and a leap day. *)
Lemma strptime_strftime_round_trip_witness :
  strftime_mdy (mkDate 2024 3 15) = str "03/15/24"
  /\ strptime_mdy (strftime_mdy (mkDate 2024 2 29)) = Some (mkDate 2024 2 29).
Proof.
  destruct strptime_strftime_round_trip as (Hwrite & Hread & _).
  split.
  - apply (Hwrite (str "03/15/24")); reflexivity.
  - apply (Hread (mkDate 2024 2 29)); [reflexivity | cbn; lia].
Defined.

Section PeriodResultFacts.

(** A period is returned for the string of the leftmost anchor, which
    [strptime] accepts. *)
Lemma parse_statement_period_inr (pdf_text : text) (start_date end_date : date) :
  parse_statement_period pdf_text = inr (start_date, end_date) ->
  exists i d,
    closing_date_at pdf_text i d
    /\ (forall j d', j < i -> ~ closing_date_at pdf_text j d')
    /\ strptime_mdy d = Some end_date
    /\ start_date = date_minus_days end_date 30.
Proof.
  unfold parse_statement_period.
  destruct (re_search closing_date_re pdf_text) as [m|] eqn:Hsearch;
    [|discriminate].
  destruct (strptime_mdy (group1 pdf_text m)) as [e|] eqn:Hparse;
    [|discriminate].
  intros [= <- <-].
  apply re_search_Some in Hsearch. destruct Hsearch as (w & Hm & _ & Hfirst).
  apply matches_closing_date in Hm.
  destruct Hm as (a & d & Hg & Hslice & Hanchor).
  exists (m_start m), d. split; [assumption|]. split; [|split; [|reflexivity]].
  - intros j d' Hlt Hanchor'.
    destruct (closing_date_matches Hanchor') as (w' & a' & Hm' & _).
    exact (Hfirst _ _ _ Hlt Hm').
  - unfold group1 in Hparse. now rewrite Hg, Hslice in Hparse.
Qed.

(** The day 30 days before a date that [strptime] has read is a date of
    the calendar. *)
Lemma thirty_days_before (d : text) (e : date) :
  is_date_text d = true -> strptime_mdy d = Some e ->
  valid_date (date_minus_days e 30) = true
  /\ (ymd2ord e - ymd2ord (date_minus_days e 30) = 30)%Z.
Proof.
  intros Hshape Hparse.
  destruct (@strptime_mdy_valid d e Hshape Hparse) as [Hyear Hvalid].
  destruct e as [y mo dd]. cbn [year] in Hyear.
  pose proof (@period_check_valid y mo dd ltac:(lia) Hvalid) as Hcheck.
  unfold period_check in Hcheck. apply andb_true_iff in Hcheck.
  destruct Hcheck as [Hdiff Hstart]. apply Z.eqb_eq in Hdiff. auto.
Qed.

End PeriodResultFacts.

(** X8. Whenever a period is returned, its end is a date of the calendar
    between 1969 and 2068 (a two-digit year up to 68 is read in the 2000s,
    from 69 on in the 1900s), and its start is the date of the calendar 30
    days earlier. The end is the date that the text carries after its
    leftmost "Closing Date": [strftime] writes it back as it stands there,
    in ASCII digits whatever the digits of the text; so, when the text has
    the date in ASCII digits, what [strftime] writes follows that "Closing
    Date" in the text. *)
Theorem parse_statement_period_result :
  forall (pdf_text : text) (start_date end_date : date),
    parse_statement_period pdf_text = inr (start_date, end_date) ->
    (1969 <= year end_date <= 2068)%Z
    /\ valid_date end_date = true
    /\ valid_date start_date = true
    /\ (ymd2ord end_date - ymd2ord start_date = 30)%Z
    /\ exists i d,
         closing_date_at pdf_text i d
         /\ (forall j d', j < i -> ~ closing_date_at pdf_text j d')
         /\ strptime_mdy d = Some end_date
         /\ strftime_mdy end_date = ascii_digits d
         /\ (is_date_shape d = true ->
             closing_anchor_at pdf_text i (strftime_mdy end_date)).
Proof.
  intros pdf_text start_date end_date Hperiod.
  destruct (@parse_statement_period_inr _ _ _ Hperiod)
    as (i & d & Hanchor & Hleft & Hparse & ->).
  assert (Hshape : is_date_text d = true).
  { destruct Hanchor as (ws & rest & _ & _ & Hshape). exact Hshape. }
  destruct (@strptime_mdy_valid d end_date Hshape Hparse) as [Hyear Hvalid].
  destruct (@thirty_days_before _ _ Hshape Hparse) as [Hstart Hdiff].
  split; [exact Hyear|]. split; [exact Hvalid|].
  split; [exact Hstart|]. split; [exact Hdiff|].
  exists i, d. split; [exact Hanchor|]. split; [exact Hleft|].
  split; [exact Hparse|].
  split; [exact (@strftime_strptime_text _ _ Hshape Hparse)|].
  intros Hascii. rewrite (@strftime_strptime _ _ Hascii Hparse).
  destruct Hanchor as (ws & rest & Hs & Hws & _).
  exists ws, rest. auto.
Qed.

(** A statement that closes on 12/31/68: the period ends in 2068. And a
    closing date with its year in full-width digits, which [strftime]
    writes in ASCII digits. *)
Lemma parse_statement_period_result_witness :
  let pdf_text := str "Statement Closing Date 12/31/68 Page 1" in
  let wide := str "Closing Date 03/15/" ++ [65298; 65300]%N in
  parse_statement_period pdf_text = inr (mkDate 2068 12 1, mkDate 2068 12 31)
  /\ (1969 <= 2068 <= 2068)%Z
  /\ (exists i d,
        closing_date_at pdf_text i d /\ ascii_digits d = str "12/31/68")
  /\ parse_statement_period wide = inr (mkDate 2024 2 14, mkDate 2024 3 15)
  /\ (exists i d,
        closing_date_at wide i d /\ ascii_digits d = str "03/15/24").
Proof.
  intros pdf_text wide.
  assert (Hrun : parse_statement_period pdf_text
                 = inr (mkDate 2068 12 1, mkDate 2068 12 31))
    by (vm_compute; reflexivity).
  assert (Hwide : parse_statement_period wide
                  = inr (mkDate 2024 2 14, mkDate 2024 3 15))
    by (vm_compute; reflexivity).
  split; [exact Hrun|].
  destruct (@parse_statement_period_result pdf_text _ _ Hrun)
    as (Hyear & _ & _ & _ & i & d & Hanchor & _ & _ & Hwrite & _).
  split; [exact Hyear|]. split.
  - exists i, d. split; [exact Hanchor|]. now rewrite <- Hwrite.
  - split; [exact Hwide|].
    destruct (@parse_statement_period_result wide _ _ Hwide)
      as (_ & _ & _ & _ & i' & d' & Hanchor' & _ & _ & Hwrite' & _).
    exists i', d'. split; [exact Hanchor'|]. now rewrite <- Hwrite'.
Defined.

(** ** SectionLocator: the names and the spans of the sections *)

Section LocatedFacts.

Lemma lstrip_incl (s : text) (x : char) : In x (lstrip s) -> In x s.
Proof.
  destruct (lstrip_suffix s) as (pre & Heq & _). intros Hx.
  rewrite Heq. apply in_or_app. now right.
Qed.

Lemma strip_incl (s : text) (x : char) : In x (strip s) -> In x s.
Proof.
  unfold strip. intros Hx. apply in_rev in Hx. apply lstrip_incl in Hx.
  apply in_rev in Hx. now apply lstrip_incl.
Qed.

(** Every section comes from an anchor of the text, at its offset. *)
Lemma find_cardholder_sections_anchor (t : text) (name : text) (off : Z) :
  In (name, off) (find_cardholder_sections t) ->
  exists raw ws,
    section_anchor_at t (Z.to_nat off) raw ws
    /\ (0 <= off)%Z /\ name = strip raw.
Proof.
  rewrite find_cardholder_sections_map. intros Hin.
  apply in_map_iff in Hin. destruct Hin as (m & Heq & Hin).
  injection Heq as <- <-.
  pose proof (re_finditer_scan t never_empty_section_re) as Hscan.
  destruct (scan_sound Hscan m Hin) as (w & Hm & _ & _).
  apply section_matches_anchor in Hm.
  destruct Hm as (raw & ws & Hanchor & -> & Hg).
  exists raw, ws. rewrite Nat2Z.id, (group1_section m Hanchor Hg).
  split; [assumption|]. split; [lia | reflexivity].
Qed.

Lemma section_anchor_in_text (t : text) (i : nat) (raw ws : text) :
  section_anchor_at t i raw ws -> i < length t.
Proof.
  intros (rest & Hs & Hraw & _).
  destruct raw as [|c raw]; [discriminate|].
  destruct (Nat.lt_ge_cases i (length t)) as [Hlt|Hge]; [assumption|].
  rewrite skipn_all2 in Hs by assumption. discriminate.
Qed.

Lemma name_token_chars (raw : text) :
  is_name_token raw = true -> forallb is_upper_or_blank raw = true.
Proof.
  destruct raw as [|c rest]; [discriminate|]. intros H.
  change (is_upper c && forallb is_upper_or_blank rest
          && (1 <=? length rest) && (length rest <=? 80) = true) in H.
  apply andb_true_iff in H. destruct H as [H _].
  apply andb_true_iff in H. destruct H as [H _].
  apply andb_true_iff in H. destruct H as [Hc Hall].
  simpl. unfold is_upper_or_blank at 1. now rewrite Hc, Hall.
Qed.

Lemma slice_to_end_length (t : text) (pos : Z) :
  (0 <= pos <= Z.of_nat (length t))%Z ->
  length (slice t pos None) = length t - Z.to_nat pos.
Proof.
  intros Hpos. unfold slice, slice_index.
  replace (pos <? 0)%Z with false by (symmetry; apply Z.ltb_ge; lia).
  rewrite Z.min_l by lia.
  rewrite firstn_all2; rewrite length_skipn; lia.
Qed.

Lemma marker_line_in_text (s : text) (p : nat) :
  marker_line_at s p -> p <= length s.
Proof. intros (kw & _ & _ & Hp & _). exact Hp. Qed.

End LocatedFacts.

(** X9. Every name that the locator returns is made of capital letters and
    blanks only and has no white space at either end: stripping and
    upper-casing, as the resolver does, leave it unchanged. Its offset is
    an offset of the text. *)
Theorem find_cardholder_sections_names_normal :
  forall (t : text) (name : text) (off : Z),
    In (name, off) (find_cardholder_sections t) ->
    forallb is_upper_or_blank name = true
    /\ strip name = name
    /\ upper name = name
    /\ (0 <= off < Z.of_nat (length t))%Z.
Proof.
  intros t name off Hin.
  pose proof (find_cardholder_sections_normal t (name, off) Hin) as Hnormal.
  destruct (find_cardholder_sections_anchor t name off Hin)
    as (raw & ws & Hanchor & Hoff & Hname).
  pose proof (section_anchor_in_text Hanchor) as Hlt.
  destruct Hanchor as (rest & _ & Hraw & _).
  assert (Hchars : forallb is_upper_or_blank name = true).
  { apply forallb_forall. intros x Hx. rewrite Hname in Hx.
    apply strip_incl in Hx.
    exact (proj1 (forallb_forall _ _) (name_token_chars _ Hraw) x Hx). }
  assert (Hupper : upper name = name) by now apply upper_upper_or_blank.
  assert (Hstrip : strip name = name).
  { simpl in Hnormal. unfold normalize_name in Hnormal.
    rewrite upper_upper_or_blank in Hnormal; [assumption|].
    apply forallb_forall. intros x Hx. apply strip_incl in Hx.
    exact (proj1 (forallb_forall _ _) Hchars x Hx). }
  split; [assumption|]. split; [assumption|]. split; [assumption|]. lia.
Qed.

(** A section found in a statement. *)
Lemma find_cardholder_sections_names_normal_witness :
  let t := str "xx JANET SMITH   Card Ending 1" in
  In (str "JANET SMITH", 3%Z) (find_cardholder_sections t)
  /\ strip (str "JANET SMITH") = str "JANET SMITH"
  /\ upper (str "JANET SMITH") = str "JANET SMITH".
Proof.
  intros t.
  assert (Hin : In (str "JANET SMITH", 3%Z) (find_cardholder_sections t))
    by (vm_compute; now left).
  split; [exact Hin|].
  destruct (@find_cardholder_sections_names_normal t _ _ Hin)
    as (_ & Hstrip & Hupper & _).
  split; assumption.
Defined.

(** X10. The resolver on the sections that the locator returns: when the
    upper-cased target is the name of one of them, that name is the
    result, whatever the other names score. *)
Theorem select_exact_among_located :
  forall (t target : text) (off : Z),
    In (upper target, off) (find_cardholder_sections t) ->
    select_target_section_name target (find_cardholder_sections t)
    = Some (upper target).
Proof.
  intros t target off Hin.
  assert (Hnorm : normalize_name (upper target) = upper target)
    by exact (find_cardholder_sections_normal t (upper target, off) Hin).
  destruct (In_split_first
              (fun q : text * Z => normalize_name (fst q) = upper target)
              (fun q => list_eq_dec N.eq_dec (normalize_name (fst q)) (upper target))
              (find_cardholder_sections t) (upper target, off) Hin Hnorm)
    as (pre & [n p] & post & Hsplit & Hn & Hpre).
  assert (Hn' : normalize_name n = n).
  { apply (find_cardholder_sections_normal t (n, p)).
    rewrite Hsplit. apply in_elt. }
  simpl in Hn. rewrite Hn' in Hn. subst n.
  unfold select_target_section_name.
  rewrite (proj2 (normalize_available_inl (upper target)
                    (find_cardholder_sections t) (upper target)));
    [reflexivity|].
  exists pre, p, post. repeat split; assumption.
Qed.

(** The target [Carlos Diaz] on a statement with two cardholders. *)
Lemma select_exact_among_located_witness :
  let t := str "JANET SMITH Card Ending 1 $5.00 CARLOS DIAZ Card Ending 2" in
  select_target_section_name (str "Carlos Diaz") (find_cardholder_sections t)
  = Some (str "CARLOS DIAZ").
Proof.
  intros t.
  apply (@select_exact_among_located t (str "Carlos Diaz") 32%Z).
  vm_compute. right. now left.
Defined.

(** X11. The span of a section. For a section of the locator at a positive
    offset, the end computed by the extractor lies after the offset of the
    section and within the text: the section text is a part of the
    document that is not empty. *)
Theorem section_span_in_document :
  forall (t : text) (name : text) (pos : Z),
    In (name, pos) (find_cardholder_sections t) ->
    (0 < pos)%Z ->
    (pos < section_end t (find_cardholder_sections t) pos
     <= Z.of_nat (length t))%Z.
Proof.
  intros t name pos Hin Hpos.
  set (sections := find_cardholder_sections t) in *.
  assert (Hoffsets : forall b, In b (List.map snd sections) ->
                               (0 <= b < Z.of_nat (length t))%Z).
  { intros b Hb. apply in_map_iff in Hb. destruct Hb as ([n o] & <- & Hq).
    destruct (find_cardholder_sections_anchor t n o Hq)
      as (raw & ws & Hanchor & Ho & _).
    pose proof (section_anchor_in_text Hanchor). simpl. lia. }
  assert (Hp : (0 <= pos < Z.of_nat (length t))%Z).
  { apply Hoffsets. apply in_map_iff. exists (name, pos). auto. }
  assert (Hsummary : (find_summary_pos t pos <= Z.of_nat (length t))%Z).
  { destruct (@find_summary_pos_spec t pos Hpos)
      as [[Hsp _]|(q & Hsp & Hq & _)]; rewrite Hsp; [lia|].
    apply marker_line_in_text in Hq.
    rewrite slice_to_end_length in Hq by lia. lia. }
  pose proof (find_next_cardholder_pos_spec sections pos) as Hnext.
  unfold section_end. fold sections.
  destruct (find_next_cardholder_pos sections pos) as [a|]; simpl.
  - destruct Hnext as (Ha & Hlt & _).
    replace (pos <? a)%Z with true by (symmetry; now apply Z.ltb_lt).
    apply Hoffsets in Ha.
    destruct (Z.ltb_spec pos (find_summary_pos t pos)); simpl; lia.
  - destruct (Z.ltb_spec pos (find_summary_pos t pos)); simpl; lia.
Qed.

(** The section of CARLOS DIAZ, at offset 32 of a statement. *)
Lemma section_span_in_document_witness :
  let t := str "JANET SMITH Card Ending 1 $5.00 CARLOS DIAZ Card Ending 2 01/02/24 X $1" in
  (32 < section_end t (find_cardholder_sections t) 32
   <= Z.of_nat (length t))%Z.
Proof.
  intros t.
  apply (@section_span_in_document t (str "CARLOS DIAZ") 32%Z).
  - vm_compute. right. now left.
  - reflexivity.
Defined.

(** ** NameResolver: the choice among the scored sections *)

Section BestScoreFacts.

Variable target : text.

Let target_norm := upper target.
Let target_tokens := set_of (split_ws target_norm).

(** The score of a section name against the target. *)
Let score (name : text) : nat :=
  score_of target_norm target_tokens (normalize_name name).

Lemma normalize_available_no_exact (available : list (text * Z)) :
  (forall q, In q available -> normalize_name (fst q) <> target_norm) ->
  normalize_available target_norm available
  = inr (List.map (fun q => mkItem (fst q) (normalize_name (fst q)) (snd q))
           available).
Proof.
  induction available as [|[n p] rest IH]; intros Hne; simpl; [reflexivity|].
  fold (normalize_name n).
  pose proof (Hne (n, p) (or_introl eq_refl)) as Hn. simpl in Hn.
  rewrite (proj2 (text_eqb_neq _ _) Hn).
  rewrite IH; [reflexivity|]. intros q Hq. apply Hne. now right.
Qed.

Lemma score_candidates_filter (available : list (text * Z)) :
  score_candidates target_norm target_tokens
    (List.map (fun q => mkItem (fst q) (normalize_name (fst q)) (snd q)) available)
  = List.map (fun q => (score (fst q), fst q))
      (filter (fun q => 0 <? score (fst q)) available).
Proof.
  induction available as [|[n p] rest IH]; simpl; [reflexivity|].
  fold (score n). destruct (0 <? score n); simpl; now rewrite IH.
Qed.

Lemma max_by_score_keeps (best : nat * text) (l : list (nat * text)) :
  (forall c, In c l -> fst c <= fst best) -> max_by_score best l = best.
Proof.
  induction l as [|c l IH]; intros Hle; simpl; [reflexivity|].
  replace (fst best <? fst c) with false.
  - apply IH. intros c' Hc'. apply Hle. now right.
  - symmetry. apply Nat.ltb_ge. apply Hle. now left.
Qed.

(** [max] returns the first of the candidates with the greatest score. *)
Lemma max_by_score_first (best c : nat * text) (pre post : list (nat * text)) :
  fst best < fst c ->
  (forall x, In x pre -> fst x < fst c) ->
  (forall x, In x post -> fst x <= fst c) ->
  max_by_score best (pre ++ c :: post) = c.
Proof.
  revert best. induction pre as [|x pre IH]; intros best Hbest Hpre Hpost; simpl.
  - replace (fst best <? fst c) with true by (symmetry; now apply Nat.ltb_lt).
    now apply max_by_score_keeps.
  - destruct (fst best <? fst x).
    + apply IH; [apply Hpre; now left | | exact Hpost].
      intros y Hy. apply Hpre. now right.
    + apply IH; [exact Hbest | | exact Hpost].
      intros y Hy. apply Hpre. now right.
Qed.

Lemma select_best (available pre post : list (text * Z)) (name : text) (pos : Z) :
  (forall q, In q available -> normalize_name (fst q) <> upper target) ->
  available = pre ++ (name, pos) :: post ->
  0 < score name ->
  (forall q, In q pre -> score (fst q) < score name) ->
  (forall q, In q post -> score (fst q) <= score name) ->
  select_target_section_name target available = Some name.
Proof.
  intros Hne Hsplit Hpos Hpre Hpost.
  unfold select_target_section_name. fold target_norm. fold target_tokens.
  rewrite (normalize_available_no_exact _ Hne), score_candidates_filter.
  rewrite Hsplit, filter_app, map_app. simpl filter.
  replace (0 <? score name) with true by (symmetry; now apply Nat.ltb_lt).
  simpl List.map.
  set (f := fun q : text * Z => (score (fst q), fst q)).
  set (keep := fun q : text * Z => 0 <? score (fst q)).
  assert (Hpre' : forall x, In x (List.map f (filter keep pre)) ->
                            fst x < fst (score name, name)).
  { intros x Hx. apply in_map_iff in Hx. destruct Hx as (q & <- & Hq).
    apply filter_In in Hq. simpl. apply Hpre. tauto. }
  assert (Hpost' : forall x, In x (List.map f (filter keep post)) ->
                             fst x <= fst (score name, name)).
  { intros x Hx. apply in_map_iff in Hx. destruct Hx as (q & <- & Hq).
    apply filter_In in Hq. simpl. apply Hpost. tauto. }
  destruct (List.map f (filter keep pre)) as [|b pre'] eqn:Hb; simpl.
  - now rewrite (max_by_score_keeps _ _ Hpost').
  - rewrite (@max_by_score_first b (score name, name) pre'
               (List.map f (filter keep post))); auto.
    + apply Hpre'. now left.
    + intros x Hx. apply Hpre'. now right.
Qed.

End BestScoreFacts.

(** X12. Without an exact match, the resolver returns the section with the
    greatest score, provided that score is positive; among sections of
    equal greatest score it returns the one that comes first in the list.
    Here [name] stands where every section before it scores less and none
    after it scores more. *)
Theorem select_first_of_greatest_score :
  forall (target : text) (available pre post : list (text * Z))
         (name : text) (pos : Z),
    let score n :=
      score_of (upper target) (set_of (split_ws (upper target)))
        (normalize_name n) in
    (forall q, In q available -> normalize_name (fst q) <> upper target) ->
    available = pre ++ (name, pos) :: post ->
    0 < score name ->
    (forall q, In q pre -> score (fst q) < score name) ->
    (forall q, In q post -> score (fst q) <= score name) ->
    select_target_section_name target available = Some name.
Proof.
  intros target available pre post name pos score. apply select_best.
Qed.

(** The target [Janet S] against three sections: [JANET SMITH] and
    [JANET STONE] both score 19, [CARLOS DIAZ] scores 0; the first of the
    two is returned. *)
Lemma select_first_of_greatest_score_witness :
  select_target_section_name (str "Janet S")
    [(str "CARLOS DIAZ", 100%Z); (str "JANET SMITH", 900%Z);
     (str "JANET STONE", 1700%Z)]
  = Some (str "JANET SMITH").
Proof.
  apply (@select_first_of_greatest_score (str "Janet S")
           [(str "CARLOS DIAZ", 100%Z); (str "JANET SMITH", 900%Z);
            (str "JANET STONE", 1700%Z)]
           [(str "CARLOS DIAZ", 100%Z)] [(str "JANET STONE", 1700%Z)]
           (str "JANET SMITH") 900%Z).
  - intros q [<-|[<-|[<-|[]]]]; vm_compute; discriminate.
  - reflexivity.
  - vm_compute. lia.
  - intros q [<-|[]]. vm_compute. lia.
  - intros q [<-|[]]. vm_compute. lia.
Defined.

Section EmptyTargetFacts.

Lemma contains_nil (s : text) : contains s [] = true.
Proof. destruct s; reflexivity. Qed.

(** Against an empty target every section name scores 5: no token to
    share, and the empty string is part of every name. *)
Lemma score_of_empty_target (name_norm : text) :
  score_of (upper []) (set_of (split_ws (upper []))) name_norm = 5.
Proof. rewrite score_of_sum. simpl. now rewrite contains_nil. Qed.

End EmptyTargetFacts.

(** X13. An empty target, as a file name made of an extension alone gives,
    matches no section exactly, every section scores the same 5, and the
    resolver returns the first section of the list. *)
Theorem select_empty_target_returns_first :
  forall (name : text) (pos : Z) (rest : list (text * Z)),
    (forall q, In q ((name, pos) :: rest) -> normalize_name (fst q) <> []) ->
    select_target_section_name [] ((name, pos) :: rest) = Some name.
Proof.
  intros name pos rest Hne.
  apply (@select_best [] ((name, pos) :: rest) [] rest name pos).
  - exact Hne.
  - reflexivity.
  - rewrite score_of_empty_target. lia.
  - intros q [].
  - intros q _. rewrite !score_of_empty_target. lia.
Qed.

(** The workbook [.xlsx] against the two sections of a statement. *)
Lemma select_empty_target_returns_first_witness :
  derive_name_from_excel_filename (str ".xlsx") = []
  /\ select_target_section_name (derive_name_from_excel_filename (str ".xlsx"))
       [(str "JANET SMITH", 43%Z); (str "CARLOS DIAZ", 155%Z)]
     = Some (str "JANET SMITH").
Proof.
  split; [vm_compute; reflexivity|].
  change (derive_name_from_excel_filename (str ".xlsx")) with (@nil char).
  apply (@select_empty_target_returns_first (str "JANET SMITH") 43%Z
           [(str "CARLOS DIAZ", 155%Z)]).
  intros q [<-|[<-|[]]]; vm_compute; discriminate.
Defined.

(** ** TransactionExtractor: a statement without delimiters *)

Section DelimiterFacts.

Lemma never_empty_delimiter_re : never_empty delimiter_re.
Proof.
  intros prev pos w g g' H. unfold delimiter_re in H.
  apply matches_rep_inv in H. destruct H as (_ & Hlo & _).
  intros ->. simpl in Hlo. lia.
Qed.

Lemma slice_incl (s : text) (a : Z) (b : option Z) (x : char) :
  In x (slice s a b) -> In x s.
Proof.
  unfold slice. intros H.
  match type of H with
  | In x (firstn ?n (skipn ?k s)) =>
      rewrite <- (firstn_skipn k s); apply in_or_app; right;
      rewrite <- (firstn_skipn n (skipn k s)); apply in_or_app; now left
  end.
Qed.

(** A text without delimiter is one chunk. *)
Lemma re_split_no_delimiter (s : text) :
  forallb (fun c => negb (is_delimiter c)) s = true ->
  re_split delimiter_re s = [s].
Proof.
  intros Hnone. unfold re_split.
  pose proof (re_finditer_scan s never_empty_delimiter_re) as Hscan.
  rewrite (proj2 (scan_nil Hscan)).
  - simpl. unfold slice_nat. rewrite Nat.sub_0_r. simpl.
    now rewrite firstn_all.
  - intros j w g _ (rest & Hs & _ & Hm).
    pose proof (never_empty_delimiter_re Hm) as Hne.
    unfold delimiter_re in Hm. apply matches_rep_inv in Hm.
    destruct Hm as (Hall & _).
    destruct w as [|c w]; [congruence|].
    simpl in Hall. apply andb_true_iff in Hall. destruct Hall as [Hc _].
    rewrite forallb_forall in Hnone.
    assert (Hin : In c s).
    { rewrite <- (firstn_skipn j s), Hs. apply in_or_app. right. now left. }
    apply Hnone in Hin. rewrite Hc in Hin. discriminate.
Qed.

End DelimiterFacts.

(** X14. The transactions of a section are told apart by the delimiter glyphs
    alone. From a statement that holds none of them the extractor returns
    one transaction at most for a cardholder, however many dated lines the
    section has: the whole section is one chunk, read as one transaction
    with the first date and the last amount of the section. *)
Theorem extract_without_delimiter_at_most_one :
  forall (pdf_text target_name : text) (sections : list (text * Z)),
    forallb (fun c => negb (is_delimiter c)) pdf_text = true ->
    length (extract_transactions_for_name pdf_text target_name sections) <= 1
    /\ forall target_pos,
         lookup_pos target_name sections = Some target_pos ->
         target_pos <> 0%Z ->
         extract_transactions_for_name pdf_text target_name sections
         = option_to_list
             (chunk_transaction
                (slice pdf_text target_pos
                   (Some (section_end pdf_text sections target_pos)))).
Proof.
  intros pdf_text target_name sections Hnone.
  assert (Hchunk : forall target_pos,
            re_split delimiter_re
              (slice pdf_text target_pos
                 (Some (section_end pdf_text sections target_pos)))
            = [slice pdf_text target_pos
                 (Some (section_end pdf_text sections target_pos))]).
  { intros target_pos. apply re_split_no_delimiter.
    apply forallb_forall. intros x Hx. apply slice_incl in Hx.
    exact (proj1 (forallb_forall _ _) Hnone x Hx). }
  unfold extract_transactions_for_name. split.
  - destruct (lookup_pos target_name sections) as [target_pos|]; [|simpl; lia].
    destruct (target_pos =? 0)%Z; [simpl; lia|].
    cbv zeta. rewrite Hchunk. simpl. rewrite app_nil_r.
    destruct (chunk_transaction _); simpl; lia.
  - intros target_pos Hlookup Hpos. rewrite Hlookup.
    replace (target_pos =? 0)%Z with false by (symmetry; now apply Z.eqb_neq).
    cbv zeta. rewrite Hchunk. simpl. now rewrite app_nil_r.
Qed.

(** A statement with two dated lines and no delimiter: one transaction,
    with the first date and the last amount. *)
Lemma extract_without_delimiter_at_most_one_witness :
  let pdf_text :=
    str "x JANET SMITH Card Ending 1234" ++ [10%N]
    ++ str "02/20/24 BOOK STORE $25.00" ++ [10%N]
    ++ str "03/01/24 CAFE $4.50" ++ [10%N] in
  length (extract_transactions_for_name pdf_text (str "JANET SMITH")
            (find_cardholder_sections pdf_text)) <= 1
  /\ List.map txn_date
       (extract_transactions_for_name pdf_text (str "JANET SMITH")
          (find_cardholder_sections pdf_text)) = [str "02/20/24"]
  /\ List.map txn_amount
       (extract_transactions_for_name pdf_text (str "JANET SMITH")
          (find_cardholder_sections pdf_text)) = [4.5%float].
Proof.
  intros pdf_text.
  split; [|split; vm_compute; reflexivity].
  apply (@extract_without_delimiter_at_most_one pdf_text (str "JANET SMITH")
           (find_cardholder_sections pdf_text)).
  vm_compute. reflexivity.
Defined.

(** ** TransactionExtractor: the transactions returned *)

Section TransactionFacts.

Lemma lstrip_result_head (s : text) (c : char) (rest : text) :
  lstrip s = c :: rest -> is_space c = false.
Proof.
  induction s as [|x s IH]; simpl; [discriminate|].
  destruct (is_space x) eqn:Hx; [exact IH|].
  intros [= <- _]. exact Hx.
Qed.

(** [strip] leaves what it returns as it is. *)
Lemma strip_strip (s : text) : strip (strip s) = strip s.
Proof.
  apply strip_id.
  - intros c rest Heq. unfold strip in Heq.
    apply (f_equal (@rev _)) in Heq. rewrite rev_involutive in Heq.
    simpl in Heq.
    destruct (lstrip_suffix (rev (lstrip s))) as (pre & Hsuffix & _).
    rewrite Heq in Hsuffix.
    apply (f_equal (@rev _)) in Hsuffix. rewrite rev_involutive in Hsuffix.
    rewrite app_assoc, rev_app_distr in Hsuffix. simpl in Hsuffix.
    exact (lstrip_result_head _ Hsuffix).
  - intros pre c Heq. unfold strip in Heq.
    apply (f_equal (@rev _)) in Heq.
    rewrite rev_involutive, rev_app_distr in Heq. simpl in Heq.
    exact (lstrip_result_head _ Heq).
Qed.

(** The white space of [' '.join(s.split())] is single spaces. *)
Lemma join_space_blanks (words : list text) :
  Forall (fun w => no_space w = true) words ->
  forallb (fun c => negb (is_space c) || (c =? 32)%N) (join_space words) = true.
Proof.
  induction 1 as [|w l Hw Hl IH]; [reflexivity|].
  assert (Hword : forallb (fun c => negb (is_space c) || (c =? 32)%N) w = true).
  { unfold no_space in Hw. rewrite forallb_forall in *.
    intros x Hx. now rewrite (Hw x Hx). }
  destruct l as [|w' l'].
  - exact Hword.
  - rewrite join_space_cons by discriminate.
    rewrite forallb_app, Hword. simpl. exact IH.
Qed.

Lemma collapse_blanks (chunk : text) :
  forallb (fun c => negb (is_space c) || (c =? 32)%N)
    (join_space (split_ws chunk)) = true.
Proof.
  apply join_space_blanks.
  eapply Forall_impl; [|apply split_ws_words]. simpl. tauto.
Qed.

Lemma slice_nat_incl (s : text) (a b : nat) (x : char) :
  In x (slice_nat s a b) -> In x s.
Proof.
  unfold slice_nat. intros H.
  rewrite <- (firstn_skipn a s). apply in_or_app. right.
  rewrite <- (firstn_skipn (b - a) (skipn a s)). apply in_or_app. now left.
Qed.

(** What a chunk yields, when it yields a transaction. *)
Lemma chunk_transaction_fields (chunk : text) (t : Transaction) :
  chunk_transaction chunk = Some t ->
  is_date_text (txn_date t) = true
  /\ strip (txn_merchant t) = txn_merchant t
  /\ forallb (fun c => negb (is_space c) || (c =? 32)%N) (txn_merchant t) = true
  /\ startswith (upper (txn_merchant t)) (str "CARD ENDING") = false
  /\ exists n, is_amount_numeral n
               /\ txn_amount t = float_of_numeral (remove_commas n).
Proof.
  unfold chunk_transaction.
  set (ch := join_space (split_ws chunk)).
  destruct (re_search date_group_re ch) as [md|] eqn:Hdate; [|discriminate].
  destruct (last_opt (re_finditer amount_re ch)) as [ma|] eqn:Hamt; [|discriminate].
  destruct (@date_search_Some ch md Hdate) as (d & (rest & _ & Hshape) & _ & Hgd & _).
  destruct (@amount_last_Some ch ma Hamt) as (n & (rest' & _ & Hn) & _ & Hgn).
  destruct (startswith (upper (strip (slice_nat ch (m_end md) (m_start ma))))
              (str "CARD ENDING")) eqn:Hcard; simpl; [discriminate|].
  intros [= <-]. cbn [txn_date txn_merchant txn_amount].
  rewrite Hgd, Hgn. split; [assumption|]. split; [apply strip_strip|].
  split; [|split; [assumption | exists n; auto]].
  apply forallb_forall. intros x Hx.
  apply strip_incl, slice_nat_incl in Hx.
  exact (proj1 (forallb_forall _ _) (collapse_blanks chunk) x Hx).
Qed.

End TransactionFacts.

(** X15. Every transaction that the extractor returns has a date of two
    decimal digits, a slash, two decimal digits, a slash and two decimal
    digits (of which the extractor checks the shape only, not the calendar;
    the digits are those of any script), a merchant text without white
    space at either end, whose only white space is the space, and which,
    upper-cased, does not start with "CARD ENDING", and an amount that is
    the value of a numeral of ASCII digits and commas with two decimals. *)
Theorem extract_transactions_wellformed :
  forall (pdf_text target_name : text) (sections : list (text * Z))
         (t : Transaction),
    In t (extract_transactions_for_name pdf_text target_name sections) ->
    is_date_text (txn_date t) = true
    /\ strip (txn_merchant t) = txn_merchant t
    /\ forallb (fun c => negb (is_space c) || (c =? 32)%N) (txn_merchant t) = true
    /\ startswith (upper (txn_merchant t)) (str "CARD ENDING") = false
    /\ exists n, is_amount_numeral n
                 /\ txn_amount t = float_of_numeral (remove_commas n).
Proof.
  intros pdf_text target_name sections t. unfold extract_transactions_for_name.
  destruct (lookup_pos target_name sections) as [target_pos|]; [|intros []].
  destruct (target_pos =? 0)%Z; [intros []|].
  cbv zeta. intros Hin. apply in_flat_map in Hin.
  destruct Hin as (chunk & _ & Hin).
  destruct (chunk_transaction chunk) as [t'|] eqn:Hchunk; [|destruct Hin].
  destruct Hin as [<-|[]]. exact (chunk_transaction_fields chunk Hchunk).
Qed.

(** A transaction whose date is no date of the calendar, within a section
    of two lines, and one whose date is in Arabic-Indic digits. *)
Lemma extract_transactions_wellformed_witness :
  let pdf_text :=
    str "x JANET SMITH Card Ending 1234 " ++ [9674%N]
    ++ str " 99/99/99   BOOK" ++ [10%N] ++ str "STORE $1,025.00" ++ [9674%N]
    ++ [1633; 1634; 47; 1632; 1633; 47; 1634; 1636]%N ++ str " CAFE $4.50" in
  let t := mkTransaction (str "99/99/99") (str "BOOK STORE") 1025 in
  let u := mkTransaction [1633; 1634; 47; 1632; 1633; 47; 1634; 1636]%N
             (str "CAFE") 4.5 in
  extract_transactions_for_name pdf_text (str "JANET SMITH")
    (find_cardholder_sections pdf_text) = [t; u]
  /\ is_date_text (txn_date t) = true
  /\ strip (txn_merchant t) = txn_merchant t
  /\ is_date_text (txn_date u) = true.
Proof.
  intros pdf_text t u.
  assert (Hrun : extract_transactions_for_name pdf_text (str "JANET SMITH")
                   (find_cardholder_sections pdf_text) = [t; u])
    by (vm_compute; reflexivity).
  split; [exact Hrun|].
  destruct (@extract_transactions_wellformed pdf_text (str "JANET SMITH")
              (find_cardholder_sections pdf_text) t)
    as (Hdate & Hstrip & _).
  { rewrite Hrun. now left. }
  destruct (@extract_transactions_wellformed pdf_text (str "JANET SMITH")
              (find_cardholder_sections pdf_text) u)
    as (Hdate' & _).
  { rewrite Hrun. right. now left. }
  split; [exact Hdate|]. split; [exact Hstrip | exact Hdate'].
Defined.

(** ** Reconciler: what is reported missing *)

Section MissingFacts.

Lemma subseq_nil_l {A} (l : list A) : subseq [] l.
Proof. induction l; constructor; assumption. Qed.

Lemma subseq_app {A} (a1 a2 b1 b2 : list A) :
  subseq a1 b1 -> subseq a2 b2 -> subseq (a1 ++ a2) (b1 ++ b2).
Proof.
  intros H1 H2. induction H1; simpl.
  - assumption.
  - constructor. assumption.
  - apply subseq_keep. assumption.
Qed.

Lemma subseq_In {A} (l1 l2 : list A) (x : A) :
  subseq l1 l2 -> In x l1 -> In x l2.
Proof.
  intros H. induction H; simpl; intros Hin.
  - assumption.
  - right. auto.
  - destruct Hin as [->|Hin]; [now left | right; auto].
Qed.

(** The loop appends to [missing] some of the transactions it reads, in
    their order. *)
Lemma match_loop_missing (pdf_txns : list Transaction) (st : match_state) :
  exists added,
    missing (match_loop pdf_txns st) = missing st ++ added
    /\ subseq added pdf_txns.
Proof.
  revert st. induction pdf_txns as [|t l IH]; intros st.
  - exists []. simpl. rewrite app_nil_r. split; [reflexivity | constructor].
  - change (match_loop (t :: l) st) with (match_loop l (match_step st t)).
    destruct (IH (match_step st t)) as (added & Heq & Hsub).
    rewrite Heq. unfold match_step.
    destruct (first_index _ (available st)); simpl.
    + exists added. split; [reflexivity | now constructor].
    + exists (t :: added). rewrite <- app_assoc. split; [reflexivity|].
      now apply subseq_keep.
Qed.

(** A transaction that the loop reports missing is within tolerance of no
    amount of the pool that the loop leaves. *)
Lemma match_loop_maximal (pdf_txns : list Transaction) (st : match_state) :
  (forall t a, In t (missing st) -> In a (available st) ->
               within_tolerance a (txn_amount t) = false) ->
  forall t a,
    In t (missing (match_loop pdf_txns st)) ->
    In a (available (match_loop pdf_txns st)) ->
    within_tolerance a (txn_amount t) = false.
Proof.
  revert st. induction pdf_txns as [|t0 l IH]; intros st Hinv.
  - exact Hinv.
  - change (match_loop (t0 :: l) st) with (match_loop l (match_step st t0)).
    apply IH. intros t a Ht Ha.
    pose proof (@subseq_In _ _ _ a (match_step_available st t0) Ha) as Ha'.
    unfold match_step in Ht.
    destruct (first_index (fun amt => within_tolerance amt (txn_amount t0))
                (available st)) eqn:Hidx; simpl in Ht.
    + now apply Hinv.
    + apply in_app_or in Ht. destruct Ht as [Ht|[<-|[]]].
      * now apply Hinv.
      * exact (proj1 (first_index_None _ _) Hidx a Ha').
Qed.

(** When a statement transaction is within tolerance of no amount of the
    pool, the loop reports all of them missing and consumes nothing. *)
Lemma match_loop_none (pdf_txns : list Transaction) (st : match_state) :
  (forall t a, In t pdf_txns -> In a (available st) ->
               within_tolerance a (txn_amount t) = false) ->
  match_loop pdf_txns st
  = {| available := available st; matched := matched st;
       missing := missing st ++ pdf_txns |}.
Proof.
  revert st. induction pdf_txns as [|t l IH]; intros st Hnone.
  - simpl. rewrite app_nil_r. now destruct st.
  - change (match_loop (t :: l) st) with (match_loop l (match_step st t)).
    assert (Hstep : match_step st t
                    = {| available := available st; matched := matched st;
                         missing := missing st ++ [t] |}).
    { unfold match_step.
      rewrite (proj2 (first_index_None _ (available st)));
        [reflexivity|].
      intros a Ha. apply Hnone; [now left | assumption]. }
    rewrite Hstep, IH; simpl.
    + now rewrite <- app_assoc.
    + intros t' a Ht' Ha. apply Hnone; [now right | assumption].
Qed.

(** When the transactions and the amounts of the pool are within tolerance
    one by one, in order, the loop matches each transaction with the amount
    at its own place. *)
Lemma match_loop_aligned (pdf_txns : list Transaction) (amounts rest : list float)
    (n : nat) (miss : list Transaction) :
  Forall2 (fun t a => within_tolerance a (txn_amount t) = true) pdf_txns amounts ->
  match_loop pdf_txns {| available := amounts ++ rest; matched := n; missing := miss |}
  = {| available := rest; matched := length pdf_txns + n; missing := miss |}.
Proof.
  intros H. revert n. induction H as [|t a l amounts' Hta _ IH]; intros n.
  - reflexivity.
  - change (match_loop (t :: l) ?st) with (match_loop l (match_step st t)).
    unfold match_step. simpl. rewrite Hta. simpl.
    rewrite IH. simpl. f_equal. lia.
Qed.

End MissingFacts.

(** X16. The transactions reported missing are statement transactions, in the
    order of the statement: [missing] is the statement list with the
    matched transactions left out. None of them is within tolerance of a
    tabular amount that the run leaves unused, so no further pair could be
    matched once the run is over. *)
Theorem match_transactions_missing_in_order :
  forall (pdf_txns : list Transaction) (excel_txns : list TableRecord),
    let st := match_loop pdf_txns (match_init excel_txns) in
    snd (match_transactions pdf_txns excel_txns) = missing st
    /\ subseq (missing st) pdf_txns
    /\ forall t a,
         In t (missing st) -> In a (available st) ->
         within_tolerance a (txn_amount t) = false.
Proof.
  intros pdf_txns excel_txns st. split; [reflexivity|]. split.
  - destruct (match_loop_missing pdf_txns (match_init excel_txns))
      as (added & Heq & Hsub).
    fold st in Heq. simpl in Heq. now rewrite Heq.
  - apply match_loop_maximal. intros t a [].
Qed.

(** X17. When no statement amount is within tolerance of any tabular amount (an
    empty tabular list is the first case of it), nothing is matched and
    every statement transaction is reported missing, in order. *)
Theorem match_transactions_nothing_within_tolerance :
  forall (pdf_txns : list Transaction) (excel_txns : list TableRecord),
    (forall t r, In t pdf_txns -> In r excel_txns ->
                 within_tolerance (rec_amount r) (txn_amount t) = false) ->
    match_transactions pdf_txns excel_txns = (0, pdf_txns).
Proof.
  intros pdf_txns excel_txns Hnone. unfold match_transactions.
  rewrite match_loop_none; [reflexivity|].
  intros t a Ht Ha. simpl in Ha. apply in_map_iff in Ha.
  destruct Ha as (r & <- & Hr). now apply Hnone.
Qed.

(** Two statement transactions against a tabular list that holds nothing
    near them, and against an empty tabular list. *)
Lemma match_transactions_nothing_within_tolerance_witness :
  let pdf_txns := [mkTransaction (str "01/02/24") (str "SHOP") 5;
                   mkTransaction (str "01/03/24") (str "CAFE") 12.25] in
  match_transactions pdf_txns [mkTableRecord (str "01/02/24") 7] = (0, pdf_txns)
  /\ match_transactions pdf_txns [] = (0, pdf_txns).
Proof.
  intros pdf_txns. split.
  - apply (match_transactions_nothing_within_tolerance pdf_txns
             [mkTableRecord (str "01/02/24") 7]).
    intros t r [<-|[<-|[]]] [<-|[]]; reflexivity.
  - apply (match_transactions_nothing_within_tolerance pdf_txns []).
    intros t r _ [].
Defined.

(** X18. When the statement and the table list the same number of entries and
    the i-th statement amount is within tolerance of the i-th tabular
    amount for every i, every transaction is matched and none is missing. *)
Theorem match_transactions_aligned :
  forall (pdf_txns : list Transaction) (excel_txns : list TableRecord),
    Forall2 (fun t r => within_tolerance (rec_amount r) (txn_amount t) = true)
      pdf_txns excel_txns ->
    match_transactions pdf_txns excel_txns = (length pdf_txns, []).
Proof.
  intros pdf_txns excel_txns H. unfold match_transactions, match_init.
  rewrite <- (app_nil_r (List.map rec_amount excel_txns)).
  rewrite match_loop_aligned; simpl.
  - now rewrite Nat.add_0_r.
  - clear -H. induction H; simpl; constructor; assumption.
Qed.

(** A statement reconciled with a table that records the same amounts,
    one of them 40 cents off. *)
Lemma match_transactions_aligned_witness :
  match_transactions
    [mkTransaction (str "01/02/24") (str "SHOP") 5;
     mkTransaction (str "01/03/24") (str "CAFE") 12.25]
    [mkTableRecord (str "01/02/24") 5; mkTableRecord (str "01/03/24") 12.65]
  = (2, []).
Proof.
  apply (@match_transactions_aligned
           [mkTransaction (str "01/02/24") (str "SHOP") 5;
            mkTransaction (str "01/03/24") (str "CAFE") 12.25]
           [mkTableRecord (str "01/02/24") 5; mkTableRecord (str "01/03/24") 12.65]).
  repeat constructor.
Defined.

(** ** The request handler *)

Section CompareFacts.

(** Of a list that is not empty the resolver returns the name of a
    section. *)
Lemma select_some_in (target : text) (available : list (text * Z)) :
  available <> [] ->
  exists name,
    select_target_section_name target available = Some name
    /\ In name (List.map fst available).
Proof.
  intros Hne. unfold select_target_section_name.
  destruct (normalize_available (upper target) available) as [found|items] eqn:Hnorm.
  - exists found. split; [reflexivity|].
    apply normalize_available_inl in Hnorm.
    destruct Hnorm as (pre & pos & post & -> & _).
    rewrite map_app. apply in_or_app. right. now left.
  - apply normalize_available_inr in Hnorm. destruct Hnorm as (Horig & _).
    destruct (score_candidates (upper target) (set_of (split_ws (upper target))) items)
      as [|c candidates] eqn:Hcand.
    + destruct available as [|[name pos] rest]; [congruence|].
      exists name. split; [reflexivity | now left].
    + exists (snd (max_by_score c candidates)). split; [reflexivity|].
      rewrite <- Horig.
      apply (@score_candidates_In (upper target) (set_of (split_ws (upper target)))).
      rewrite Hcand. apply max_by_score_In.
Qed.

(** Each match consumes one amount of the pool. *)
Lemma pop_length {A} (p : A -> bool) (l : list A) (idx : nat) :
  first_index p l = Some idx -> S (length (pop idx l)) = length l.
Proof.
  intros H. apply first_index_Some in H.
  destruct H as (pre & a & post & -> & _ & _ & _ & ->).
  rewrite !length_app. simpl. lia.
Qed.

Lemma match_loop_pool (pdf_txns : list Transaction) (st : match_state) :
  matched (match_loop pdf_txns st) + length (available (match_loop pdf_txns st))
  = matched st + length (available st).
Proof.
  revert st. induction pdf_txns as [|t l IH]; intros st; [reflexivity|].
  change (match_loop (t :: l) st) with (match_loop l (match_step st t)).
  rewrite IH. unfold match_step.
  destruct (first_index (fun amt => within_tolerance amt (txn_amount t))
              (available st)) as [idx|] eqn:Hidx; simpl; [|reflexivity].
  apply pop_length in Hidx. lia.
Qed.

Lemma match_transactions_bounds (pdf_txns : list Transaction)
    (excel_txns : list TableRecord) :
  fst (match_transactions pdf_txns excel_txns)
  + length (snd (match_transactions pdf_txns excel_txns)) = length pdf_txns
  /\ fst (match_transactions pdf_txns excel_txns) <= length excel_txns
  /\ subseq (snd (match_transactions pdf_txns excel_txns)) pdf_txns.
Proof.
  unfold match_transactions. simpl. split; [|split].
  - rewrite match_loop_count. simpl. lia.
  - pose proof (match_loop_pool pdf_txns (match_init excel_txns)) as H.
    simpl in H. rewrite length_map in H. lia.
  - destruct (match_loop_missing pdf_txns (match_init excel_txns))
      as (added & Heq & Hsub).
    simpl in Heq. now rewrite Heq.
Qed.

Lemma located_name_not_empty (t : text) (name : text) :
  In name (List.map fst (find_cardholder_sections t)) -> name <> [].
Proof.
  intros Hin. apply in_map_iff in Hin. destruct Hin as ([n off] & <- & Hin).
  destruct (find_cardholder_sections_anchor t n off Hin)
    as (raw & ws & (rest & _ & Hraw & _) & _ & Hname).
  pose proof (strip_name_token_length _ Hraw) as Hlen.
  simpl. rewrite Hname. intros Hnil. rewrite Hnil in Hlen. simpl in Hlen. lia.
Qed.

End CompareFacts.

(** X19. [compare] never reports that the name could not be matched: once the
    statement has a cardholder section, the resolver returns the name of
    one, and no section name is empty. Every answer is a flashed message,
    one of the two errors of the period, the error of a statement without
    cardholder, or the results page. *)
Theorem compare_name_always_matched :
  forall (pdf_filename excel_filename : option text) (decoded : text)
         (read_excel_transactions : date -> date -> list TableRecord),
    let answer :=
      compare pdf_filename excel_filename decoded read_excel_transactions in
    (exists message, answer = Flashed message)
    \/ (exists e, answer = ErrorPage (PeriodError e))
    \/ answer = ErrorPage NoCardholdersFound
    \/ (exists r, answer = ResultsPage r).
Proof.
  intros pdf_filename excel_filename decoded read_excel answer.
  unfold answer, compare.
  destruct pdf_filename as [p|]; [|left; eexists; reflexivity].
  destruct excel_filename as [x|]; [|left; eexists; reflexivity].
  destruct (text_eqb p [] || text_eqb x []); [left; eexists; reflexivity|].
  destruct (negb (allowed_file p (str "pdf"))); [left; eexists; reflexivity|].
  destruct (negb (allowed_file x (str "excel"))); [left; eexists; reflexivity|].
  cbv zeta.
  destruct (parse_statement_period (read_pdf_text decoded)) as [e|[s e]];
    [right; left; eexists; reflexivity|].
  destruct (find_cardholder_sections (read_pdf_text decoded)) as [|q sections] eqn:Hs;
    [right; right; left; reflexivity|].
  destruct (@select_some_in (derive_name_from_excel_filename x) (q :: sections))
    as (name & Hsel & Hin); [discriminate|].
  rewrite Hsel. rewrite <- Hs in Hin.
  apply located_name_not_empty in Hin.
  rewrite (proj2 (text_eqb_neq name []) Hin).
  right. right. right.
  destruct (match_transactions _ _). eexists. reflexivity.
Qed.

(** X20. What the results page shows. The cardholder is one of the sections
    located in the normalised text of the statement; the period ends on
    the closing date that follows the leftmost "Closing Date" of that text,
    shown in ASCII digits (as the statement writes it, when the statement
    has it in ASCII digits), and starts 30 days before; every statement
    transaction of the cardholder is counted as matched or listed as
    missing, the missing ones in the order of the statement; and no more
    transactions are matched than the workbook has records. *)
Theorem compare_results_consistent :
  forall (pdf_filename excel_filename : option text) (decoded : text)
         (read_excel_transactions : date -> date -> list TableRecord)
         (r : results),
    compare pdf_filename excel_filename decoded read_excel_transactions
    = ResultsPage r ->
    let pdf_text := read_pdf_text decoded in
    let sections := find_cardholder_sections pdf_text in
    let pdf_txns := extract_transactions_for_name pdf_text (cardholder r) sections in
    In (cardholder r) (List.map fst sections)
    /\ (exists start_date end_date,
          parse_statement_period pdf_text = inr (start_date, end_date)
          /\ period_start r = strftime_mdy start_date
          /\ period_end r = strftime_mdy end_date
          /\ (ymd2ord end_date - ymd2ord start_date = 30)%Z
          /\ excel_count r = length (read_excel_transactions start_date end_date))
    /\ (exists i d,
          closing_date_at pdf_text i d
          /\ (forall j d', j < i -> ~ closing_date_at pdf_text j d')
          /\ period_end r = ascii_digits d
          /\ (is_date_shape d = true -> period_end r = d))
    /\ pdf_count r = length pdf_txns
    /\ matched_count r + missing_count r = pdf_count r
    /\ missing_count r = length (missing_transactions r)
    /\ subseq (missing_transactions r) pdf_txns
    /\ matched_count r <= excel_count r.
Proof.
  intros pdf_filename excel_filename decoded read_excel r.
  unfold compare.
  destruct pdf_filename as [p|]; [|discriminate].
  destruct excel_filename as [x|]; [|discriminate].
  destruct (text_eqb p [] || text_eqb x []); [discriminate|].
  destruct (negb (allowed_file p (str "pdf"))); [discriminate|].
  destruct (negb (allowed_file x (str "excel"))); [discriminate|].
  cbv zeta.
  destruct (parse_statement_period (read_pdf_text decoded)) as [e|[s e]] eqn:Hperiod;
    [discriminate|].
  destruct (find_cardholder_sections (read_pdf_text decoded)) as [|q sections] eqn:Hs;
    [discriminate|].
  destruct (@select_some_in (derive_name_from_excel_filename x) (q :: sections))
    as (name & Hsel & Hin); [discriminate|].
  rewrite Hsel.
  destruct (text_eqb name []); [discriminate|].
  pose proof (match_transactions_bounds
                (extract_transactions_for_name (read_pdf_text decoded) name
                   (q :: sections))
                (read_excel s e)) as (Hcount & Hle & Hsub).
  destruct (match_transactions _ _) as [m miss].
  intros [= <-]. cbn [cardholder period_start period_end pdf_count excel_count
                      matched_count missing_count missing_transactions].
  simpl in Hcount, Hle, Hsub.
  destruct (@parse_statement_period_inr _ _ _ Hperiod)
    as (i & d & Hanchor & Hleft & Hparse & Hstart).
  assert (Hshape : is_date_text d = true).
  { destruct Hanchor as (ws & rest & _ & _ & Hshape). exact Hshape. }
  destruct (@thirty_days_before _ _ Hshape Hparse) as [_ Hdiff].
  rewrite <- Hstart in Hdiff.
  split; [assumption|].
  split; [exists s, e; auto|].
  split.
  { exists i, d. split; [exact Hanchor|]. split; [exact Hleft|].
    split; [exact (@strftime_strptime_text _ _ Hshape Hparse)|].
    intros Hascii. exact (@strftime_strptime _ _ Hascii Hparse). }
  split; [reflexivity|].
  split; [assumption|].
  split; [reflexivity|].
  split; assumption.
Qed.

(** X21. The uploads are checked before anything is read. When a file is
    absent from the request, has no name or has a name without an allowed
    extension, the answer is a message flashed on the index page, the same
    whatever the statement and the workbook hold; when the uploads pass the
    checks, the answer is the results page or the error page. *)
Theorem compare_checks_uploads_first :
  forall pdf_filename excel_filename : option text,
    (uploads_valid pdf_filename excel_filename = false ->
     exists message,
       forall decoded read_excel_transactions,
         compare pdf_filename excel_filename decoded read_excel_transactions
         = Flashed message)
    /\ (uploads_valid pdf_filename excel_filename = true ->
        forall decoded read_excel_transactions message,
          compare pdf_filename excel_filename decoded read_excel_transactions
          <> Flashed message).
Proof.
  intros pdf_filename excel_filename. unfold uploads_valid, compare.
  destruct pdf_filename as [p|].
  - destruct excel_filename as [x|].
    + destruct (text_eqb p []); simpl.
      { split; [|discriminate]. intros _. eexists. reflexivity. }
      destruct (text_eqb x []); simpl.
      { split; [|discriminate]. intros _. eexists. reflexivity. }
      destruct (allowed_file p (str "pdf")); simpl.
      2:{ split; [|discriminate]. intros _. eexists. reflexivity. }
      destruct (allowed_file x (str "excel")); simpl.
      2:{ split; [|discriminate]. intros _. eexists. reflexivity. }
      split; [discriminate|]. intros _ decoded read_excel message.
      destruct (parse_statement_period (read_pdf_text decoded)) as [e|[s e]];
        [discriminate|].
      destruct (find_cardholder_sections (read_pdf_text decoded)); [discriminate|].
      destruct (select_target_section_name _ _) as [selected|]; [|discriminate].
      destruct (text_eqb selected []); [discriminate|].
      discriminate.
    + split; [|discriminate]. intros _. eexists. reflexivity.
  - split; [|discriminate]. intros _. eexists. reflexivity.
Qed.

(** The request of the sample: the statement of JANET SMITH and CARLOS
    DIAZ, the workbook of Janet S. *)
Lemma compare_results_consistent_witness :
  compare (Some (str "statement.pdf"))
    (Some (str "20251021_122023_JanetS Expenses.xlsx"))
    sample_decoded sample_workbook
  = ResultsPage sample_results
  /\ In (str "JANET SMITH")
       (List.map fst (find_cardholder_sections (read_pdf_text sample_decoded)))
  /\ (exists i d,
        closing_date_at (read_pdf_text sample_decoded) i d
        /\ str "03/15/24" = ascii_digits d)
  /\ 1 + 1 = 2.
Proof.
  assert (Hrun : compare (Some (str "statement.pdf"))
                   (Some (str "20251021_122023_JanetS Expenses.xlsx"))
                   sample_decoded sample_workbook
                 = ResultsPage sample_results)
    by (vm_compute; reflexivity).
  split; [exact Hrun|].
  destruct (@compare_results_consistent _ _ _ _ _ Hrun)
    as (Hin & _ & (i & d & Hanchor & _ & Hend & _) & _ & Hcount & _).
  split; [exact Hin|]. split; [|exact Hcount].
  exists i, d. split; [exact Hanchor | exact Hend].
Defined.

(** A statement sent with the extension of a program. *)
Lemma compare_checks_uploads_first_witness :
  compare (Some (str "statement.exe")) (Some (str "JanetS.xlsx"))
    sample_decoded sample_workbook
  = Flashed (str "PDF file must be a .pdf file!").
Proof.
  destruct (compare_checks_uploads_first (Some (str "statement.exe"))
              (Some (str "JanetS.xlsx"))) as [Hinvalid _].
  destruct (Hinvalid eq_refl) as (message & Hmessage).
  rewrite Hmessage. rewrite <- (Hmessage [] (fun _ _ => [])). reflexivity.
Defined.

Section OpeningFacts.

(** In a list in ascending order, the first offset is the least. *)
Lemma ascending_head {A} (q : A * Z) (l : list (A * Z)) :
  (forall pre p1 p2 post, q :: l = pre ++ p1 :: p2 :: post -> (snd p1 < snd p2)%Z) ->
  forall x, In x l -> (snd q < snd x)%Z.
Proof.
  revert q. induction l as [|y l IH]; intros q Hasc x Hin; [destruct Hin|].
  assert (Hqy : (snd q < snd y)%Z) by exact (Hasc [] q y l eq_refl).
  destruct Hin as [<-|Hin]; [assumption|].
  assert (Hyx : (snd y < snd x)%Z).
  { apply (IH y); [|assumption].
    intros pre p1 p2 post Heq. apply (Hasc (q :: pre) p1 p2 post).
    simpl. now rewrite Heq. }
  lia.
Qed.

(** The section at offset 0, if any, is the first of the list, and the
    one that the extractor looks up under its name. *)
Lemma lookup_pos_opening (t : text) (name : text) :
  In (name, 0%Z) (find_cardholder_sections t) ->
  lookup_pos name (find_cardholder_sections t) = Some 0%Z.
Proof.
  intros Hin.
  assert (Hasc : forall pre p1 p2 post,
            find_cardholder_sections t = pre ++ p1 :: p2 :: post ->
            (snd p1 < snd p2)%Z).
  { intros pre p1 p2 post Heq. rewrite find_cardholder_sections_map in Heq.
    exact (section_scan_ascending (re_finditer_scan t never_empty_section_re)
             _ _ _ _ Heq). }
  assert (Hnonneg : forall q, In q (find_cardholder_sections t) -> (0 <= snd q)%Z).
  { intros [n o] Hq.
    destruct (find_cardholder_sections_anchor t n o Hq) as (_ & _ & _ & Ho & _).
    exact Ho. }
  destruct (find_cardholder_sections t) as [|[n o] rest]; [destruct Hin|].
  destruct Hin as [Heq|Hin].
  - injection Heq as -> ->. simpl.
    now rewrite (proj2 (text_eqb_eq name name) eq_refl).
  - pose proof (ascending_head Hasc (name, 0%Z) Hin) as Hlt.
    pose proof (Hnonneg (n, o) (or_introl eq_refl)) as Hn.
    simpl in Hlt, Hn. lia.
Qed.

End OpeningFacts.

(** X22. A statement whose text opens with the name of the selected
    cardholder: the section stands at offset 0, which the extractor takes
    for no offset at all, and the results page counts no statement
    transaction for the cardholder: none matched, none missing. *)
Theorem compare_opening_cardholder_counts_nothing :
  forall (pdf_filename excel_filename : option text) (decoded : text)
         (read_excel_transactions : date -> date -> list TableRecord)
         (r : results),
    compare pdf_filename excel_filename decoded read_excel_transactions
    = ResultsPage r ->
    In (cardholder r, 0%Z) (find_cardholder_sections (read_pdf_text decoded)) ->
    pdf_count r = 0 /\ matched_count r = 0 /\ missing_transactions r = [].
Proof.
  intros pdf_filename excel_filename decoded read_excel r.
  unfold compare.
  destruct pdf_filename as [p|]; [|discriminate].
  destruct excel_filename as [x|]; [|discriminate].
  destruct (text_eqb p [] || text_eqb x []); [discriminate|].
  destruct (negb (allowed_file p (str "pdf"))); [discriminate|].
  destruct (negb (allowed_file x (str "excel"))); [discriminate|].
  cbv zeta.
  destruct (parse_statement_period (read_pdf_text decoded)) as [e|[s e]];
    [discriminate|].
  destruct (find_cardholder_sections (read_pdf_text decoded)) as [|q sections] eqn:Hs;
    [discriminate|].
  destruct (select_target_section_name (derive_name_from_excel_filename x)
              (q :: sections)) as [name|]; [|discriminate].
  destruct (text_eqb name []); [discriminate|].
  destruct (match_transactions
              (extract_transactions_for_name (read_pdf_text decoded) name
                 (q :: sections)) (read_excel s e)) as [m miss] eqn:Hmatch.
  intros [= <-]. cbn [cardholder pdf_count matched_count missing_transactions].
  intros Hin. rewrite <- Hs in *.
  apply lookup_pos_opening in Hin.
  unfold extract_transactions_for_name in Hmatch |- *.
  rewrite Hin in Hmatch |- *. simpl in Hmatch.
  injection Hmatch as <- <-. auto.
Qed.

(** A statement that opens with the name of its cardholder: the
    transaction of her section is not counted. *)
Lemma compare_opening_cardholder_counts_nothing_witness :
  let decoded :=
    str "JANET SMITH Card Ending 1234 Closing Date 03/15/24" ++ [10%N]
    ++ [9674%N] ++ str " 02/20/24 BOOK STORE $25.00" ++ [10%N] in
  let r :=
    {| cardholder := str "JANET SMITH";
       period_start := str "02/14/24";
       period_end := str "03/15/24";
       pdf_count := 0;
       excel_count := 1;
       matched_count := 0;
       missing_count := 0;
       missing_transactions := [] |} in
  compare (Some (str "statement.pdf")) (Some (str "JanetS.xlsx")) decoded
    sample_workbook = ResultsPage r
  /\ pdf_count r = 0 /\ matched_count r = 0 /\ missing_transactions r = [].
Proof.
  intros decoded r.
  assert (Hrun : compare (Some (str "statement.pdf")) (Some (str "JanetS.xlsx"))
                   decoded sample_workbook = ResultsPage r)
    by (vm_compute; reflexivity).
  split; [exact Hrun|].
  apply (@compare_opening_cardholder_counts_nothing _ _ _ _ _ Hrun).
  vm_compute. now left.
Defined.
